(** * MastraOpenDeepResearch: the report workflow, embedded and verified

    A shallow embedding of the orchestration core of the repository:
    - [routeTasks], the [MastraGraph] runner and the report graph
      (src/mastra/workflows/flow.ts),
    - the stage functions, among them [searchWeb], [writeSection] and
      [compileFinalReport] (src/mastra/agents/graphAgent.ts),
    - [formatSections] and the cached, batched Tavily gateway
      [tavilySearchAsync] (src/mastra/tools/utils.ts),
    followed by the properties proved of them.

    Conventions of the embedding.
    - JavaScript objects of type [Section] are mutated in place and shared
      between [state.sections], [state.completed_sections] and
      [state.section]; they live in a [heap] and the state holds
      references ([loc]) to them.
    - An optional or possibly missing property is an [option]; [None] is
      JavaScript's [undefined].
    - The counters of the program are integers ([Z], [nat]).  A missing
      counter stays missing under [+ 1] and compares as [false], as [NaN]
      does.  The numbers of the configuration are integers or [NaN]
      ([number]).
    - A thrown exception is the [Throw] outcome.  [async] functions are run
      to completion in program order, and the state of the outside world
      (language model, search provider) is threaded explicitly, so that two
      calls with the same arguments may be answered differently.
    - Requests started together ([Promise.all]) are issued in the order of
      their list and are taken to settle in that order, all of them before
      the program goes on; delays are not modelled.  In the program a
      request that is still pending when another request of its batch
      fails settles later, and writes to the cache then.
    - An object used as a table ([Record<string, ...>]) is the finite map
      of its own properties; a key that names a member of
      [Object.prototype] and is no property of the table finds that
      member.
    - [console.log], [console.warn] and [console.error] are not modelled. *)

From stdpp Require Import gmap strings list pretty.

Open Scope Z_scope.

Set Warnings "-clear-no-such-hyp".

(** ** Results of fallible code *)

Inductive exn : Type :=
| EntryPointNotSet
| NodeNotFound (node : string)
| NextNodeNotFound (target from : string)
| NoDirectEdge (node : string)
| InvalidResult (node : string)
| TypeError (what : string)
| UnsupportedProvider (provider : string)
| UnsupportedSearchAPI (api : string)
| ExternalError (msg : string).

Inductive outcome (A : Type) : Type :=
| Ok (a : A)
| Throw (e : exn).

Arguments Ok {A} a.
Arguments Throw {A} e.

(** ** Data model (types/index.ts) *)

Record SourceReference : Type := mkSource {
  url : string;
  title : string }.

Record ReportSection : Type := mkSection {
  name : string;
  description : string;
  research : bool;
  content : option string;
  sources : option (list SourceReference) }.

Record SearchQuery : Type := mkQuery { search_query : string }.

Inductive Grade : Type := pass | fail.

Record Feedback : Type := mkFeedback {
  grade : Grade;
  follow_up_queries : list SearchQuery }.

#[global] Instance SourceReference_eq_dec : EqDecision SourceReference.
Proof. solve_decision. Defined.
#[global] Instance ReportSection_eq_dec : EqDecision ReportSection.
Proof. solve_decision. Defined.
#[global] Instance SearchQuery_eq_dec : EqDecision SearchQuery.
Proof. solve_decision. Defined.
#[global] Instance Grade_eq_dec : EqDecision Grade.
Proof. solve_decision. Defined.

(** Section objects are shared by reference. *)
Definition loc : Type := nat.
Definition heap : Type := loc -> ReportSection.

Definition heap_set (h : heap) (l : loc) (s : ReportSection) : heap :=
  fun l' => if decide (l' = l) then s else h l'.

Definition set_content (c : option string) (s : ReportSection) : ReportSection :=
  mkSection (name s) (description s) (research s) c (sources s).

Definition set_sources (srcs : option (list SourceReference)) (s : ReportSection)
  : ReportSection :=
  mkSection (name s) (description s) (research s) (content s) srcs.

(** The object threaded through the graph.  It carries the properties of
  [ReportState] and, once a section is being processed, those of
  [SectionState]; a partial update ([Partial<TState>], [Command.update])
  is an object of the same shape in which [None] means that the key is
  not set by the update. *)
Record State : Type := mkState {
  topic : option string;
  feedback_on_report_plan : option (list string);
  sections : option (list loc);
  completed_sections : option (list loc);
  report_sections_from_research : option string;
  final_report : option string;
  section : option loc;
  search_iterations : option Z;
  search_queries : option (list SearchQuery);
  source_str : option string }.

#[global] Instance State_eq_dec : EqDecision State.
Proof. solve_decision. Defined.

Definition no_update : State :=
  mkState None None None None None None None None None None.

(** [Command<string>]: [{ goto, update? }]. *)
Record Command : Type := mkCommand {
  goto : string;
  update : option State }.

#[global] Instance Command_eq_dec : EqDecision Command.
Proof. solve_decision. Defined.

(** [{ ...a, ...b }] on one property. *)
Definition override {A} (new old : option A) : option A :=
  match new with Some x => Some x | None => old end.

(** [{ ...currentState, ...update }]: a shallow spread, key by key. Every
  update built by the stage functions either sets a key to a defined
  value or copies the value the state already has, so reading a [None]
  of the update as an absent key loses nothing. *)
Definition spread (st upd : State) : State :=
  mkState
    (override (topic upd) (topic st))
    (override (feedback_on_report_plan upd) (feedback_on_report_plan st))
    (override (sections upd) (sections st))
    (override (completed_sections upd) (completed_sections st))
    (override (report_sections_from_research upd) (report_sections_from_research st))
    (override (final_report upd) (final_report st))
    (override (section upd) (section st))
    (override (search_iterations upd) (search_iterations st))
    (override (search_queries upd) (search_queries st))
    (override (source_str upd) (source_str st)).

(** ** routeTasks (workflows/flow.ts, lines 203-265) *)

(** [state.completed_sections ? state.completed_sections.length : 0] *)
Definition completedSectionsCount (state : State) : nat :=
  match completed_sections state with
  | Some cs => length cs
  | None => 0%nat
  end.

(** [state.completed_sections?.some(cs => cs.name === section.name)];
    [undefined] when the list is missing, which the caller negates to
    [true]. *)
Definition isCompleted (h : heap) (state : State) (s : loc) : bool :=
  match completed_sections state with
  | Some cs => existsb (fun cs => bool_decide (name (h cs) = name (h s))) cs
  | None => false
  end.

Definition to_compile : Command := mkCommand "compile-final-report" None.

(** The directive for the selected section [cur]. *)
Definition dispatch (h : heap) (state : State) (cur : loc) : Command :=
  if research (h cur) then
    mkCommand "generate-queries" (Some {|
      topic := topic state;
      section := Some cur;
      search_iterations := Some 0;
      sections := sections state;
      completed_sections := Some (default [] (completed_sections state));
      feedback_on_report_plan := feedback_on_report_plan state;
      report_sections_from_research := report_sections_from_research state;
      final_report := None;
      search_queries := None;
      source_str := None |})
  else
    mkCommand "write-final-sections" (Some {|
      topic := topic state;
      section := Some cur;
      report_sections_from_research :=
        Some (default "" (report_sections_from_research state));
      sections := sections state;
      completed_sections := Some (default [] (completed_sections state));
      feedback_on_report_plan := feedback_on_report_plan state;
      final_report := None;
      search_iterations := None;
      search_queries := None;
      source_str := None |}).

Definition routeTasks (h : heap) (state : State) : Command :=
  match sections state with
  | None | Some [] => to_compile
  | Some secs =>
      if bool_decide (completedSectionsCount state = length secs) then to_compile
      else
        match find (fun s => negb (isCompleted h state s)) secs with
        | None => to_compile
        | Some firstUncompletedSection => dispatch h state firstUncompletedSection
        end
  end.

(** ** Configuration (tools/config.ts) *)

(** [SearchApiConfig]: the three parameters the Tavily gateway accepts. *)
Record SearchApiConfig : Type := mkSearchApiConfig {
  max_results : option Z;
  search_topic : option string;
  include_raw_content : option bool }.

(** A number of the configuration.  [loadConfig], which every stage
    function calls without overrides, takes it from the defaults or from
    an environment variable read by [parseInt]: an integer, or [NaN] when
    the variable does not start with a numeral.  (A numeral of more than
    308 digits, which [parseInt] reads as [Infinity], is left out.) *)
Inductive number : Type :=
| Int (z : Z)
| NaN.

Coercion Int : Z >-> number.

Bind Scope Z_scope with number.

#[global] Instance number_eq_dec : EqDecision number.
Proof. solve_decision. Defined.

(** [x.toString()] *)
Definition toString (x : number) : string :=
  match x with
  | Int z => pretty z
  | NaN => "NaN"
  end.

(** [n >= x] for a counter [n]: a comparison with [NaN] is false. *)
Definition at_least (n : Z) (x : number) : Prop :=
  match x with
  | Int z => z <= n
  | NaN => False
  end.

#[global] Instance at_least_dec (n : Z) (x : number) : Decision (at_least n x).
Proof. destruct x; simpl; apply _. Defined.

(** The fields of [Configuration] read by the graph workflow (the model
    keyword arguments, passed through to the model provider unchanged, and
    the supervisor and memory settings are left out). *)
Record Configuration : Type := mkConfiguration {
  report_structure : string;
  search_api : string;
  search_api_config : option SearchApiConfig;
  number_of_queries : number;
  max_search_depth : number;
  planner_provider : string;
  planner_model : string;
  writer_provider : string;
  writer_model : string }.

(** [getSearchParams] (tools/utils.ts): only ["tavily"] accepts parameters. *)
Definition getSearchParams (searchApi : string) (searchApiConfig : option SearchApiConfig)
  : SearchApiConfig :=
  match searchApiConfig with
  | None => mkSearchApiConfig None None None
  | Some c =>
      if bool_decide (searchApi = "tavily") then c
      else mkSearchApiConfig None None None
  end.

(** [{ formattedOutput, sources }], the result of [selectAndExecuteSearch]. *)
Record SearchOutput : Type := mkSearchOutput {
  formattedOutput : string;
  found_sources : list SourceReference }.

(** ** The collaborators outside the program

    The language model, the search gateway as the stage functions see it,
    the prompt templates of tools/promptTool and the configuration that
    [loadConfig] returns.  [Ext] is the state of the outside world; a call
    takes it and returns the next one together with an answer or an
    exception. *)
Class Capabilities : Type := {
  Ext : Type;
  configuration : Configuration;
  report_planner_query_writer_instructions : string;
  report_planner_instructions : string;
  query_writer_instructions : string;
  section_writer_instructions : string;
  section_writer_inputs : string;
  final_section_writer_instructions : string;
  section_grader_instructions : string;
  (** [text.replace(pattern, replacement)] with a string pattern. *)
  replace : string -> string -> string -> string;
  (** [ai.generateText({ model, prompt })]. *)
  generateText : string -> string -> Ext -> Ext * outcome string;
  (** [ai.generateObject({ model, prompt, schema })] for the three schemas. *)
  generateQueriesObject : string -> string -> Ext -> Ext * outcome (list SearchQuery);
  generateSectionsObject : string -> string -> Ext -> Ext * outcome (list ReportSection);
  generateFeedbackObject : string -> string -> Ext -> Ext * outcome Feedback;
  (** [selectAndExecuteSearch(searchApi, queryList, paramsToPass)]. *)
  selectAndExecuteSearch :
    string -> list string -> SearchApiConfig -> Ext -> Ext * outcome SearchOutput }.

(** ** The mutable world and the monad of stage functions *)

Record World `{Capabilities} : Type := mkWorld {
  heap_of : heap;
  next_loc : loc;
  ext_of : Ext }.

Arguments mkWorld {_} _ _ _.

Definition M `{Capabilities} (A : Type) : Type := World -> World * outcome A.

Definition ret `{Capabilities} {A} (a : A) : M A := fun w => (w, Ok a).

Definition throw `{Capabilities} {A} (e : exn) : M A := fun w => (w, Throw e).

Definition bind `{Capabilities} {A B} (m : M A) (k : A -> M B) : M B :=
  fun w =>
    match m w with
    | (w', Ok a) => k a w'
    | (w', Throw e) => (w', Throw e)
    end.

Notation "'do' x <- m ; k" := (bind m (fun x => k))
  (at level 20, x name, m at level 100, k at level 200, only parsing).

(** A call to the outside world. *)
Definition call `{Capabilities} {A} (f : Ext -> Ext * outcome A) : M A :=
  fun w =>
    let (e, r) := f (ext_of w) in
    (mkWorld (heap_of w) (next_loc w) e, r).

(** Reading and writing a section object through a reference. *)
Definition deref `{Capabilities} (l : loc) : M ReportSection :=
  fun w => (w, Ok (heap_of w l)).

Definition assign `{Capabilities} (l : loc) (s : ReportSection) : M unit :=
  fun w => (mkWorld (heap_set (heap_of w) l s) (next_loc w) (ext_of w), Ok tt).

(** A new section object; the references from [next_loc] on are free. *)
Definition alloc `{Capabilities} (s : ReportSection) : M loc :=
  fun w =>
    (mkWorld (heap_set (heap_of w) (next_loc w) s) (S (next_loc w)) (ext_of w),
     Ok (next_loc w)).

Fixpoint alloc_all `{Capabilities} (ss : list ReportSection) : M (list loc) :=
  match ss with
  | [] => ret []
  | s :: ss' => do l <- alloc s; do ls <- alloc_all ss'; ret (l :: ls)
  end.

(** Reading a property of [undefined], or calling a method on it, throws. *)
Definition defined `{Capabilities} {A} (what : string) (o : option A) : M A :=
  match o with
  | Some a => ret a
  | None => throw (TypeError what)
  end.

(** ** JavaScript string helpers *)

Definition nl : string := String (Ascii.ascii_of_nat 10) EmptyString.

(** [a || b] on optional strings: [undefined] and the empty string are falsy. *)
Definition js_or (a b : option string) : option string :=
  match a with
  | Some s => if bool_decide (s = "") then b else Some s
  | None => b
  end.

(** A value interpolated into a string or passed to [replace]. *)
Definition js_string (o : option string) : string := default "undefined" o.

(** [array.join(sep)]; [undefined] elements, already turned into the empty
    string by the caller, included. *)
Definition js_join (sep : string) (l : list string) : string :=
  match l with
  | [] => ""
  | x :: xs => fold_left (fun acc y => acc +:+ sep +:+ y) xs x
  end.

(** [initModel] (agents/graphAgent.ts): only OpenAI is supported; the model
    is identified by its name. *)
Definition initModel `{Capabilities} (provider model : string) : M string :=
  if bool_decide (provider = "openai") then ret model
  else throw (UnsupportedProvider provider).

(** What a node function hands back to the graph runner: a command, a
    partial state, or something that is not an object.  (An object whose
    [goto] is not a string would be merged as a partial state; no stage
    function returns one.) *)
Inductive NodeResult : Type :=
| RCommand (c : Command)
| RPartial (u : State)
| RInvalid.

(** ** Stage functions (agents/graphAgent.ts) *)

(** The body shared by the two loops that collect sources without
    repeating a URL: [if (!urls.has(source.url)) { collected.push(source);
    urls.add(source.url); }]. *)
Definition push_unseen (acc : list SourceReference * gset string) (source : SourceReference)
  : list SourceReference * gset string :=
  let '(collected, urls) := acc in
  if decide (url source ∈ urls) then acc
  else (collected ++ [source], {[url source]} ∪ urls).

(** [prompt.replace(k1, v1).replace(k2, v2)...], left to right. *)
Definition fill `{Capabilities} (template : string) (bindings : list (string * string))
  : string :=
  fold_left (fun text kv => replace text kv.1 kv.2) bindings template.

(** [generateReportPlan] (lines 226-277). *)
Definition generateReportPlan `{Capabilities} (state : State) : M NodeResult :=
  let topic := topic state in
  let feedbackList := default [] (feedback_on_report_plan state) in
  let feedback := js_join " /// " feedbackList in
  let reportStructure := report_structure configuration in
  let numberOfQueries := number_of_queries configuration in
  let searchApi := search_api configuration in
  let paramsToPass := getSearchParams searchApi (search_api_config configuration) in
  do writerModel <- initModel (writer_provider configuration) (writer_model configuration);
  let systemInstructionsQuery :=
    fill report_planner_query_writer_instructions
      [("{topic}", js_string topic);
       ("{report_organization}", reportStructure);
       ("{number_of_queries}", toString numberOfQueries)] in
  do queries <- call (generateQueriesObject writerModel
    (systemInstructionsQuery +:+ nl +:+
     "Generate search queries that will help with planning the sections of the report."));
  let queryList := search_query <$> queries in
  do sourceStr <- call (selectAndExecuteSearch searchApi queryList paramsToPass);
  (* [sourceStr] is the result object, which [replace] turns into a string *)
  let systemInstructionsSections :=
    fill report_planner_instructions
      [("{topic}", js_string topic);
       ("{report_organization}", reportStructure);
       ("{context}", "[object Object]");
       ("{feedback}", feedback)] in
  do plannerModel <- initModel (planner_provider configuration) (planner_model configuration);
  do sectionsResult <- call (generateSectionsObject plannerModel
    (systemInstructionsSections +:+ nl +:+
     "Generate the sections of the report. Your response must include a 'sections' field containing a list of sections. Each section must have: name, description, research, and content fields."));
  do sections <- alloc_all sectionsResult;
  ret (RPartial (mkState None None (Some sections) None None None None None None None)).

(** [humanFeedback] (lines 288-331); the plan is always approved. *)
Definition humanFeedback `{Capabilities} (state : State) : M NodeResult :=
  do _ <- defined "sections.map" (sections state);
  ret (RCommand (mkCommand "route-tasks" (Some {|
    topic := topic state;
    sections := sections state;
    feedback_on_report_plan := Some [];
    completed_sections := Some (default [] (completed_sections state));
    report_sections_from_research := report_sections_from_research state;
    final_report := None;
    section := None;
    search_iterations := None;
    search_queries := None;
    source_str := None |}))).

(** The description the queries are written for: the section's own, or one
    made from its name (or from the topic) when it is missing or empty. *)
Definition query_description `{Capabilities} (state : State) : M string :=
  match section state with
  | None => ret (js_string (topic state) +:+ "に関する情報")
  | Some l =>
      do section <- deref l;
      if bool_decide (description section = "") then
        if bool_decide (name section = "")
        then ret (js_string (topic state) +:+ "に関する情報")
        else ret (name section +:+ "に関する情報")
      else ret (description section)
  end.

(** [generateQueries] (lines 340-392). *)
Definition generateQueries `{Capabilities} (state : State) : M NodeResult :=
  do sectionDescription <- query_description state;
  let numberOfQueries := number_of_queries configuration in
  do writerModel <- initModel (writer_provider configuration) (writer_model configuration);
  let systemInstructions :=
    fill query_writer_instructions
      [("{topic}", js_string (topic state));
       ("{section_topic}", sectionDescription);
       ("{number_of_queries}", toString numberOfQueries)] in
  do queries <- call (generateQueriesObject writerModel
    (systemInstructions +:+ nl +:+ "Generate search queries on the provided topic."));
  ret (RPartial (mkState None None None None None None None None (Some queries) None)).

(** The sources of a section after the new ones have been pushed. *)
Definition add_sources (existing new : list SourceReference) : list SourceReference :=
  (fold_left push_unseen new (existing, list_to_set (url <$> existing))).1.

(** [searchWeb] (lines 403-439). *)
Definition searchWeb `{Capabilities} (state : State) : M NodeResult :=
  do searchQueries <- defined "searchQueries.map" (search_queries state);
  let searchApi := search_api configuration in
  let paramsToPass := getSearchParams searchApi (search_api_config configuration) in
  let queryList := search_query <$> searchQueries in
  do searchResult <- call (selectAndExecuteSearch searchApi queryList paramsToPass);
  do _ <-
    match section state, found_sources searchResult with
    | Some l, _ :: _ =>
        do section <- deref l;
        assign l (set_sources
          (Some (add_sources (default [] (sources section)) (found_sources searchResult)))
          section)
    | _, _ => ret tt
    end;
  ret (RPartial (mkState None None None None None None None
    ((fun n => n + 1) <$> search_iterations state)
    None
    (Some (formattedOutput searchResult)))).

(** The numbered list of the section's known sources handed to the writer. *)
Definition validSourcesText (section : ReportSection) : string :=
  match default [] (sources section) with
  | [] => ""
  | srcs =>
      nl +:+ nl +:+ "<Valid Sources>" +:+ nl +:+
      fold_left (fun text line => text +:+ line)
        (imap (fun index source =>
                 pretty (index + 1)%nat +:+ ". " +:+ title source +:+ ": " +:+
                 url source +:+ nl) srcs) "" +:+
      "</Valid Sources>" +:+ nl +:+ nl
  end.

Definition writer_prompt `{Capabilities} (state : State) (section : ReportSection) : string :=
  section_writer_instructions +:+ nl +:+
  fill section_writer_inputs
    [("{topic}", js_string (topic state));
     ("{section_name}", name section);
     ("{section_topic}", description section);
     ("{section_content}", default "" (js_or (content section) (Some "")));
     ("{context}", js_string (source_str state))] +:+
  validSourcesText section.

Definition grader_prompt `{Capabilities} (state : State) (section : ReportSection) : string :=
  fill section_grader_instructions
    [("{topic}", js_string (topic state));
     ("{section_topic}", description section);
     ("{section}", js_string (content section));
     ("{number_of_follow_up_queries}", toString (number_of_queries configuration))] +:+
  nl +:+
  "Grade the report and consider follow-up questions for missing information. If the grade is 'pass', return empty strings for all follow-up queries. If the grade is 'fail', provide specific search queries to gather missing information.".

(** [state.search_iterations >= configuration.max_search_depth]; a missing
    count compares as [false]. *)
Definition depth_reached `{Capabilities} (state : State) : bool :=
  match search_iterations state with
  | Some n => bool_decide (at_least n (max_search_depth configuration))
  | None => false
  end.

(** [{ update: { completed_sections: [section] }, goto: "END" }] *)
Definition section_done (l : loc) : Command :=
  mkCommand "END"
    (Some (mkState None None None (Some [l]) None None None None None None)).

(** [{ update: { search_queries: follow_up_queries, section }, goto: "search-web" }] *)
Definition search_again (queries : list SearchQuery) (l : loc) : Command :=
  mkCommand "search-web"
    (Some (mkState None None None None None None (Some l) None (Some queries) None)).

(** [writeSection] (lines 450-547).  The section is written, then graded;
    the links found in the written text are only compared with the known
    sources to print a warning. *)
Definition writeSection `{Capabilities} (state : State) : M NodeResult :=
  do l <- defined "section.name" (section state);
  do section <- deref l;
  let prompt := writer_prompt state section in
  do writerModel <- initModel (writer_provider configuration) (writer_model configuration);
  do text <- call (generateText writerModel prompt);
  do _ <- assign l (set_content (Some text) section);
  do section <- deref l;
  do plannerModel <- initModel (planner_provider configuration) (planner_model configuration);
  do feedback <- call (generateFeedbackObject plannerModel (grader_prompt state section));
  if bool_decide (grade feedback = pass) || depth_reached state
  then ret (RCommand (section_done l))
  else ret (RCommand (search_again (follow_up_queries feedback) l)).

(** [writeFinalSections] (lines 556-582). *)
Definition writeFinalSections `{Capabilities} (state : State) : M NodeResult :=
  do l <- defined "section.name" (section state);
  do section <- deref l;
  let systemInstructions :=
    fill final_section_writer_instructions
      [("{topic}", js_string (topic state));
       ("{section_name}", name section);
       ("{section_topic}", description section);
       ("{context}", js_string (report_sections_from_research state))] in
  do writerModel <- initModel (writer_provider configuration) (writer_model configuration);
  do text <- call (generateText writerModel
    (systemInstructions +:+ nl +:+ "Generate a report section based on the provided sources."));
  do _ <- assign l (set_content (Some text) section);
  ret (RPartial (mkState None None None (Some [l]) None None None None None None)).

(** [formatSections] (tools/utils.ts, lines 130-148). *)
Definition rule60 : string :=
  "============================================================".

Definition formatSection (idx : nat) (section : ReportSection) : string :=
  nl +:+ rule60 +:+ nl +:+
  "Section " +:+ pretty (idx + 1)%nat +:+ ": " +:+ name section +:+ nl +:+
  rule60 +:+ nl +:+
  "Description:" +:+ nl +:+
  description section +:+ nl +:+
  "Requires Research:" +:+ nl +:+
  (if research section then "true" else "false") +:+ nl +:+ nl +:+
  "Content:" +:+ nl +:+
  default "[Not yet written]" (js_or (content section) None) +:+ nl +:+ nl.

Definition formatSections (sections : list ReportSection) : string :=
  fold_left (fun formattedStr s => formattedStr +:+ s) (imap formatSection sections) "".

(** [gatherCompletedSections] (lines 590-595). *)
Definition gatherCompletedSections `{Capabilities} (state : State) : M NodeResult :=
  do completedSections <- defined "sections.forEach" (completed_sections state);
  fun w =>
    ret (RPartial (mkState None None None None
           (Some (formatSections (heap_of w <$> completedSections)))
           None None None None None)) w.

(** *** compileFinalReport (lines 603-645) *)

(** The properties every object inherits from [Object.prototype]: a lookup
    [table[key]] under one of these names finds a value, which is truthy,
    also in a table that has no such property of its own. *)
Definition Object_prototype_members : list string :=
  ["constructor"; "__defineGetter__"; "__defineSetter__"; "hasOwnProperty";
   "__lookupGetter__"; "__lookupSetter__"; "isPrototypeOf"; "propertyIsEnumerable";
   "toString"; "valueOf"; "__proto__"; "toLocaleString"].

(** The text that [join] and a template string make of such a member:
    [__proto__] is the object [Object.prototype], the others are
    functions. *)
Definition member_text (member : string) : string :=
  if bool_decide (member = "__proto__") then "[object Object]"
  else
    "function " +:+ (if bool_decide (member = "constructor") then "Object" else member)
      +:+ "() { [native code] }".

(** [completed_sections.reduce((acc, s) => { acc[s.name] = s.content; return acc }, {})],
    the properties of its own that the table [completedSections] has: a
    later entry of the same name overwrites an earlier one, also with
    [undefined]; the assignment to [__proto__] creates no property and,
    the content being no other object, changes nothing. *)
Definition completed_contents (h : heap) (completed : list loc)
  : gmap string (option string) :=
  fold_left
    (fun acc l =>
       if bool_decide (name (h l) = "__proto__") then acc
       else <[name (h l) := content (h l)]> acc)
    completed ∅.

(** [completedSections[key]]: the property of its own under the key, which
    may be [undefined], and when there is none the member that the table
    inherits under it.  Such a member is an object or a function.  The
    compilation, now and when it is run again, and [formatSections] test
    the content of a section for truth, join it into the report and print
    it in a template string, which all see the text of the member: the
    member is kept as this text.  (Only as the replacement that
    [writeSection] hands to [replace], where a function is called, would
    the member differ from its text; no stage runs after the
    compilation.) *)
Definition completed_content (completedSections : gmap string (option string))
  (key : string) : option string :=
  match completedSections !! key with
  | Some content => content
  | None =>
      if bool_decide (key ∈ Object_prototype_members) then Some (member_text key)
      else None
  end.

(** [section.content = completedSections[section.name] || section.content] *)
Definition merged_content (completedSections : gmap string (option string))
  (section : ReportSection) : option string :=
  js_or (completed_content completedSections (name section)) (content section).

Definition merge_contents (completedSections : gmap string (option string))
  (sections : list loc) (h : heap) : heap :=
  fold_left
    (fun h l => heap_set h l (set_content (merged_content completedSections (h l)) (h l)))
    sections h.

(** The sources of all sections, each URL kept where it is met first. *)
Definition collect_sources (sections : list ReportSection) : list SourceReference :=
  (fold_left
     (fun acc section => fold_left push_unseen (default [] (sources section)) acc)
     sections ([], ∅)).1.

Definition references_heading : string :=
  nl +:+ nl +:+ "## 参考文献" +:+ nl +:+ nl.

Definition reference_line (index : nat) (source : SourceReference) : string :=
  pretty (index + 1)%nat +:+ ". [" +:+ title source +:+ "](" +:+ url source +:+ ")" +:+ nl.

Definition references (allSources : list SourceReference) : string :=
  match allSources with
  | [] => ""
  | _ =>
      fold_left (fun finalReport line => finalReport +:+ line)
        (imap reference_line allSources) references_heading
  end.

Definition compileFinalReport `{Capabilities} (state : State) : M NodeResult :=
  do completed <- defined "completed_sections.reduce" (completed_sections state);
  do sections <- defined "sections is not iterable" (sections state);
  fun w =>
    let completedSections := completed_contents (heap_of w) completed in
    let h := merge_contents completedSections sections (heap_of w) in
    let allSections := js_join (nl +:+ nl) ((fun l => default "" (content (h l))) <$> sections) in
    let allSources := collect_sources (h <$> sections) in
    let finalReport := allSections +:+ references allSources in
    (mkWorld h (next_loc w) (ext_of w),
     Ok (RPartial (mkState None None None None None (Some finalReport) None None None None))).

(** ** MastraGraph (workflows/flow.ts, lines 50-192) *)

Definition Node `{Capabilities} : Type := State -> M NodeResult.

(** A conditional edge: [{ condition, to }]. *)
Record ConditionalEdge : Type := mkConditionalEdge {
  condition : State -> Command -> bool;
  to : string }.

Record MastraGraph `{Capabilities} : Type := mkGraph {
  nodes : gmap string Node;
  entryPoint : option string;
  edges : gmap string (list string);
  conditionalEdges : gmap string (list ConditionalEdge) }.

Arguments mkGraph {_} _ _ _ _.

Definition newGraph `{Capabilities} : MastraGraph := mkGraph ∅ None ∅ ∅.

Definition addNode `{Capabilities} (name : string) (func : Node) (g : MastraGraph)
  : MastraGraph :=
  mkGraph (<[name := func]> (nodes g)) (entryPoint g) (edges g) (conditionalEdges g).

Definition setEntryPoint `{Capabilities} (name : string) (g : MastraGraph) : MastraGraph :=
  mkGraph (nodes g) (Some name) (edges g) (conditionalEdges g).

Definition addEdge `{Capabilities} (from to : string) (g : MastraGraph) : MastraGraph :=
  mkGraph (nodes g) (entryPoint g)
    (<[from := default [] (edges g !! from) ++ [to]]> (edges g))
    (conditionalEdges g).

Definition addConditionalEdge `{Capabilities} (from to : string)
  (condition : State -> Command -> bool) (g : MastraGraph) : MastraGraph :=
  mkGraph (nodes g) (entryPoint g) (edges g)
    (<[from := default [] (conditionalEdges g !! from) ++ [mkConditionalEdge condition to]]>
       (conditionalEdges g)).

(** What one turn of the [while] loop of [run] does. *)
Inductive Turn `{Capabilities} : Type :=
| Continue (w : World) (currentNodeName : string) (currentState : State)
| Return (w : World) (currentState : State)
| Raise (w : World) (e : exn).

(** The turn after the node has returned a [Command]. *)
Definition follow_command `{Capabilities} (g : MastraGraph) (w : World)
  (currentNodeName : string) (currentState : State) (command : Command) : Turn :=
  let currentState := spread currentState (default no_update (update command)) in
  let conditionalLinks := default [] (conditionalEdges g !! currentNodeName) in
  match find (fun edge => condition edge currentState command) conditionalLinks with
  | Some edge => Continue w (to edge) currentState
  | None =>
      if bool_decide (goto command = "END") then
        if bool_decide (currentNodeName = "write-section")
        then Continue w "gather-completed-sections" currentState
        else Return w currentState
      else if bool_decide (is_Some (nodes g !! goto command))
      then Continue w (goto command) currentState
      else Raise w (NextNodeNotFound (goto command) currentNodeName)
  end.

(** The turn after the node has returned a partial state. *)
Definition follow_edge `{Capabilities} (g : MastraGraph) (w : World)
  (currentNodeName : string) (currentState : State) (result : State) : Turn :=
  let currentState := spread currentState result in
  match default [] (edges g !! currentNodeName) with
  | next :: _ => Continue w next currentState
  | [] =>
      if bool_decide (currentNodeName = "compile-final-report")
         && bool_decide (is_Some (final_report currentState))
      then Return w currentState
      else Raise w (NoDirectEdge currentNodeName)
  end.

Definition turn `{Capabilities} (g : MastraGraph) (w : World)
  (currentNodeName : string) (currentState : State) : Turn :=
  match nodes g !! currentNodeName with
  | None => Raise w (NodeNotFound currentNodeName)
  | Some nodeFunc =>
      match (nodeFunc : Node) currentState w with
      | (w, Throw e) => Raise w e
      | (w, Ok (RCommand command)) => follow_command g w currentNodeName currentState command
      | (w, Ok (RPartial result)) => follow_edge g w currentNodeName currentState result
      | (w, Ok RInvalid) => Raise w (InvalidResult currentNodeName)
      end
  end.

(** [while (maxSteps-- > 0) { ... } return currentState;] *)
Fixpoint loop `{Capabilities} (maxSteps : nat) (g : MastraGraph) (w : World)
  (currentNodeName : string) (currentState : State) : World * outcome State :=
  match maxSteps with
  | O => (w, Ok currentState)
  | S maxSteps =>
      match turn g w currentNodeName currentState with
      | Continue w currentNodeName currentState =>
          loop maxSteps g w currentNodeName currentState
      | Return w currentState => (w, Ok currentState)
      | Raise w e => (w, Throw e)
      end
  end.

(** [run] (lines 110-191): twenty turns at most. *)
Definition run `{Capabilities} (g : MastraGraph) (initialState : State) : M State :=
  fun w =>
    match entryPoint g with
    | None => (w, Throw EntryPointNotSet)
    | Some entry =>
        if bool_decide (entry = "") then (w, Throw EntryPointNotSet)
        else loop 20 g w entry initialState
    end.

(** The conditions of the conditional edges:
    [(state, commandResult) => commandResult.goto === target]. *)
Definition goto_is (target : string) (state : State) (commandResult : Command) : bool :=
  bool_decide (goto commandResult = target).

(** The report workflow, as flow.ts builds it (lines 270-319). *)
Definition graph `{Capabilities} : MastraGraph :=
  let lift (f : heap -> State -> Command) : Node :=
    fun state w => (w, Ok (RCommand (f (heap_of w) state))) in
  fold_left (fun g build => build g) [
    addNode "generate-report-plan" generateReportPlan;
    addNode "human-feedback" humanFeedback;
    addNode "route-tasks" (lift routeTasks);
    addNode "generate-queries" generateQueries;
    addNode "search-web" searchWeb;
    addNode "write-section" writeSection;
    addNode "write-final-sections" writeFinalSections;
    addNode "gather-completed-sections" gatherCompletedSections;
    addNode "compile-final-report" compileFinalReport;
    setEntryPoint "generate-report-plan";
    addEdge "generate-report-plan" "human-feedback";
    addConditionalEdge "human-feedback" "generate-report-plan" (goto_is "generate-report-plan");
    addConditionalEdge "human-feedback" "route-tasks" (goto_is "route-tasks");
    addConditionalEdge "route-tasks" "generate-queries" (goto_is "generate-queries");
    addConditionalEdge "route-tasks" "write-final-sections" (goto_is "write-final-sections");
    addConditionalEdge "route-tasks" "compile-final-report" (goto_is "compile-final-report");
    addEdge "generate-queries" "search-web";
    addEdge "search-web" "write-section";
    addConditionalEdge "write-section" "search-web" (goto_is "search-web");
    addConditionalEdge "write-section" "gather-completed-sections" (goto_is "END");
    addEdge "write-final-sections" "gather-completed-sections";
    addEdge "gather-completed-sections" "route-tasks"
  ] newGraph.

(** ** The Tavily gateway (tools/utils.ts, lines 30-62 and 156-246) *)

(** A result of the provider; its [score], a fraction that the gateway
    never reads, is left out. *)
Record SearchResult : Type := mkSearchResult {
  result_title : string;
  result_url : string;
  result_content : string;
  raw_content : option string }.

Record SearchResponse : Type := mkSearchResponse {
  query : string;
  follow_up_questions : option (list string);
  answer : option string;
  images : list string;
  results : list SearchResult;
  error : option string }.

#[global] Instance SearchResult_eq_dec : EqDecision SearchResult.
Proof. solve_decision. Defined.
#[global] Instance SearchResponse_eq_dec : EqDecision SearchResponse.
Proof. solve_decision. Defined.

(** The search provider: [axios.post] to the Tavily API with the query, the
    search depth, the number of results, the raw-content flag and the topic;
    it answers with the response body or fails with a message. *)
Class Provider : Type := {
  Remote : Type;
  tavily_api :
    string -> string -> Z -> bool -> string -> Remote -> Remote * (string + SearchResponse) }.

(** What the gateway works on: the module-level [searchCache], which starts
    empty when the module is loaded and is never written to disk, the state
    of the provider, and the list of the queries sent to the provider so
    far (kept to count the requests).  The cache is looked up under the
    keys of [cacheKey] only; they hold a colon, so that none of them names
    a member of [Object.prototype], and a response is an object, which
    counts as true in [if (searchCache[cacheKey])]. *)
Record Net `{Provider} : Type := mkNet {
  searchCache : gmap string SearchResponse;
  remote : Remote;
  requests : list string }.

Arguments mkNet {_} _ _ _.

Definition initial_net `{Provider} (r : Remote) : Net := mkNet ∅ r [].

(** [TavilyClient.search(query, options)]: the request, with the defaults
    the client fills in. *)
Definition TavilyClient_search `{Provider} (query : string) (search_depth : string)
  (max_results : Z) (include_raw_content : bool) (topic : string) (n : Net)
  : Net * (string + SearchResponse) :=
  let (r, answer) :=
    tavily_api query
      (if bool_decide (search_depth = "") then "advanced" else search_depth)
      (if bool_decide (max_results = 0) then 5 else max_results)
      true
      (if bool_decide (topic = "") then "general" else topic)
      (remote n) in
  (mkNet (searchCache n) r (requests n ++ [query]), answer).

(** [`${query}:${maxResults}:${topic}:${includeRawContent}`] *)
Definition cacheKey (query : string) (maxResults : Z) (topic : string)
  (includeRawContent : bool) : string :=
  query +:+ ":" +:+ pretty maxResults +:+ ":" +:+ topic +:+ ":" +:+
  (if includeRawContent then "true" else "false").

(** The first loop: answers found in the cache, and the queries left. *)
Definition from_cache (cache : gmap string SearchResponse) (searchQueries : list string)
  (maxResults : Z) (topic : string) (includeRawContent : bool)
  : list SearchResponse * list string :=
  fold_left
    (fun acc query =>
       match cache !! cacheKey query maxResults topic includeRawContent with
       | Some cached => (acc.1 ++ [cached], acc.2)
       | None => (acc.1, acc.2 ++ [query])
       end)
    searchQueries ([], []).

(** [uncachedQueries.slice(i, i + batchSize)] for [i = 0, 2, 4, ...]. *)
Fixpoint batches (uncachedQueries : list string) : list (list string) :=
  match uncachedQueries with
  | [] => []
  | [q] => [[q]]
  | q1 :: q2 :: rest => [q1; q2] :: batches rest
  end.

(** One promise of a batch: the search, and on success the write to the
    cache. *)
Definition search_and_cache `{Provider} (maxResults : Z) (topic : string)
  (includeRawContent : bool) (query : string) (n : Net) : Net * (string + SearchResponse) :=
  match TavilyClient_search query "advanced" maxResults includeRawContent topic n with
  | (n, inr result) =>
      (mkNet (<[cacheKey query maxResults topic includeRawContent := result]> (searchCache n))
         (remote n) (requests n),
       inr result)
  | (n, inl message) => (n, inl message)
  end.

(** The promises of a batch: every request is started, in the order of the
    batch, and every promise settles, a fulfilled one with its write to
    the cache.  The promises are taken to settle in the order of the batch
    and before the [await] returns.  In the program [Promise.all] rejects
    with the failure that comes first in time, and a request still
    pending then writes to the cache when it is answered, which may be
    after the call has returned; what is proved of a batch with a failed
    request is proved of this order of events. *)
Fixpoint settle_all `{Provider} (maxResults : Z) (topic : string) (includeRawContent : bool)
  (batch : list string) (n : Net) : Net * list (string + SearchResponse) :=
  match batch with
  | [] => (n, [])
  | query :: batch =>
      let (n, settled) := search_and_cache maxResults topic includeRawContent query n in
      let (n, others) := settle_all maxResults topic includeRawContent batch n in
      (n, settled :: others)
  end.

(** [await Promise.all(searchPromises)]: all the results, or the first
    rejection (the first in the order of the batch, see [settle_all]). *)
Fixpoint promise_all (settled : list (string + SearchResponse))
  : string + list SearchResponse :=
  match settled with
  | [] => inr []
  | inl message :: _ => inl message
  | inr result :: settled =>
      match promise_all settled with
      | inr batchResults => inr (result :: batchResults)
      | inl message => inl message
      end
  end.

Definition errorResponse (message query : string) : SearchResponse :=
  mkSearchResponse query None None [] [] (Some message).

(** The body of the [for] loop over the batches, [try] and [catch]. *)
Definition run_batch `{Provider} (maxResults : Z) (topic : string) (includeRawContent : bool)
  (acc : Net * list SearchResponse) (batch : list string) : Net * list SearchResponse :=
  let (n, results) := acc in
  let (n, settled) := settle_all maxResults topic includeRawContent batch n in
  match promise_all settled with
  | inr batchResults => (n, results ++ batchResults)
  | inl message => (n, results ++ (errorResponse message <$> batch))
  end.

(** The last loop: the results in the order of the queries. *)
Definition in_query_order (searchQueries : list string) (results : list SearchResponse)
  : list SearchResponse :=
  omap (fun q => find (fun r => bool_decide (query r = q)) results) searchQueries.

Definition tavilySearchAsync `{Provider} (searchQueries : list string) (maxResults : Z)
  (topic : string) (includeRawContent : bool) (n : Net) : Net * list SearchResponse :=
  let (results, uncachedQueries) :=
    from_cache (searchCache n) searchQueries maxResults topic includeRawContent in
  let (n, results) :=
    fold_left (run_batch maxResults topic includeRawContent)
      (batches uncachedQueries) (n, results) in
  (n, in_query_order searchQueries results).

(** ** Notions used to state the properties *)

(** Names of the completed sections, as the specification speaks of them. *)
Definition completed_names (h : heap) (state : State) : list string :=
  (fun l => name (h l)) <$> default [] (completed_sections state).

(** "Deduplicated by URL, first occurrence wins, encounter order kept", as
    the specification says it: every source is kept unless a source of the
    same URL stands before it. *)
Fixpoint first_by_url (l : list SourceReference) : list SourceReference :=
  match l with
  | [] => []
  | x :: rest => x :: filter (fun y => url y <> url x) (first_by_url rest)
  end.

(** Sources without a repeated URL. *)
Definition unique_urls (l : list SourceReference) : Prop := NoDup (url <$> l).

(** What the merge loop of [compileFinalReport] does to one section. *)
Definition remerge (m : gmap string (option string)) (s : ReportSection) : ReportSection :=
  set_content (merged_content m s) s.

(** "Merge completed content into sections by name", as the code does it:
    what is found under a name is the content of the last completed
    section of that name; when no completed section has the name, or the
    name is [__proto__], it is the member that every object has under the
    name, if there is one. *)
Definition found_content (h : heap) (completed : list loc) (n : string) : option string :=
  match last (filter (fun c => name (h c) = n) completed) with
  | Some c =>
      if bool_decide (n = "__proto__") then Some (member_text n) else content (h c)
  | None =>
      if bool_decide (n ∈ Object_prototype_members) then Some (member_text n) else None
  end.

(** The content of a section of [state.sections] once the completed
    contents are merged: the content found under its name, or its own
    content when that one is missing or empty. *)
Definition content_after_merge (h : heap) (completed : list loc) (l : loc) : option string :=
  js_or (found_content h completed (name (h l))) (content (h l)).


(** The provider answers every request for the query. *)
Definition answered `{Provider} (q : string) : Prop :=
  forall depth maxResults raw topic r,
    exists response, (tavily_api q depth maxResults raw topic r).2 = inr response.

(** A sequence of search-web passes, one after the other on the same
    world, each with a state of its own and whatever it returns. *)
Definition search_passes `{Capabilities} (passes : list State) (w : World) : World :=
  fold_left (fun w state => (searchWeb state w).1) passes w.

(** The names of the nodes executed by [loop], in order. *)
Fixpoint executed `{Capabilities} (maxSteps : nat) (g : MastraGraph) (w : World)
  (currentNodeName : string) (currentState : State) : list string :=
  match maxSteps with
  | O => []
  | S maxSteps =>
      match nodes g !! currentNodeName with
      | None => []
      | Some _ =>
          currentNodeName ::
          match turn g w currentNodeName currentState with
          | Continue w currentNodeName currentState =>
              executed maxSteps g w currentNodeName currentState
          | _ => []
          end
      end
  end.

(** The world and the state after [maxSteps] turns of [loop], when none of
    them returns or throws. *)
Fixpoint after_turns `{Capabilities} (maxSteps : nat) (g : MastraGraph) (w : World)
  (currentNodeName : string) (currentState : State) : option (World * State) :=
  match maxSteps with
  | O => Some (w, currentState)
  | S maxSteps =>
      match turn g w currentNodeName currentState with
      | Continue w currentNodeName currentState =>
          after_turns maxSteps g w currentNodeName currentState
      | _ => None
      end
  end.

(** The part of a trace that belongs to one visit of the refinement loop:
    its nodes up to the first one outside the loop. *)
Definition in_refinement (node : string) : bool :=
  bool_decide (node ∈ ["generate-queries"; "search-web"; "write-section"]).

Fixpoint refinement_visit (trace : list string) : list string :=
  match trace with
  | [] => []
  | node :: trace => if in_refinement node then node :: refinement_visit trace else []
  end.

(** The number of search passes of that visit. *)
Definition search_passes_in (trace : list string) : nat :=
  length (filter (fun node => node = "search-web") (refinement_visit trace)).

(** ** Example inputs *)

(** A plan of three sections of which the first is completed. *)
Definition plan_heap : heap :=
  fun l =>
    match l with
    | O => mkSection "Introduction" "Overview" false (Some "Intro text") None
    | S O => mkSection "Body" "Main findings" true None None
    | _ => mkSection "Conclusion" "Summary" false None None
    end.

Definition plan_state : State :=
  mkState (Some "Rust") (Some []) (Some [0; 1; 2]%nat) (Some [0%nat])
    None None None None None None.

(** The state in which route-tasks leaves the graph for the section [Body],
    and the state after query generation. *)
Definition research_state : State :=
  mkState (Some "Rust") (Some []) (Some [0; 1; 2]%nat) (Some [0%nat])
    None None (Some 1%nat) (Some 0) None None.

Definition searching_state : State :=
  mkState (Some "Rust") (Some []) (Some [0; 1; 2]%nat) (Some [0%nat])
    None None (Some 1%nat) (Some 0) (Some [mkQuery "first"; mkQuery "second"]) None.

(** The state [generateReport] starts the run with. *)
Definition initial_state (topic : string) : State :=
  mkState (Some topic) (Some []) (Some []) (Some []) None None None None None None.

(** Two planned sections of the same name, one of them completed. *)
Definition twins_heap : heap :=
  fun _ => mkSection "Findings" "Main findings" true None None.

Definition twins_state : State :=
  mkState (Some "Rust") None (Some [0; 1]%nat) (Some [0%nat])
    None None None None None None.

(** Two written sections that cite one page in common. *)
Definition cited_heap : heap :=
  fun l =>
    match l with
    | O => mkSection "Introduction" "Overview" false (Some "Intro text")
             (Some [mkSource "https://a.example" "A"; mkSource "https://b.example" "B"])
    | _ => mkSection "Body" "Main findings" true (Some "Draft")
             (Some [mkSource "https://b.example" "B, again"; mkSource "https://c.example" "C"])
    end.

Definition cited_state : State :=
  mkState (Some "Rust") (Some []) (Some [0; 1]%nat) (Some [1%nat])
    None None None None None None.

(** A planned section and, under the same name, the object that was
    completed; then a planned section whose name is that of an inherited
    member, which no completed section carries. *)
Definition draft_heap : heap :=
  fun l =>
    match l with
    | O => mkSection "Body" "Main findings" true (Some "Outline") None
    | S O => mkSection "Body" "Main findings" true (Some "Draft") None
    | _ => mkSection "constructor" "How it is built" false (Some "Built text") None
    end.

Definition draft_state : State :=
  mkState (Some "Rust") (Some []) (Some [0%nat]) (Some [1%nat])
    None None None None None None.

Definition constructor_state : State :=
  mkState (Some "Rust") (Some []) (Some [2; 0]%nat) (Some [1%nat])
    None None None None None None.

(** Replacement of the first occurrence of a pattern (the [$] patterns of
    JavaScript's [replace] are not interpreted). *)
Fixpoint replace_first (text pattern replacement : string) : string :=
  if String.prefix pattern text
  then replacement +:+ String.substring (String.length pattern) (String.length text) text
  else
    match text with
    | EmptyString => EmptyString
    | String c rest => String c (replace_first rest pattern replacement)
    end.

(** Collaborators for the examples.  The outside world is the number of
    calls made so far; the writer always answers with the same text, the
    grader with the given verdict and one follow-up query, the planner with
    an introduction, one researched section and a conclusion, and every
    search with three sources of which two share a URL. *)
Definition demo_configuration (depth : number) : Configuration :=
  mkConfiguration "Introduction, body, conclusion" "tavily" None 2 depth
    "openai" "gpt-4.1" "openai" "gpt-4.1".

Definition demo_sources : list SourceReference :=
  [mkSource "https://a.example" "A";
   mkSource "https://b.example" "B";
   mkSource "https://a.example" "A, again"].

Definition demo_plan : list ReportSection :=
  [mkSection "Introduction" "Overview" false None None;
   mkSection "Body" "Main findings" true None None;
   mkSection "Conclusion" "Summary" false None None].

Definition demo (depth : number) (verdict : Grade) : Capabilities := {|
  Ext := nat;
  configuration := demo_configuration depth;
  report_planner_query_writer_instructions := "Plan queries for {topic}";
  report_planner_instructions := "Plan sections for {topic}";
  query_writer_instructions := "Write queries for {section_topic}";
  section_writer_instructions := "Write the section";
  section_writer_inputs := "{section_name}: {context}";
  final_section_writer_instructions := "Write {section_name} from {context}";
  section_grader_instructions := "Grade {section}";
  replace := replace_first;
  generateText := fun _ _ n => (S n, Ok "Written text");
  generateQueriesObject := fun _ _ n => (S n, Ok [mkQuery "first"; mkQuery "second"]);
  generateSectionsObject := fun _ _ n => (S n, Ok demo_plan);
  generateFeedbackObject := fun _ _ n => (S n, Ok (mkFeedback verdict [mkQuery "more"]));
  selectAndExecuteSearch := fun _ _ _ n => (S n, Ok (mkSearchOutput "Search results" demo_sources))
|}.

Definition demo_world (depth : number) (verdict : Grade) : @World (demo depth verdict) :=
  @mkWorld (demo depth verdict) plan_heap 3%nat 0%nat.

Definition cited_world : @World (demo 2 pass) := @mkWorld (demo 2 pass) cited_heap 2%nat 0%nat.

Definition draft_world : @World (demo 2 pass) := @mkWorld (demo 2 pass) draft_heap 3%nat 0%nat.

(** A graph of one node that always sends the run back to itself. *)
Definition spin_graph `{Capabilities} : MastraGraph :=
  setEntryPoint "spin"
    (addNode "spin" (fun state w => (w, Ok (RCommand (mkCommand "spin" None)))) newGraph).

(** A provider for the examples: it counts the requests it receives and
    answers those for [good] queries with one result. *)
Definition demo_response (q : string) : SearchResponse :=
  mkSearchResponse q None None []
    [mkSearchResult ("About " +:+ q) ("https://example.org/" +:+ q) "Summary" None] None.

Definition demo_provider (good : string -> bool) : Provider := {|
  Remote := nat;
  tavily_api := fun q _ _ _ _ received =>
    (S received,
     if good q then inr (demo_response q) else inl "Request failed with status code 500")
|}.

Definition failing_b (q : string) : bool := negb (bool_decide (q = "b")).

(** * The rest of the search gateway and the callers of the stage functions

    [tavilySearch], [isValidUrl], [selectAndExecuteSearch], [scrapePages]
    and [duckduckgoSearch] (tools/utils.ts), [generateReport] and the
    search tool of the agent (agents/graphAgent.ts), the loop of the
    researcher's tool (agents/researcherAgent.ts), and the report tool of
    the supervisor (agents/supervisorAgent.ts).

    A string of the embedding is the sequence of the characters of the
    program's string; lengths and positions ([length], [substring]) are
    counted in these characters. *)

From stdpp Require Import sorting.

Open Scope Z_scope.

(** ** JavaScript strings and objects used as tables *)

(** [a || b] on strings: the empty string is falsy. *)
Definition or_else (a b : string) : string :=
  if bool_decide (a = "") then b else a.

(** [text.includes(pattern)] *)
Fixpoint includes (text pattern : string) : bool :=
  String.prefix pattern text ||
  match text with
  | EmptyString => false
  | String _ rest => includes rest pattern
  end.

(** ['-'.repeat(80)] *)
Definition rule80 : string := foldr String.append "" (replicate 80 "-").

Fixpoint digits (key : string) (acc : N) : option N :=
  match key with
  | EmptyString => Some acc
  | String c rest =>
      let d := Ascii.N_of_ascii c in
      if ((48 <=? d) && (d <=? 57))%N then digits rest (10 * acc + (d - 48))%N else None
  end.

(** A property key that is an array index: the decimal form, without
    leading zeros, of an integer from 0 to 2^32 - 2. *)
Definition array_index (key : string) : option N :=
  match key with
  | EmptyString => None
  | _ =>
      match digits key 0 with
      | Some i => if bool_decide (pretty i = key) && (i <=? 4294967294)%N then Some i else None
      | None => None
      end
  end.

Definition index_le {V} (a b : N * (string * V)) : Prop := (a.1 <= b.1)%N.

#[global] Instance index_le_dec {V} (a b : N * (string * V)) : Decision (index_le a b).
Proof. unfold index_le. apply _. Defined.

(** [Object.entries(table)] for a table given by its own properties in the
    order of their creation: the array indices first, in ascending order,
    then the other keys in the order of creation. *)
Definition Object_entries {V} (own : list (string * V)) : list (string * V) :=
  (snd <$> merge_sort index_le (omap (fun kv => (fun i => (i, kv)) <$> array_index kv.1) own))
  ++ filter (fun kv => array_index kv.1 = None) own.

(** ** tavilySearch (tools/utils.ts, lines 484-571) *)

(** [if (url && !uniqueResults[url]) uniqueResults[url] = result] *)
Definition remember (uniqueResults : list (string * SearchResult)) (result : SearchResult)
  : list (string * SearchResult) :=
  let url := result_url result in
  if bool_decide (url = "")
     || bool_decide (url ∈ Object_prototype_members)
     || bool_decide (url ∈ uniqueResults.*1)
  then uniqueResults
  else uniqueResults ++ [(url, result)].

Definition unique_results (searchApiResponses : list SearchResponse)
  : list (string * SearchResult) :=
  fold_left (fun uniqueResults response => fold_left remember (results response) uniqueResults)
    searchApiResponses [].

(** The lines [Query '...': ...] for the responses that carry an error
    message ([if (resp.error)]); [shown] is how the query is written. *)
Definition error_lines (shown : SearchResponse -> string) (responses : list SearchResponse)
  : list string :=
  omap (fun resp =>
          match error resp with
          | Some message =>
              if bool_decide (message = "") then None
              else Some ("Query '" +:+ shown resp +:+ "': " +:+ message)
          | None => None
          end) responses.

(** What is shown of the raw content of a result: its first 30000
    characters, marked when that is not all of it. *)
Definition rawContentDisplay (raw : string) : string :=
  String.substring 0 (N.to_nat 30000) raw +:+
  (if (30000 <? N.of_nat (String.length raw))%N then "... [truncated]" else "").

(** The text added to the output for one entry of [uniqueResults]. *)
Definition source_text (includeRawContent : bool) (sourceCount : nat)
  (entry : string * SearchResult) : string :=
  let '(url, result) := entry in
  let contentSnippet := result_content result in
  let raw := if includeRawContent then default "" (raw_content result) else "" in
  nl +:+ nl +:+ "--- SOURCE " +:+ pretty sourceCount +:+ ": " +:+
  or_else (result_title result) "No Title" +:+ " ---" +:+ nl +:+
  "URL: " +:+ url +:+ nl +:+ nl +:+
  (if bool_decide (contentSnippet = "") then ""
   else "SUMMARY:" +:+ nl +:+ contentSnippet +:+ nl +:+ nl) +:+
  (if bool_decide (raw = "") then
     if bool_decide (contentSnippet = "")
     then "No content available for this source." +:+ nl else ""
   else "FULL CONTENT (up to 30000 chars):" +:+ nl +:+ rawContentDisplay raw) +:+
  nl +:+ nl +:+ rule80 +:+ nl.

Definition source_of (entry : string * SearchResult) : SourceReference :=
  mkSource entry.1 (or_else (result_title entry.2) "No Title").

Definition tavilySearch `{Provider} (queries : list string) (options : SearchApiConfig)
  (n : Net) : Net * SearchOutput :=
  let includeRawContent := default true (include_raw_content options) in
  let maxResults :=
    match max_results options with
    | Some m => if bool_decide (m = 0) then 8 else m
    | None => 8
    end in
  let topic := or_else (default "" (search_topic options)) "general" in
  let (n, searchApiResponses) :=
    tavilySearchAsync queries maxResults topic includeRawContent n in
  let uniqueResults := unique_results searchApiResponses in
  if bool_decide (uniqueResults = []) then
    match error_lines (fun resp => or_else (query resp) "Unknown") searchApiResponses with
    | [] =>
        (n, mkSearchOutput
              "No valid search results found from Tavily. Please try different search queries."
              [])
    | errors =>
        (n, mkSearchOutput
              ("Tavily search encountered errors:" +:+ nl +:+ js_join nl errors) [])
    end
  else
    let entries := Object_entries uniqueResults in
    (n, mkSearchOutput
          (fold_left (fun formattedOutput text => formattedOutput +:+ text)
             (imap (fun i => source_text includeRawContent (i + 1)) entries)
             ("Search results from Tavily: " +:+ nl +:+ nl))
          (source_of <$> entries)).

(** ** The web outside the search provider

    What the gateway asks of the network besides the Tavily API, and the
    two library functions it relies on.  The requests change the same
    outside state as those to the provider. *)

(** An entry of [RelatedTopics] in an answer of the DuckDuckGo API. *)
Record RelatedTopic : Type := mkTopic {
  Text : option string;
  FirstURL : option string }.

Class Web `{Provider} : Type := {
  (** [new URL(url).protocol]; [None] when the constructor throws. *)
  URL_protocol : string -> option string;
  (** [axios.head(url, ...)]: the request succeeds with a status below 400,
      or it fails. *)
  axios_head : string -> Remote -> Remote * bool;
  (** [axios.get(url, ...)]: the header [content-type] and the data of the
      response, or the message of the failure. *)
  axios_get : string -> Remote -> Remote * (string + (option string * string));
  (** The conversion of HTML by the five regular expressions of
      [scrapePages]; it is not interpreted. *)
  markdownify : string -> string;
  (** [axios.get] on the DuckDuckGo API, then [response.data.RelatedTopics]:
      the topics, or the message of the failure. *)
  duckduckgo_api : string -> Remote -> Remote * (string + list RelatedTopic);
  (** [Math.random()], and [Math.floor(x * bound)] for a number [x] it has
      returned: [x] is at least 0 and less than 1, so the result is below
      the bound. *)
  Random : Type;
  Math_random : Remote -> Remote * Random;
  Math_floor_times : Random -> nat -> nat;
  Math_floor_times_lt :
    forall (x : Random) (bound : nat), (0 < bound)%nat -> (Math_floor_times x bound < bound)%nat }.

(** ** isValidUrl and selectAndExecuteSearch (tools/utils.ts, lines 579-647) *)

Definition isValidUrl `{Web} (url : string) (n : Net) : Net * bool :=
  match URL_protocol url with
  | None => (n, false)
  | Some protocol =>
      if bool_decide (protocol <> "http:") && bool_decide (protocol <> "https:")
      then (n, false)
      else
        let (r, reachable) := axios_head url (remote n) in
        (mkNet (searchCache n) r (requests n), reachable)
  end.

(** The loop over [result.sources] that keeps the sources whose URL is
    valid. *)
Definition validate `{Web} (acc : Net * list SourceReference) (source : SourceReference)
  : Net * list SourceReference :=
  let (n, validatedSources) := acc in
  let (n, valid) := isValidUrl (url source) n in
  (n, if valid then validatedSources ++ [source] else validatedSources).

(** ** scrapePages and duckduckgoSearch (tools/utils.ts, lines 255-475) *)

(** The page kept for one URL. *)
Definition fetch_page `{Web} (acc : Net * list string) (url : string) : Net * list string :=
  let (n, pages) := acc in
  let (r, response) := axios_get url (remote n) in
  (mkNet (searchCache n) r (requests n),
   pages ++ [match response with
             | inr (header, data) =>
                 let contentType := default "" header in
                 if includes contentType "text/html" then markdownify data
                 else "Content type: " +:+ contentType +:+ " (not converted to markdown)"
             | inl message => "Error fetching URL: " +:+ message
             end]).

Definition scrapePages `{Web} (titles urls : list string) (n : Net) : Net * string :=
  let (n, pages) := fold_left fetch_page urls (n, []) in
  (n,
   fold_left (fun formattedOutput text => formattedOutput +:+ text)
     (imap (fun i title =>
              match urls !! i, pages !! i with
              | Some url, Some page =>
                  nl +:+ nl +:+ "--- SOURCE " +:+ pretty (i + 1)%nat +:+ ": " +:+ title +:+
                  " ---" +:+ nl +:+
                  "URL: " +:+ url +:+ nl +:+ nl +:+
                  "FULL CONTENT:" +:+ nl +:+ " " +:+ page +:+
                  nl +:+ nl +:+ rule80 +:+ nl
              | _, _ => ""
              end) titles)
     ("Search results: " +:+ nl +:+ nl)).

(** [DuckDuckGoClient.search(query, maxResults)]; the request is entered in
    the list of the requests like those to the Tavily API. *)
Definition DuckDuckGoClient_search `{Web} (query : string) (maxResults : nat) (n : Net)
  : Net * (string + list RelatedTopic) :=
  let (r, answer) := duckduckgo_api query (remote n) in
  (mkNet (searchCache n) r (requests n ++ [query]),
   match answer with
   | inr RelatedTopics => inr (take maxResults RelatedTopics)
   | inl message => inl message
   end).

Definition modifiers : list string :=
  ["about"; "info"; "guide"; "overview"; "details"; "explained"].

(** [{ title: result.Text || '', url: result.FirstURL || '', content: result.Text || '',
       raw_content: result.Text || '' }] *)
Definition topic_result (result : RelatedTopic) : SearchResult :=
  mkSearchResult (default "" (Text result)) (default "" (FirstURL result))
    (default "" (Text result)) (Some (default "" (Text result))).

(** A call of [Math.random()]. *)
Definition random `{Web} (n : Net) : Net * Random :=
  let (r, x) := Math_random (remote n) in
  (mkNet (searchCache n) r (requests n), x).

(** The request of one turn of the loop of [performSearch]: the query at
    the first turn; at a retry, after a random number is drawn for the
    delay, the query with a word added at random. *)
Definition attempt `{Web} (retryCount : nat) (query : string) (n : Net)
  : Net * (string + list RelatedTopic) :=
  match retryCount with
  | O => DuckDuckGoClient_search query 5 n
  | _ =>
      let (n, _) := random n in
      let (n, x) := random n in
      let modifiedQuery :=
        query +:+ " " +:+
        default "undefined" (modifiers !! Math_floor_times x (length modifiers)) in
      DuckDuckGoClient_search modifiedQuery 5 n
  end.

(** The [while (retryCount <= maxRetries)] loop of [performSearch], with
    [maxRetries] at 3: [attempts] is the number of turns left,
    [maxRetries + 1 - retryCount]. *)
Fixpoint performSearch_from `{Web} (attempts retryCount : nat) (query : string)
  (lastError : option string) (n : Net) : Net * SearchResponse :=
  match attempts with
  | O => (n, mkSearchResponse query None None [] [] lastError)
  | S attempts =>
      let (n, searched) := attempt retryCount query n in
      match searched with
      | inr ddgResults =>
          (n, mkSearchResponse query None None [] (topic_result <$> ddgResults) None)
      | inl message =>
          if negb (includes message "Ratelimit")
          then (n, mkSearchResponse query None None [] [] (Some message))
          else performSearch_from attempts (S retryCount) query (Some message) n
      end
  end.

Definition performSearch `{Web} (query : string) (n : Net) : Net * SearchResponse :=
  performSearch_from 4 0 query None n.

(** The body of the main loop for the query at position [i]: a random
    delay before every query but the first, then the search. *)
Definition search_each `{Web} (acc : Net * list SearchResponse) (query : nat * string)
  : Net * list SearchResponse :=
  let (n, searchDocsResponses) := acc in
  let n := match query.1 with O => n | _ => (random n).1 end in
  let (n, result) := performSearch query.2 n in
  (n, searchDocsResponses ++ [result]).

(** The results that have a URL and a title. *)
Definition scrapable (responses : list SearchResponse) : list SearchResult :=
  filter (fun res => result_url res <> "" /\ result_title res <> "")
    (concat (results <$> responses)).

Definition duckduckgoSearch `{Web} (searchQueries : list string) (n : Net) : Net * string :=
  let (n, searchDocsResponses) :=
    fold_left search_each (imap pair searchQueries) (n, []) in
  let found := scrapable searchDocsResponses in
  match found with
  | _ :: _ => scrapePages (result_title <$> found) (result_url <$> found) n
  | [] =>
      let allFailedOrEmpty :=
        forallb (fun resp =>
                   bool_decide (results resp = []) &&
                   negb (bool_decide (default "" (error resp) = "")))
          searchDocsResponses in
      if allFailedOrEmpty && negb (bool_decide (searchDocsResponses = [])) then
        match error_lines query searchDocsResponses with
        | [] =>
            (n, "No valid search results found from DuckDuckGo. Please try different search queries.")
        | errorsSummary =>
            (n, "DuckDuckGo search encountered errors:" +:+ nl +:+ js_join nl errorsSummary)
        end
      else
        (n, "No valid search results found to scrape from DuckDuckGo. Please try different search queries or check for errors.")
  end.

Module utils.

(** [selectAndExecuteSearch] as tools/utils.ts implements it (lines
    616-647); the stage functions reach it as a collaborator. *)
Definition selectAndExecuteSearch `{Web} (searchApi : string) (queryList : list string)
  (paramsToPass : SearchApiConfig) (n : Net) : Net * outcome SearchOutput :=
  if bool_decide (searchApi = "tavily") then
    let (n, result) := tavilySearch queryList paramsToPass n in
    let (n, validatedSources) := fold_left validate (found_sources result) (n, []) in
    (n, Ok (mkSearchOutput (formattedOutput result) validatedSources))
  else if bool_decide (searchApi = "duckduckgo") then
    let (n, result) := duckduckgoSearch queryList n in
    (n, Ok (mkSearchOutput result []))
  else (n, Throw (UnsupportedSearchAPI searchApi)).

End utils.

(** ** generateReport (agents/graphAgent.ts, lines 747-787) *)

(** Why no report is returned: the run ended without a final report, or it
    threw.  In both cases the program throws an [Error] whose message names
    the cause; the cause is kept in its place. *)
Inductive ReportError : Type :=
| FinalReportMissing
| RunFailed (cause : exn).

Definition generateReport `{Capabilities} (topic : string) (w : World)
  : World * (ReportError + string) :=
  match run graph (initial_state topic) w with
  | (w, Ok finalState) =>
      match final_report finalState with
      | Some report =>
          if bool_decide (report = "") then (w, inl FinalReportMissing) else (w, inr report)
      | None => (w, inl FinalReportMissing)
      end
  | (w, Throw e) => (w, inl (RunFailed e))
  end.

(** ** The search tool of the agent (agents/graphAgent.ts, lines 91-113) *)

(** [args.context], as far as the tool reads it. *)
Record SearchWebContext : Type := mkSearchWebContext {
  searchQueries : option (list SearchQuery);
  searchIterations : option Z }.

(** [searchWebTool.execute(args)]; [context] is [None] when [args] or
    [args.context] is missing.  The exception is an [Error] with the
    message given. *)
Definition searchWebTool_execute `{Capabilities} (context : option SearchWebContext)
  : M NodeResult :=
  match context with
  | Some {| searchQueries := Some queries; searchIterations := Some iterations |} =>
      if bool_decide (iterations = 0)
      then throw (ExternalError "検索クエリまたは検索回数が指定されていません")
      else
        searchWeb
          (mkState None None None None None None None (Some iterations) (Some queries) None)
  | _ => throw (ExternalError "検索クエリまたは検索回数が指定されていません")
  end.

(** ** The researcher's tool (agents/researcherAgent.ts, lines 51-124) *)

(** [{ ...currentSectionState, ...update }] for what a stage function
    returns: the keys of a directive are none of the state. *)
Definition merge_result (currentSectionState : State) (result : NodeResult) : State :=
  match result with
  | RPartial stateUpdate => spread currentSectionState stateUpdate
  | _ => currentSectionState
  end.

(** [!search_queries || search_queries.length === 0] *)
Definition no_queries (currentSectionState : State) : bool :=
  bool_decide (default [] (search_queries currentSectionState) = []).

(** [currentSectionState.search_iterations < max_search_depth] *)
Definition below_depth (currentSectionState : State) (max_search_depth : Z) : bool :=
  match search_iterations currentSectionState with
  | Some iterations => bool_decide (iterations < max_search_depth)
  | None => false
  end.

Definition with_queries (queries : list SearchQuery) (s : State) : State :=
  mkState (topic s) (feedback_on_report_plan s) (sections s) (completed_sections s)
    (report_sections_from_research s) (final_report s) (section s) (search_iterations s)
    (Some queries) (source_str s).

(** Steps 2 and 3 of a turn of the loop: the search, the writing and what
    follows from the directive; [again] is the next turn of the loop. *)
Definition search_and_write `{Capabilities} (max_search_depth : Z) (again : State -> M State)
  (currentSectionState : State) : M State :=
  do searchStateUpdate <- searchWeb currentSectionState;
  let currentSectionState := merge_result currentSectionState searchStateUpdate in
  do writeCommand <- writeSection currentSectionState;
  match writeCommand with
  | RCommand command =>
      if bool_decide (goto command = "END") then ret currentSectionState
      else if bool_decide (goto command = "search-web") then
        match update command ≫= search_queries with
        | Some queries =>
            let currentSectionState := with_queries queries currentSectionState in
            if below_depth currentSectionState max_search_depth
            then again currentSectionState
            else ret currentSectionState
        | None => ret currentSectionState
        end
      else ret currentSectionState
  | _ => ret currentSectionState
  end.

(** [while (currentSectionState.search_iterations < max_search_depth) { ... }],
    for [turns] turns at most. *)
Fixpoint research_loop `{Capabilities} (turns : nat) (max_search_depth : Z)
  (currentSectionState : State) : M State :=
  match turns with
  | O => ret currentSectionState
  | S turns =>
      if below_depth currentSectionState max_search_depth then
        if no_queries currentSectionState then
          do queryStateUpdate <- generateQueries currentSectionState;
          let currentSectionState := merge_result currentSectionState queryStateUpdate in
          if no_queries currentSectionState then ret currentSectionState
          else
            search_and_write max_search_depth (research_loop turns max_search_depth)
              currentSectionState
        else
          search_and_write max_search_depth (research_loop turns max_search_depth)
            currentSectionState
      else ret currentSectionState
  end.

(** [configuration.max_search_depth || 2]: 0 and [NaN] are falsy. *)
Definition researcher_depth `{Capabilities} : Z :=
  match max_search_depth configuration with
  | Int depth => if bool_decide (depth = 0) then 2 else depth
  | NaN => 2
  end.

(** The state the tool starts from; the section is a copy of the one
    given. *)
Definition research_start (topic : string) (section_to_research : ReportSection) (l : loc)
  : State :=
  mkState (Some topic) None None None None None (Some l) (Some 0)
    (Some ((fun s => mkQuery (title s)) <$> default [] (sources section_to_research)))
    (Some "").

(** [researchAndWriteSectionTool.execute].  Every turn of the loop that is
    followed by another one has raised [search_iterations] by one, so
    [max_search_depth] turns are enough. *)
Definition researchAndWriteSection `{Capabilities} (topic : string)
  (section_to_research : ReportSection) : M ReportSection :=
  do l <- alloc section_to_research;
  do currentSectionState <-
    research_loop (Z.to_nat researcher_depth) researcher_depth
      (research_start topic section_to_research l);
  do completed_section <- defined "section" (section currentSectionState);
  deref completed_section.

(** ** The supervisor's report tool (agents/supervisorAgent.ts, lines 196-239) *)

(** What [completedSectionsMap[key]] gives: a text that the reduction
    wrote, or a member that every object inherits. *)
Inductive Property : Type :=
  | Written (text : string)
  | Inherited (member : string).

(** [section.content || ""] *)
Definition content_or_empty (section : ReportSection) : string :=
  default "" (js_or (content section) (Some "")).

(** [acc[section.name] = section.content || ""]: the name becomes a key of
    the table, a later section of the same name overwrites an earlier one;
    assigning a string to [__proto__] changes nothing. *)
Definition write_content (acc : gmap string string) (section : ReportSection)
  : gmap string string :=
  if bool_decide (name section = "__proto__") then acc
  else <[name section := content_or_empty section]> acc.

Definition completedSectionsMap (sections : list ReportSection) : gmap string string :=
  fold_left write_content sections ∅.

Definition get_property (table : gmap string string) (key : string) : option Property :=
  match table !! key with
  | Some text => Some (Written text)
  | None =>
      if bool_decide (key ∈ Object_prototype_members) then Some (Inherited key) else None
  end.

(** [completedSectionsMap[s.name] || s.content || ""]: an inherited member
    is an object or a function, which is truthy. *)
Definition shown_content (table : gmap string string) (s : ReportSection) : Property :=
  match get_property table (name s) with
  | Some (Written text) => Written (or_else text (content_or_empty s))
  | Some (Inherited member) => Inherited member
  | None => Written (content_or_empty s)
  end.

(** The text that [join] makes of a content. *)
Definition to_text (p : Property) : string :=
  match p with
  | Written text => text
  | Inherited member => member_text member
  end.

(** [if (source.url && !usedUrls.has(source.url)) { ... }] *)
Definition push_unseen_url (acc : list SourceReference * gset string)
  (source : SourceReference) : list SourceReference * gset string :=
  if bool_decide (url source = "") then acc else push_unseen acc source.

Definition collect_url_sources (sections : list ReportSection) : list SourceReference :=
  (fold_left
     (fun acc section => fold_left push_unseen_url (default [] (sources section)) acc)
     sections ([], ∅)).1.

Definition titled_reference_line (index : nat) (source : SourceReference) : string :=
  pretty (index + 1)%nat +:+ ". [" +:+ or_else (title source) "Untitled" +:+ "]("
    +:+ url source +:+ ")" +:+ nl.

Definition titled_references (allSources : list SourceReference) : string :=
  match allSources with
  | [] => ""
  | _ =>
      fold_left (fun finalReportText line => finalReportText +:+ line)
        (imap titled_reference_line allSources) references_heading
  end.

(** [compileReportTool.execute({ sections, topic })]: the text of the
    report; the topic is only logged. *)
Definition compileReportTool_execute (sections : list ReportSection) : string :=
  let table := completedSectionsMap sections in
  let allSectionsText :=
    js_join (nl +:+ nl) ((fun s => to_text (shown_content table s)) <$> sections) in
  allSectionsText +:+ titled_references (collect_url_sources sections).

(** ** Inputs for the examples *)

(** Collaborators whose planner answers with the given plan. *)
Definition planned (plan : list ReportSection) : Capabilities := {|
  Ext := nat;
  configuration := demo_configuration 2;
  report_planner_query_writer_instructions := "Plan queries for {topic}";
  report_planner_instructions := "Plan sections for {topic}";
  query_writer_instructions := "Write queries for {section_topic}";
  section_writer_instructions := "Write the section";
  section_writer_inputs := "{section_name}: {context}";
  final_section_writer_instructions := "Write {section_name} from {context}";
  section_grader_instructions := "Grade {section}";
  replace := replace_first;
  generateText := fun _ _ n => (S n, Ok "Written text");
  generateQueriesObject := fun _ _ n => (S n, Ok [mkQuery "first"; mkQuery "second"]);
  generateSectionsObject := fun _ _ n => (S n, Ok plan);
  generateFeedbackObject := fun _ _ n => (S n, Ok (mkFeedback pass []));
  selectAndExecuteSearch := fun _ _ _ n => (S n, Ok (mkSearchOutput "Search results" demo_sources))
|}.

Definition planned_world (plan : list ReportSection) : @World (planned plan) :=
  @mkWorld (planned plan) plan_heap 3%nat 0%nat.

(** A provider that answers every query with the same two results and then
    once more with the first of them. *)
Definition echo_provider : Provider := {|
  Remote := nat;
  tavily_api := fun q _ _ _ _ received =>
    (S received,
     inr (mkSearchResponse q None None []
            [mkSearchResult "A" "https://a.example" "Summary of A" None;
             mkSearchResult "" "ftp://b.example" "" (Some "Raw text of B");
             mkSearchResult "A, again" "https://a.example" "Summary" None] None))
|}.

(** The web for the examples: a URL is read by its first letters, every
    page is reachable and is an HTML page, the DuckDuckGo API fails for the
    query [limited] with a rate limit and for every other query with a
    timeout. *)
Definition demo_web `{Provider} : Web := {|
  URL_protocol := fun url =>
    if String.prefix "https://" url then Some "https:"
    else if String.prefix "http://" url then Some "http:"
    else if String.prefix "ftp://" url then Some "ftp:"
    else None;
  axios_head := fun _ r => (r, true);
  axios_get := fun _ r => (r, inr (Some "text/html; charset=utf-8", "<p>Page</p>"));
  markdownify := fun html => html;
  duckduckgo_api := fun q r =>
    (r, inl (if String.prefix "limited" q then "202 Ratelimit" else "timeout of 30000ms exceeded"));
  Random := nat;
  Math_random := fun r => (r, 2%nat);
  Math_floor_times := fun x bound => (x mod bound)%nat;
  Math_floor_times_lt := fun x bound positive =>
    Nat.mod_upper_bound x bound (Nat.neq_sym 0 bound (Nat.lt_neq 0 bound positive))
|}.

(** ** Notions used to state the further properties *)

(** The node "route-tasks" of the graph: [routeTasks] reads the section
    objects and changes nothing. *)
Definition route `{Capabilities} : Node :=
  fun state w => (w, Ok (RCommand (routeTasks (heap_of w) state))).

(** What a section is planned as: its name, its description and whether it
    needs research. *)
Definition same_plan (s s' : ReportSection) : Prop :=
  name s' = name s /\ description s' = description s /\ research s' = research s.

(** The nodes that work on one section after the other. *)
Definition section_stages : list string :=
  ["route-tasks"; "generate-queries"; "search-web"; "write-section";
   "write-final-sections"; "gather-completed-sections"].

(** Two of the sections carry different names. *)
Definition two_names (h : heap) (secs : list loc) : Prop :=
  exists a b, a ∈ secs /\ b ∈ secs /\ name (h a) <> name (h b).

(** A plan of one section that needs no research. *)
Definition solo_plan : list ReportSection :=
  [mkSection "Summary" "All of it" false None None].

(** What holds of every entry of the table [uniqueResults]: it is kept
    under the URL of its result, which is not empty, and the result is one
    of those found. *)
Definition entry_ok (found : list SearchResult) (entry : string * SearchResult) : Prop :=
  entry.1 = result_url entry.2 /\ entry.1 <> "" /\ entry.2 ∈ found.

(** A section object after some work on it: it is planned as before, the
    sources it had are the first of its sources, and when those had no URL
    twice it has none twice. *)
Definition grown (before after : ReportSection) : Prop :=
  same_plan before after /\
  exists added,
    default [] (sources after) = default [] (sources before) ++ added /\
    (unique_urls (default [] (sources before)) -> unique_urls (default [] (sources after))).

(** What the loop keeps: every section object grows, and the state names
    the section it named. *)
Definition loop_keeps `{Capabilities} (state : State) (w : World)
  (r : World * outcome State) : Prop :=
  (forall l, grown (heap_of w l) (heap_of r.1 l)) /\
  match r.2 with
  | Ok state' => section state' = section state
  | Throw _ => True
  end.

(** * Properties *)

(** ** routeTasks *)

Lemma find_first {A} (f : A -> bool) (pre : list A) (x : A) (post : list A) :
  Forall (fun y => f y = false) pre -> f x = true ->
  find f (pre ++ x :: post) = Some x.
Proof.
  induction 1 as [|y pre Hy _ IH]; intros Hx; simpl.
  - by rewrite Hx.
  - rewrite Hy. by apply IH.
Qed.

Lemma find_split {A} (f : A -> bool) (l : list A) (x : A) :
  find f l = Some x ->
  exists pre post, l = pre ++ x :: post /\ Forall (fun y => f y = false) pre /\ f x = true.
Proof.
  induction l as [|y l IH]; simpl; [done|].
  destruct (f y) eqn:Hy.
  - intros [= ->]. by exists [], l.
  - intros (pre & post & -> & Hpre & Hx)%IH.
    exists (y :: pre), post. split; [done|]. split; [by constructor|done].
Qed.

Lemma find_none {A} (f : A -> bool) (l : list A) :
  find f l = None -> Forall (fun y => f y = false) l.
Proof.
  induction l as [|y l IH]; simpl; [constructor|].
  destruct (f y) eqn:Hy; [done|]. intros ?%IH. by constructor.
Qed.

Lemma isCompleted_names (h : heap) (state : State) (s : loc) :
  isCompleted h state s = true <-> name (h s) ∈ completed_names h state.
Proof.
  unfold isCompleted, completed_names.
  destruct (completed_sections state) as [cs|]; simpl.
  - rewrite existsb_exists, list_elem_of_fmap. split.
    + intros (c & Hc%list_elem_of_In & Heq%bool_decide_eq_true). by exists c.
    + intros (c & Heq & Hc). exists c. split; [by apply list_elem_of_In|].
      by apply bool_decide_eq_true.
  - split; [done|]. by intros ?%elem_of_nil.
Qed.

Lemma isCompleted_not_names (h : heap) (state : State) (s : loc) :
  negb (isCompleted h state s) = false <-> name (h s) ∈ completed_names h state.
Proof. rewrite negb_false_iff. apply isCompleted_names. Qed.

(** When no two sections share a name and fewer sections are completed
    than planned, some section is not completed yet. *)
Lemma uncompleted_exists (h : heap) (state : State) (secs : list loc) :
  NoDup ((fun s => name (h s)) <$> secs) ->
  (completedSectionsCount state < length secs)%nat ->
  exists s, find (fun s => negb (isCompleted h state s)) secs = Some s.
Proof.
  intros Hnodup Hlt.
  destruct (find _ secs) as [s|] eqn:Hfind; [by exists s|].
  apply find_none in Hfind. exfalso.
  assert (((fun s => name (h s)) <$> secs) ⊆+ completed_names h state) as Hsub.
  { apply NoDup_submseteq; [done|].
    intros n (s & -> & Hs)%list_elem_of_fmap.
    rewrite Forall_forall in Hfind.
    by apply isCompleted_not_names, Hfind. }
  apply submseteq_length in Hsub.
  unfold completed_names, completedSectionsCount in *.
  rewrite !length_fmap in Hsub.
  destruct (completed_sections state); simpl in *; lia.
Qed.

(** C1 (routeTasks), amended.  With [secs] the planned sections and
    [completed] the completed ones: when [secs] is empty or has as many
    entries as [completed], the directive goes to "compile-final-report";
    otherwise the first section, in the order of the plan, whose name is
    not the name of a completed section is selected, and the directive goes
    to "generate-queries" with [search_iterations] set to 0 when the
    section needs research and to "write-final-sections" when it does not;
    such a section exists when fewer sections are completed than planned
    and no two planned sections share a name; and when every planned name
    is the name of a completed section the directive goes to
    "compile-final-report" again. *)
Theorem routeTasks_first_uncompleted (h : heap) (state : State) :
  let secs := default [] (sections state) in
  let completed := default [] (completed_sections state) in
  (secs = [] \/ length completed = length secs ->
   routeTasks h state = mkCommand "compile-final-report" None) /\
  (forall pre cur post,
     secs = pre ++ cur :: post ->
     length completed <> length secs ->
     Forall (fun s => name (h s) ∈ completed_names h state) pre ->
     name (h cur) ∉ completed_names h state ->
     (research (h cur) = true ->
      routeTasks h state =
        mkCommand "generate-queries" (Some {|
          topic := topic state;
          section := Some cur;
          search_iterations := Some 0;
          sections := Some secs;
          completed_sections := Some completed;
          feedback_on_report_plan := feedback_on_report_plan state;
          report_sections_from_research := report_sections_from_research state;
          final_report := None; search_queries := None; source_str := None |})) /\
     (research (h cur) = false ->
      routeTasks h state =
        mkCommand "write-final-sections" (Some {|
          topic := topic state;
          section := Some cur;
          report_sections_from_research :=
            Some (default "" (report_sections_from_research state));
          sections := Some secs;
          completed_sections := Some completed;
          feedback_on_report_plan := feedback_on_report_plan state;
          final_report := None; search_iterations := None;
          search_queries := None; source_str := None |}))) /\
  ((length completed < length secs)%nat ->
   NoDup ((fun s => name (h s)) <$> secs) ->
   exists pre cur post,
     secs = pre ++ cur :: post /\
     Forall (fun s => name (h s) ∈ completed_names h state) pre /\
     name (h cur) ∉ completed_names h state) /\
  (Forall (fun s => name (h s) ∈ completed_names h state) secs ->
   routeTasks h state = mkCommand "compile-final-report" None).
Proof.
  intros secs completed.
  assert (completedSectionsCount state = length completed) as Hcount.
  { unfold completedSectionsCount, completed. by destruct (completed_sections state). }
  assert (forall pre cur post,
     secs = pre ++ cur :: post ->
     length completed <> length secs ->
     Forall (fun s => name (h s) ∈ completed_names h state) pre ->
     name (h cur) ∉ completed_names h state ->
     routeTasks h state = dispatch h state cur /\ sections state = Some secs) as Hsel.
  { intros pre cur post Hsplit Hne Hpre Hcur. unfold routeTasks. subst secs.
    destruct (sections state) as [secs|] eqn:Hsecs; simpl in *; [|by destruct pre].
    split; [|done].
    destruct secs as [|s0 secs0] eqn:Hl; [by destruct pre|]. rewrite <- Hl in *.
    rewrite bool_decide_eq_false_2 by (by rewrite Hcount).
    rewrite Hsplit, (find_first _ pre cur post); [done| |].
    - eapply Forall_impl; [done|]. intros s. apply isCompleted_not_names.
    - apply negb_true_iff, not_true_is_false. by rewrite isCompleted_names. }
  split; [|split; [|split]].
  - intros Hcase. unfold routeTasks. subst secs.
    destruct (sections state) as [[|s secs]|] eqn:Hsecs; try done.
    destruct Hcase as [?|Heq]; [done|].
    simpl in Heq. rewrite bool_decide_eq_true_2; [done|]. by rewrite Hcount.
  - intros pre cur post Hsplit Hne Hpre Hcur.
    destruct (Hsel pre cur post) as [Heq Hsecs]; try done.
    rewrite Heq. unfold dispatch. rewrite Hsecs.
    split; intros ->; done.
  - intros Hlt Hnodup.
    destruct (uncompleted_exists h state secs) as [s Hs]; [done|lia|].
    apply find_split in Hs as (pre & post & -> & Hpre & Hs).
    exists pre, s, post. split; [done|]. split.
    + eapply Forall_impl; [done|]. intros x. apply isCompleted_not_names.
    + apply negb_true_iff in Hs. rewrite <- isCompleted_names, Hs. discriminate.
  - intros Hall. unfold routeTasks. subst secs.
    destruct (sections state) as [[|s secs]|] eqn:Hsecs; try done. simpl in Hall.
    case_bool_decide; [done|].
    destruct (find _ (s :: secs)) as [x|] eqn:Hfind; [|done].
    apply find_split in Hfind as (pre & post & Heq & _ & Hx).
    rewrite Forall_forall in Hall.
    assert (name (h x) ∈ completed_names h state) as Hin.
    { apply Hall. rewrite Heq. clear. set_solver. }
    apply isCompleted_names in Hin. rewrite Hin in Hx. discriminate Hx.
Qed.

(** The theorem at the plan of three sections: the researched section [Body]
    is selected. *)
Lemma routeTasks_first_uncompleted_witness :
  routeTasks plan_heap plan_state =
    mkCommand "generate-queries" (Some {|
      topic := Some "Rust";
      section := Some 1%nat;
      search_iterations := Some 0;
      sections := Some [0; 1; 2]%nat;
      completed_sections := Some [0%nat];
      feedback_on_report_plan := Some [];
      report_sections_from_research := None;
      final_report := None; search_queries := None; source_str := None |}).
Proof.
  destruct (routeTasks_first_uncompleted plan_heap plan_state) as (_ & Hsel & _).
  apply (Hsel [0%nat] 1%nat [2%nat]); simpl; try done.
  - repeat constructor.
  - unfold completed_names. simpl. by intros ?%list_elem_of_singleton.
Defined.

(** Two planned sections of the same name, one of them completed: fewer
    sections are completed than planned, no planned name is missing among
    the completed ones, and the directive is compilation. *)
Lemma routeTasks_repeated_name_counterexample :
  sections twins_state = Some [0; 1]%nat /\
  (length (default [] (completed_sections twins_state)) < length [0; 1]%nat)%nat /\
  goto (routeTasks twins_heap twins_state) = "compile-final-report" /\
  ~ (exists cur, cur ∈ [0; 1]%nat /\
       name (twins_heap cur) ∉ completed_names twins_heap twins_state).
Proof.
  repeat split; try done.
  - simpl. lia.
  - intros (cur & _ & Hcur). apply Hcur. unfold completed_names. simpl.
    by apply list_elem_of_singleton.
Qed.

(** ** Sources without repeated URLs *)

Lemma filter_first_by_url (P : SourceReference -> Prop) `{!forall y, Decision (P y)}
  (l : list SourceReference) :
  (forall y z, url y = url z -> P y -> P z) ->
  filter P (first_by_url l) = first_by_url (filter P l).
Proof.
  intros Hurl. induction l as [|x l IH]; [done|]. simpl.
  destruct (decide (P x)) as [HP|HP].
  - rewrite !filter_cons_True by done. simpl. f_equal.
    rewrite <- IH, !list_filter_filter. apply list_filter_iff. tauto.
  - rewrite !filter_cons_False by done. rewrite <- IH, list_filter_filter.
    apply list_filter_iff. intros y. split; [tauto|]. intros Hy. split; [done|].
    intros Heq. apply HP. by apply (Hurl y).
Qed.

Lemma first_by_url_urls (l : list SourceReference) (u : string) :
  u ∈ url <$> first_by_url l <-> u ∈ url <$> l.
Proof.
  induction l as [|x l IH]; [done|]. simpl. rewrite !elem_of_cons, <- IH.
  rewrite !list_elem_of_fmap. split.
  - intros [->|(y & -> & Hy%list_elem_of_filter)]; [by left|].
    right. exists y. tauto.
  - intros [->|(y & -> & Hy)]; [by left|].
    destruct (decide (url y = url x)) as [->|Hne]; [by left|].
    right. exists y. split; [done|]. by apply list_elem_of_filter.
Qed.

Lemma unique_urls_filter (P : SourceReference -> Prop) `{!forall y, Decision (P y)}
  (l : list SourceReference) :
  unique_urls l -> unique_urls (filter P l).
Proof.
  unfold unique_urls. intros Hl. eapply sublist_NoDup; [done|].
  apply fmap_sublist, sublist_filter.
Qed.

Lemma first_by_url_unique (l : list SourceReference) : unique_urls (first_by_url l).
Proof.
  induction l as [|x l IH]; simpl; [constructor|].
  apply NoDup_cons. split.
  - intros (y & Heq & Hy%list_elem_of_filter)%list_elem_of_fmap. by destruct Hy.
  - by apply unique_urls_filter.
Qed.

Lemma first_by_url_sublist (l : list SourceReference) : first_by_url l `sublist_of` l.
Proof.
  induction l as [|x l IH]; simpl; [done|].
  apply sublist_skip. etrans; [apply sublist_filter|done].
Qed.

(** An entry kept by [first_by_url] is the first of its URL in the list. *)
Lemma first_by_url_first (l : list SourceReference) (x : SourceReference) :
  x ∈ first_by_url l ->
  exists pre post, l = pre ++ x :: post /\ url x ∉ url <$> pre.
Proof.
  induction l as [|y l IH]; simpl; [by intros ?%elem_of_nil|].
  intros [->|Hx%list_elem_of_filter]%elem_of_cons.
  - exists [], l. split; [done|]. by intros ?%elem_of_nil.
  - destruct Hx as [Hne (pre & post & -> & Hpre)%IH].
    exists (y :: pre), post. split; [done|].
    rewrite fmap_cons, not_elem_of_cons. done.
Qed.

Lemma filter_all {A} (P : A -> Prop) `{!forall y, Decision (P y)} (l : list A) :
  Forall P l -> filter P l = l.
Proof.
  induction 1 as [|y l Hy _ IH]; [done|].
  rewrite filter_cons_True by done. by rewrite IH.
Qed.

Lemma first_by_url_id (l : list SourceReference) :
  unique_urls l -> first_by_url l = l.
Proof.
  unfold unique_urls. induction l as [|x l IH]; simpl; [done|].
  intros [Hx Hl]%NoDup_cons. rewrite IH by done. f_equal.
  apply filter_all. apply Forall_forall. intros y Hy Heq. apply Hx.
  rewrite <- Heq. by apply list_elem_of_fmap_2.
Qed.

(** The loop of [push_unseen] over [new], from any accumulator. *)
Lemma fold_push_unseen (new list : list SourceReference) (urls : gset string) :
  fold_left push_unseen new (list, urls) =
    (list ++ first_by_url (filter (fun y => url y ∉ urls) new),
     list_to_set (url <$> new) ∪ urls).
Proof.
  revert list urls. induction new as [|x new IH]; intros list urls; simpl.
  - rewrite app_nil_r. f_equal. set_solver.
  - destruct (decide (url x ∈ urls)) as [Hin|Hnin].
    + rewrite IH. rewrite filter_cons_False by (intros ?; done).
      f_equal. set_solver.
    + rewrite IH. rewrite filter_cons_True by done. simpl.
      rewrite <- app_assoc. simpl. f_equal; [|set_solver].
      do 2 f_equal. symmetry.
      etrans; [apply filter_first_by_url; by intros y z ->|].
      f_equal. rewrite list_filter_filter. apply list_filter_iff. set_solver.
Qed.

Lemma add_sources_first (existing new : list SourceReference) :
  add_sources existing new =
    existing ++ first_by_url (filter (fun y => url y ∉ url <$> existing) new).
Proof.
  unfold add_sources. rewrite fold_push_unseen. simpl. do 2 f_equal.
  apply list_filter_iff. intros y. by rewrite elem_of_list_to_set.
Qed.

Lemma add_sources_unique (existing new : list SourceReference) :
  unique_urls existing -> unique_urls (add_sources existing new).
Proof.
  intros Hex. rewrite add_sources_first. unfold unique_urls.
  rewrite fmap_app. apply NoDup_app. split; [done|]. split.
  - intros u Hu (y & -> & Hy%list_elem_of_filter)%first_by_url_urls%list_elem_of_fmap.
    by destruct Hy.
  - apply first_by_url_unique.
Qed.

Lemma searchWeb_heap `{Capabilities} (state : State) (w : World) (l : loc) :
  heap_of (searchWeb state w).1 l = heap_of w l \/
  exists new,
    section state = Some l /\
    heap_of (searchWeb state w).1 l =
      set_sources (Some (add_sources (default [] (sources (heap_of w l))) new)) (heap_of w l).
Proof.
  unfold searchWeb, bind, defined, call, ret, throw, deref, assign.
  destruct (search_queries state) as [qs|]; simpl; [|by left].
  destruct (selectAndExecuteSearch _ _ _ _) as [e [out|err]]; simpl; [|by left].
  destruct (section state) as [l'|]; simpl; [|by left].
  destruct (found_sources out) as [|s new] eqn:Hout; simpl; [by left|].
  unfold heap_set. destruct (decide (l = l')) as [->|]; [|by left].
  right. exists (s :: new). split; [done|]. done.
Qed.

Lemma first_by_url_sublist_elem (l : list SourceReference) (s : SourceReference) :
  s ∈ first_by_url l -> s ∈ l.
Proof. intros Hs. eapply elem_of_sublist; [done|apply first_by_url_sublist]. Qed.

(** One pass only appends, to the sources of any section, sources whose
    URL the section did not have. *)
Lemma searchWeb_appends_unseen `{Capabilities} (state : State) (w : World) (l : loc) :
  exists added,
    default [] (sources (heap_of (searchWeb state w).1 l)) =
      default [] (sources (heap_of w l)) ++ added /\
    forall s, s ∈ added -> url s ∉ url <$> default [] (sources (heap_of w l)).
Proof.
  destruct (searchWeb_heap state w l) as [->|(new & _ & ->)].
  - exists []. split; [by rewrite app_nil_r|]. by intros s ?%elem_of_nil.
  - simpl. rewrite add_sources_first. eexists. split; [done|].
    intros s Hs%first_by_url_sublist_elem. by apply list_elem_of_filter in Hs as [? _].
Qed.

(** C10 (searchWeb).  Whatever the searches return, a section whose sources
    have pairwise different URLs keeps this property through every
    sequence of search-web passes; a section without sources has it. *)
Theorem searchWeb_sources_stay_unique `{Capabilities} (passes : list State) (w : World)
  (l : loc) :
  unique_urls (default [] (sources (heap_of w l))) ->
  unique_urls (default [] (sources (heap_of (search_passes passes w) l))).
Proof.
  unfold search_passes. revert w. induction passes as [|state passes IH]; intros w Hw; [done|].
  simpl. apply IH.
  destruct (searchWeb_heap state w l) as [->|(new & _ & ->)]; [done|].
  simpl. by apply add_sources_unique.
Qed.

(** ** compileFinalReport *)

Lemma append_assoc (a b c : string) : (a +:+ b) +:+ c = a +:+ (b +:+ c).
Proof.
  induction a as [|x a IH]; [done|].
  change (String x ((a +:+ b) +:+ c) = String x (a +:+ (b +:+ c))). by rewrite IH.
Qed.

Lemma append_empty_r (a : string) : a +:+ "" = a.
Proof.
  induction a as [|x a IH]; [done|].
  change (String x (a +:+ "") = String x a). by rewrite IH.
Qed.

Lemma fold_left_append (l : list string) (acc : string) :
  fold_left (fun a x => a +:+ x) l acc = acc +:+ foldr String.append "" l.
Proof.
  revert acc. induction l as [|x l IH]; intros acc; simpl.
  - by rewrite append_empty_r.
  - by rewrite IH, append_assoc.
Qed.

Lemma js_or_idem (a c : option string) : js_or a (js_or a c) = js_or a c.
Proof. unfold js_or. destruct a as [s|]; [|done]. by case_bool_decide. Qed.

Lemma js_or_same (a : option string) : js_or a a = a.
Proof. unfold js_or. destruct a as [s|]; [|done]. by case_bool_decide. Qed.

Lemma remerge_idem m s : remerge m (remerge m s) = remerge m s.
Proof.
  unfold remerge, merged_content, set_content. simpl. by rewrite js_or_idem.
Qed.

Lemma merge_contents_at (m : gmap string (option string)) (secs : list loc) (h : heap)
  (l : loc) :
  merge_contents m secs h l = if decide (l ∈ secs) then remerge m (h l) else h l.
Proof.
  unfold merge_contents. revert h. induction secs as [|s secs IH]; intros h; simpl.
  - done.
  - rewrite IH. unfold heap_set. fold (remerge m (h s)).
    destruct (decide (l = s)) as [->|Hne].
    + rewrite (decide_True (P := s ∈ s :: secs)) by left.
      case_decide; [apply remerge_idem|done].
    + destruct (decide (l ∈ secs)) as [Hin|Hnin].
      * by rewrite decide_True by (by right).
      * rewrite decide_False; [done|]. by intros [?|?]%elem_of_cons.
Qed.

Lemma merge_contents_name m secs h l : name (merge_contents m secs h l) = name (h l).
Proof. rewrite merge_contents_at. by case_decide. Qed.

Lemma merge_contents_sources m secs h l : sources (merge_contents m secs h l) = sources (h l).
Proof. rewrite merge_contents_at. by case_decide. Qed.

(** The entry of the table of completed contents under a name is the
    content of the last completed section of that name; under [__proto__]
    there is none. *)
Lemma completed_contents_lookup (h : heap) (completed : list loc) (n : string) :
  completed_contents h completed !! n =
    if bool_decide (n = "__proto__") then None
    else (fun l => content (h l)) <$> last (filter (fun l => name (h l) = n) completed).
Proof.
  unfold completed_contents.
  induction completed as [|c completed IH] using rev_ind.
  { simpl. by case_bool_decide. }
  rewrite fold_left_app, filter_app. simpl.
  destruct (decide (name (h c) = n)) as [<-|Hne].
  - rewrite filter_cons_True, filter_nil by done. rewrite last_snoc.
    case_bool_decide as Hname.
    + rewrite IH. by rewrite ?bool_decide_true.
    + by rewrite lookup_insert_eq.
  - rewrite filter_cons_False, filter_nil, app_nil_r by done.
    rewrite <- IH. clear IH. case_bool_decide as Hname; [done|].
    by rewrite lookup_insert_ne.
Qed.

Lemma proto_is_member : bool_decide ("__proto__" ∈ Object_prototype_members) = true.
Proof. apply bool_decide_eq_true_2. unfold Object_prototype_members. set_solver. Qed.

(** What a lookup in the table finds is what is found among the completed
    sections. *)
Lemma completed_content_found (h : heap) (completed : list loc) (n : string) :
  completed_content (completed_contents h completed) n = found_content h completed n.
Proof.
  unfold completed_content, found_content. rewrite completed_contents_lookup.
  case_bool_decide as Hproto.
  - subst n. rewrite proto_is_member. by destruct (last _).
  - by destruct (last _).
Qed.

(** Merging by name: a section takes what is found under its name, unless
    that is missing or empty. *)
Lemma merged_content_last (h : heap) (completed : list loc) (s : ReportSection) :
  merged_content (completed_contents h completed) s =
    js_or (found_content h completed (name s)) (content s).
Proof. unfold merged_content. by rewrite completed_content_found. Qed.

Lemma completed_contents_merged (h : heap) (completed secs : list loc) :
  completed_contents (merge_contents (completed_contents h completed) secs h) completed =
  completed_contents h completed.
Proof.
  apply map_eq. intros n. rewrite !completed_contents_lookup.
  case_bool_decide as Hproto; [done|].
  set (m := completed_contents h completed).
  rewrite (list_filter_iff _ (fun l => name (h l) = n)) by
    (intros l; by rewrite merge_contents_name).
  destruct (last _) as [c|] eqn:Hlast; [|done]. simpl. f_equal.
  rewrite merge_contents_at. case_decide; [|done]. simpl.
  unfold merged_content, completed_content.
  assert (m !! name (h c) = Some (content (h c))) as ->; [|apply js_or_same].
  unfold m. rewrite completed_contents_lookup.
  apply last_Some in Hlast as Hl. destruct Hl as [k Hk].
  assert (name (h c) = n) as ->.
  { assert (c ∈ filter (fun l => name (h l) = n) completed) as Hc
      by (rewrite Hk; set_solver).
    by apply list_elem_of_filter in Hc as [? _]. }
  rewrite bool_decide_false by done. by rewrite Hlast.
Qed.

Lemma fold_nested_push (ss : list ReportSection) (acc : list SourceReference * gset string) :
  fold_left (fun acc s => fold_left push_unseen (default [] (sources s)) acc) ss acc =
  fold_left push_unseen (concat ((fun s => default [] (sources s)) <$> ss)) acc.
Proof.
  revert acc. induction ss as [|s ss IH]; intros acc; [done|].
  simpl. by rewrite fold_left_app, IH.
Qed.

Lemma collect_sources_first (ss : list ReportSection) :
  collect_sources ss = first_by_url (concat ((fun s => default [] (sources s)) <$> ss)).
Proof.
  unfold collect_sources. rewrite fold_nested_push.
  destruct (fold_left _ _ _) as [list urls] eqn:Hfold.
  rewrite fold_push_unseen in Hfold. injection Hfold as <- _. simpl.
  f_equal. apply filter_all, Forall_forall. intros y _. apply not_elem_of_empty.
Qed.

Lemma references_lines (allSources : list SourceReference) :
  references allSources =
    match allSources with
    | [] => ""
    | _ => references_heading +:+ foldr String.append "" (imap reference_line allSources)
    end.
Proof. unfold references. destruct allSources; [done|]. apply fold_left_append. Qed.

Lemma first_by_url_nil (l : list SourceReference) : first_by_url l = [] <-> l = [].
Proof. by destruct l. Qed.

Lemma merge_contents_again (m : gmap string (option string)) (secs : list loc) (h : heap)
  (l : loc) :
  merge_contents m secs (merge_contents m secs h) l = merge_contents m secs h l.
Proof.
  rewrite !merge_contents_at. case_decide; [apply remerge_idem|done].
Qed.

(** C8 (compileFinalReport).  The report is the contents of the sections,
    in the order of [sections], joined by blank lines, where the content
    of a section is the one it has once the completed contents are merged
    by name; [allSources] holds every URL found in the sections once, at
    the place of its first occurrence over the sections in order; when
    there is a source at all the report ends with the heading and one line
    [N. [title](url)] per entry of [allSources], numbered from 1, and when
    there is none nothing follows the contents. *)
Theorem compileFinalReport_report `{Capabilities} (state : State) (w : World)
  (secs completed : list loc) :
  sections state = Some secs ->
  completed_sections state = Some completed ->
  let flat := concat ((fun l => default [] (sources (heap_of w l))) <$> secs) in
  let allSources := first_by_url flat in
  let body :=
    js_join (nl +:+ nl)
      ((fun l => default "" (content_after_merge (heap_of w) completed l)) <$> secs) in
  let entries :=
    imap (fun i s =>
            pretty (i + 1)%nat +:+ ". [" +:+ title s +:+ "](" +:+ url s +:+ ")" +:+ nl)
      allSources in
  let report :=
    if decide (flat = []) then body
    else body +:+ (nl +:+ nl +:+ "## 参考文献" +:+ nl +:+ nl +:+
                   foldr String.append "" entries) in
  (compileFinalReport state w).2 =
    Ok (RPartial (mkState None None None None None (Some report) None None None None)) /\
  unique_urls allSources /\
  (forall u, u ∈ url <$> allSources <-> u ∈ url <$> flat) /\
  allSources `sublist_of` flat /\
  (forall x, x ∈ allSources ->
     exists pre post, flat = pre ++ x :: post /\ url x ∉ url <$> pre).
Proof.
  intros Hsecs Hcompleted flat allSources body entries report.
  split; [|split; [apply first_by_url_unique|split; [apply first_by_url_urls|
    split; [apply first_by_url_sublist|apply first_by_url_first]]]].
  unfold compileFinalReport, bind, defined, ret. rewrite Hsecs, Hcompleted. simpl.
  apply (f_equal (fun text =>
           Ok (RPartial (mkState None None None None None (Some text)
                           None None None None)))).
  rewrite collect_sources_first, references_lines.
  rewrite <- list_fmap_compose.
  rewrite (list_fmap_ext _ (fun l => default [] (sources (heap_of w l))) secs) by
    (intros i l _; simpl; by rewrite merge_contents_sources).
  fold flat. fold allSources.
  assert ((fun l => default "" (content (merge_contents
                      (completed_contents (heap_of w) completed) secs (heap_of w) l)))
            <$> secs =
          (fun l => default "" (content_after_merge (heap_of w) completed l)) <$> secs)
    as ->.
  { apply list_fmap_ext. intros i l Hl. simpl.
    rewrite merge_contents_at, decide_True by (by eapply list_elem_of_lookup_2).
    simpl. by rewrite merged_content_last. }
  fold body. unfold report. case_decide as Hflat.
  - unfold allSources. rewrite Hflat. simpl. apply append_empty_r.
  - destruct allSources eqn:Hfirst; [by destruct Hflat; apply first_by_url_nil|].
    unfold references_heading, entries, reference_line. by rewrite !append_assoc.
Qed.

(** C7 (compileFinalReport), amended.  Compiling is not pure: it writes
    the merged content into the sections of [state.sections].  It changes
    nothing else: not the outside world, not a section outside
    [state.sections], and of a section it changes neither the name, the
    description, the research flag nor the sources.  Compiling again the
    state it leaves behind gives the same report and changes no section,
    and the sources it lists are already free of repeated URLs. *)
Theorem compileFinalReport_idempotent `{Capabilities} (state : State) (w : World) :
  let first := compileFinalReport state w in
  let second := compileFinalReport state first.1 in
  second.2 = first.2 /\
  (forall l, heap_of second.1 l = heap_of first.1 l) /\
  ext_of second.1 = ext_of w /\ ext_of first.1 = ext_of w /\
  next_loc second.1 = next_loc w /\ next_loc first.1 = next_loc w /\
  (forall l, l ∉ default [] (sections state) -> heap_of first.1 l = heap_of w l) /\
  (forall l,
     set_content (content (heap_of w l)) (heap_of first.1 l) = heap_of w l) /\
  (let allSources :=
     collect_sources (heap_of first.1 <$> default [] (sections state)) in
   first_by_url allSources = allSources).
Proof.
  assert (forall ss, first_by_url (collect_sources ss) = collect_sources ss) as Hagain.
  { intros ss. rewrite collect_sources_first. apply first_by_url_id, first_by_url_unique. }
  assert (forall s : ReportSection, set_content (content s) s = s) as Hsame
    by (by intros []).
  unfold compileFinalReport, bind, defined, ret, throw.
  destruct (completed_sections state) as [completed|]; [|by repeat split].
  destruct (sections state) as [secs|]; [|by repeat split].
  simpl. rewrite completed_contents_merged.
  set (m := completed_contents (heap_of w) completed).
  split; [|split; [intros l; apply merge_contents_again|
    split; [done|split; [done|split; [done|split; [done|split; [|split; [|done]]]]]]]].
  - set (h1 := merge_contents m secs (heap_of w)).
    rewrite (list_fmap_ext (fun l => default "" (content (merge_contents m secs h1 l)))
               (fun l => default "" (content (h1 l))) secs)
      by (intros i l _; simpl; unfold h1; by rewrite merge_contents_again).
    rewrite (list_fmap_ext (merge_contents m secs h1) h1 secs)
      by (intros i l _; apply merge_contents_again).
    done.
  - intros l Hl. rewrite merge_contents_at. by rewrite decide_False.
  - intros l. rewrite merge_contents_at. case_decide; [|apply Hsame].
    unfold remerge, set_content. simpl. by destruct (heap_of w l).
Qed.

(** ** writeSection *)

Lemma heap_set_same (h : heap) (l : loc) (s : ReportSection) : heap_set h l s l = s.
Proof. unfold heap_set. by rewrite decide_True. Qed.

(** C3 (writeSection).  When the writer answers with [text] and the grader
    with [feedback], the section is written and the directive is
    [{ goto: "END", update: { completed_sections: [section] } }] exactly when
    the grade is [pass] or [search_iterations] has reached
    [max_search_depth]; in the other case it is
    [{ goto: "search-web", update: { search_queries: follow_up_queries, section } }]. *)
Theorem writeSection_directive `{Capabilities} (state : State) (w : World) (l : loc)
  (iterations : Z) (text : string) (feedback : Feedback) (e1 e2 : Ext) :
  section state = Some l ->
  search_iterations state = Some iterations ->
  writer_provider configuration = "openai" ->
  planner_provider configuration = "openai" ->
  generateText (writer_model configuration) (writer_prompt state (heap_of w l)) (ext_of w)
    = (e1, Ok text) ->
  generateFeedbackObject (planner_model configuration)
    (grader_prompt state (set_content (Some text) (heap_of w l))) e1
    = (e2, Ok feedback) ->
  let finished :=
    grade feedback = pass \/ at_least iterations (max_search_depth configuration) in
  let written :=
    mkWorld (heap_set (heap_of w) l (set_content (Some text) (heap_of w l)))
      (next_loc w) e2 in
  let completed :=
    mkCommand "END"
      (Some (mkState None None None (Some [l]) None None None None None None)) in
  let again :=
    mkCommand "search-web"
      (Some (mkState None None None None None None (Some l) None
               (Some (follow_up_queries feedback)) None)) in
  (finished -> writeSection state w = (written, Ok (RCommand completed))) /\
  (~ finished -> writeSection state w = (written, Ok (RCommand again))) /\
  ((writeSection state w).2 = Ok (RCommand completed) <-> finished).
Proof.
  intros Hsection Hiter Hwriter Hplanner Htext Hfeedback finished written completed again.
  assert (writeSection state w =
          (written, Ok (RCommand (if bool_decide (grade feedback = pass) || depth_reached state
                                  then completed else again)))) as Hrun.
  { unfold writeSection, bind, defined, initModel, call, deref, assign, ret.
    rewrite Hsection, Hwriter, Hplanner. simpl. rewrite Htext. simpl.
    rewrite heap_set_same, Hfeedback. simpl.
    by destruct (bool_decide (grade feedback = pass) || depth_reached state). }
  assert (bool_decide (grade feedback = pass) || depth_reached state = true <-> finished)
    as Hfinished.
  { unfold depth_reached, finished. rewrite Hiter, orb_true_iff, !bool_decide_eq_true. done. }
  rewrite Hrun. simpl.
  destruct (bool_decide (grade feedback = pass) || depth_reached state) eqn:Hb.
  - split; [done|]. split; [intros Hn; destruct Hn; by apply Hfinished|].
    split; [intros _; by apply Hfinished|done].
  - assert (~ finished) as Hn by (intros Hf%Hfinished; done).
    split; [done|]. split; [done|]. split; [by intros [=]|done].
Qed.

(** ** MastraGraph.run *)

(** C4 (MastraGraph.run).  In any graph, when the node "write-section"
    returns [{ goto: "END", update: { completed_sections: [section] } }] the
    run continues with a state that is the old one except for
    [completed_sections], which is exactly [[section]]: what it held before
    is gone. *)
Theorem run_replaces_completed_sections `{Capabilities} (g : MastraGraph)
  (writeSectionNode : Node) (currentState : State) (w w' : World) (l : loc) :
  nodes g !! "write-section" = Some writeSectionNode ->
  writeSectionNode currentState w =
    (w', Ok (RCommand (mkCommand "END"
       (Some (mkState None None None (Some [l]) None None None None None None))))) ->
  exists next merged,
    turn g w "write-section" currentState = Continue w' next merged /\
    completed_sections merged = Some [l] /\
    merged =
      mkState (topic currentState) (feedback_on_report_plan currentState)
        (sections currentState) (Some [l])
        (report_sections_from_research currentState) (final_report currentState)
        (section currentState) (search_iterations currentState)
        (search_queries currentState) (source_str currentState).
Proof.
  intros Hnode Hreturn.
  set (command := mkCommand "END"
    (Some (mkState None None None (Some [l]) None None None None None None))) in *.
  assert (turn g w "write-section" currentState =
          follow_command g w' "write-section" currentState command) as ->.
  { unfold turn. by rewrite Hnode, Hreturn. }
  unfold follow_command. simpl.
  destruct (find _ _) as [edge|]; eexists _, _; (split; [reflexivity|done]).
Qed.

Lemma loop_after_turns `{Capabilities} (maxSteps : nat) (g : MastraGraph) (w w' : World)
  (currentNodeName : string) (currentState finalState : State) :
  after_turns maxSteps g w currentNodeName currentState = Some (w', finalState) ->
  loop maxSteps g w currentNodeName currentState = (w', Ok finalState).
Proof.
  revert w currentNodeName currentState.
  induction maxSteps as [|n IH]; intros w node st; simpl.
  - by intros [= -> ->].
  - destruct (turn g w node st) as [w1 node1 st1| |]; [apply IH|done|done].
Qed.

(** C5 (MastraGraph.run), amended.  When twenty turns pass without a return
    and without an exception, the run returns the state reached after the
    twentieth turn; it does not throw. *)
Theorem run_returns_state_at_step_bound `{Capabilities} (g : MastraGraph)
  (initialState finalState : State) (w w' : World) (entry : string) :
  entryPoint g = Some entry ->
  entry <> "" ->
  after_turns 20 g w entry initialState = Some (w', finalState) ->
  run g initialState w = (w', Ok finalState).
Proof.
  intros Hentry Hne Hturns. unfold run. rewrite Hentry.
  rewrite bool_decide_eq_false_2 by done. by apply loop_after_turns.
Qed.

(** ** The refinement loop *)

Lemma graph_nodes_queries `{Capabilities} :
  nodes graph !! "generate-queries" = Some (generateQueries : Node).
Proof. reflexivity. Qed.

Lemma graph_nodes_search `{Capabilities} : nodes graph !! "search-web" = Some (searchWeb : Node).
Proof. reflexivity. Qed.

Lemma graph_nodes_write `{Capabilities} : nodes graph !! "write-section" = Some (writeSection : Node).
Proof. reflexivity. Qed.

Lemma graph_edges_queries `{Capabilities} :
  edges graph !! "generate-queries" = Some ["search-web"].
Proof. reflexivity. Qed.

Lemma graph_edges_search `{Capabilities} :
  edges graph !! "search-web" = Some ["write-section"].
Proof. reflexivity. Qed.

Lemma graph_conditional_write `{Capabilities} :
  conditionalEdges graph !! "write-section" =
    Some [mkConditionalEdge (goto_is "search-web") "search-web";
          mkConditionalEdge (goto_is "END") "gather-completed-sections"].
Proof. reflexivity. Qed.

(** What the three stages of the loop can hand back. *)
Lemma generateQueries_result `{Capabilities} (state : State) (w : World) :
  (exists e, (generateQueries state w).2 = Throw e) \/
  (exists queries,
     (generateQueries state w).2 =
       Ok (RPartial (mkState None None None None None None None None (Some queries) None))).
Proof.
  unfold generateQueries, query_description, bind, initModel, call, deref, ret, throw.
  destruct (section state) as [l|]; simpl;
    repeat case_bool_decide; simpl; eauto;
    destruct (generateQueriesObject _ _ _) as [e [queries|err]]; simpl; eauto.
Qed.

Lemma searchWeb_result `{Capabilities} (state : State) (w : World) :
  (exists e, (searchWeb state w).2 = Throw e) \/
  (exists output,
     (searchWeb state w).2 =
       Ok (RPartial (mkState None None None None None None None
             ((fun n => n + 1) <$> search_iterations state) None (Some output)))).
Proof.
  unfold searchWeb, bind, defined, call, deref, assign, ret, throw.
  destruct (search_queries state) as [qs|]; simpl; eauto.
  destruct (selectAndExecuteSearch _ _ _ _) as [e [out|err]]; simpl; eauto.
  destruct (section state) as [l|], (found_sources out) as [|s new]; simpl; eauto.
Qed.

Lemma writeSection_result `{Capabilities} (state : State) (w : World) :
  (exists e, (writeSection state w).2 = Throw e) \/
  (exists l, (writeSection state w).2 = Ok (RCommand (section_done l))) \/
  (exists queries l,
     (writeSection state w).2 = Ok (RCommand (search_again queries l)) /\
     depth_reached state = false).
Proof.
  unfold writeSection, bind, defined, initModel, call, deref, assign, ret, throw.
  destruct (section state) as [l|]; simpl; eauto.
  case_bool_decide; simpl; eauto.
  destruct (generateText _ _ _) as [e1 [text|err]]; simpl; eauto.
  case_bool_decide; simpl; eauto.
  destruct (generateFeedbackObject _ _ _) as [e2 [feedback|err]]; simpl; eauto.
  destruct (bool_decide (grade feedback = pass)); simpl; eauto.
  destruct (depth_reached state) eqn:Hdepth; simpl; eauto 10.
Qed.

Lemma search_passes_in_outside `{Capabilities} (n : nat) (g : MastraGraph) (w : World)
  (node : string) (state : State) :
  in_refinement node = false ->
  search_passes_in (executed n g w node state) = 0%nat.
Proof.
  intros Hout. destruct n as [|n]; simpl; [done|].
  destruct (nodes g !! node); [|done].
  unfold search_passes_in. simpl. by rewrite Hout.
Qed.

Lemma executed_step `{Capabilities} (n : nat) (g : MastraGraph) (w : World)
  (node : string) (state : State) (nodeFunc : Node) :
  nodes g !! node = Some nodeFunc ->
  executed (S n) g w node state =
    node :: match turn g w node state with
            | Continue w node state => executed n g w node state
            | _ => []
            end.
Proof. intros Hnode. simpl. by rewrite Hnode. Qed.

Lemma search_passes_in_search (trace : list string) :
  search_passes_in ("search-web" :: trace) = S (search_passes_in trace).
Proof. done. Qed.

Lemma search_passes_in_write (trace : list string) :
  search_passes_in ("write-section" :: trace) = search_passes_in trace.
Proof. done. Qed.

Lemma search_passes_in_queries (trace : list string) :
  search_passes_in ("generate-queries" :: trace) = search_passes_in trace.
Proof. done. Qed.

(** When [max_search_depth] is no number the depth is never reached: only
    a grade of pass ends the passes of a visit. *)
Lemma depth_reached_NaN `{Capabilities} (state : State) :
  max_search_depth configuration = NaN -> depth_reached state = false.
Proof.
  intros Hdepth. unfold depth_reached. rewrite Hdepth.
  by destruct (search_iterations state).
Qed.

(** From search-web with [k] passes done, and from write-section. *)
Lemma passes_from_loop `{Capabilities} (n : nat) (depth : Z) :
  max_search_depth configuration = Int depth ->
  (forall w state k,
     search_iterations state = Some k ->
     (search_passes_in (executed n graph w "search-web" state)
      <= Z.to_nat (Z.max 1 (depth - k)))%nat) /\
  (forall w state k,
     search_iterations state = Some k ->
     (search_passes_in (executed n graph w "write-section" state)
      <= if depth_reached state then 0 else Z.to_nat (depth - k))%nat).
Proof.
  intros Hdepth.
  induction n as [|n [IHsearch IHwrite]];
    [split; intros; unfold search_passes_in; simpl; try destruct (depth_reached _); lia|].
  split; intros w state k Hk.
  - rewrite (executed_step _ _ _ _ _ _ graph_nodes_search), search_passes_in_search.
    unfold turn. rewrite graph_nodes_search.
    destruct (searchWeb_result state w) as [[e He]|[output Hout]];
      destruct (searchWeb state w) as [w' r]; simpl in *; subst r.
    + unfold search_passes_in. simpl. lia.
    + unfold follow_edge. rewrite graph_edges_search. simpl.
      set (state' := spread state _).
      assert (search_iterations state' = Some (k + 1)) as Hk'
        by (unfold state'; simpl; by rewrite Hk).
      specialize (IHwrite w' state' (k + 1) Hk').
      unfold depth_reached in IHwrite. rewrite Hk', Hdepth in IHwrite. simpl in IHwrite.
      case_bool_decide; lia.
  - rewrite (executed_step _ _ _ _ _ _ graph_nodes_write), search_passes_in_write.
    unfold turn. rewrite graph_nodes_write.
    destruct (writeSection_result state w)
      as [[e He]|[[l Hdone]|(queries & l & Hagain & Hreached)]];
      destruct (writeSection state w) as [w' r]; simpl in *; subst r.
    + unfold search_passes_in. simpl. lia.
    + unfold follow_command. rewrite graph_conditional_write. simpl.
      rewrite search_passes_in_outside by done. lia.
    + unfold follow_command. rewrite graph_conditional_write. simpl.
      set (state' := spread state _).
      assert (search_iterations state' = Some k) as Hk'
        by (unfold state'; simpl; by rewrite Hk).
      specialize (IHsearch w' state' k Hk').
      rewrite Hreached. unfold depth_reached in Hreached.
      rewrite Hk, Hdepth in Hreached. simpl in Hreached.
      case_bool_decide; [done|]. lia.
Qed.

(** C2 (the refinement loop), amended.  When [max_search_depth] is an
    integer: from "generate-queries" with [search_iterations] at 0, as
    route-tasks leaves it, the visit of the loop executes "search-web" at
    most [max 1 max_search_depth] times, whatever the searches, the writer
    and the grader answer and however many turns the run is given. *)
Theorem refinement_loop_search_passes `{Capabilities} (maxSteps : nat) (state : State)
  (w : World) (depth : Z) :
  max_search_depth configuration = Int depth ->
  search_iterations state = Some 0 ->
  (search_passes_in (executed maxSteps graph w "generate-queries" state)
   <= Z.to_nat (Z.max 1 depth))%nat.
Proof.
  intros Hdepth Hzero. destruct maxSteps as [|n]; [unfold search_passes_in; simpl; lia|].
  rewrite (executed_step _ _ _ _ _ _ graph_nodes_queries), search_passes_in_queries.
  unfold turn. rewrite graph_nodes_queries.
  destruct (generateQueries_result state w) as [[e He]|[queries Hqueries]];
    destruct (generateQueries state w) as [w' r]; simpl in *; subst r.
  - unfold search_passes_in. simpl. lia.
  - unfold follow_edge. rewrite graph_edges_queries. simpl.
    set (state' := spread state _).
    assert (search_iterations state' = Some 0) as Hzero'
      by (unfold state'; simpl; by rewrite Hzero).
    destruct (passes_from_loop n depth Hdepth) as [Hsearch _].
    specialize (Hsearch w' state' 0 Hzero').
    by rewrite Z.sub_0_r in Hsearch.
Qed.

(** ** The Tavily gateway *)

(** A query whose key is in the cache is answered without a request. *)
Lemma tavilySearchAsync_hit `{Provider} (q : string) (maxResults : Z) (topic : string)
  (includeRawContent : bool) (n : Net) (cached : SearchResponse) :
  searchCache n !! cacheKey q maxResults topic includeRawContent = Some cached ->
  tavilySearchAsync [q] maxResults topic includeRawContent n =
    (n, in_query_order [q] [cached]).
Proof.
  intros Hhit. unfold tavilySearchAsync, from_cache. simpl. by rewrite Hhit.
Qed.

(** A query whose key is not in the cache is sent to the provider; its
    answer is cached when the provider succeeds and not when it fails. *)
Lemma tavilySearchAsync_miss `{Provider} (q : string) (maxResults : Z) (topic : string)
  (includeRawContent : bool) (n : Net) :
  searchCache n !! cacheKey q maxResults topic includeRawContent = None ->
  match TavilyClient_search q "advanced" maxResults includeRawContent topic n with
  | (n', inr response) =>
      tavilySearchAsync [q] maxResults topic includeRawContent n =
        (mkNet (<[cacheKey q maxResults topic includeRawContent := response]> (searchCache n))
           (remote n') (requests n ++ [q]),
         in_query_order [q] [response])
  | (n', inl message) =>
      tavilySearchAsync [q] maxResults topic includeRawContent n =
        (mkNet (searchCache n) (remote n') (requests n ++ [q]),
         in_query_order [q] [errorResponse message q])
  end.
Proof.
  intros Hmiss. unfold tavilySearchAsync, from_cache. simpl. rewrite Hmiss. simpl.
  unfold run_batch, search_and_cache. simpl.
  unfold TavilyClient_search.
  destruct (tavily_api _ _ _ _ _ _) as [r [message|response]]; simpl; done.
Qed.

Lemma from_cache_split (cache : gmap string SearchResponse) (searchQueries : list string)
  (maxResults : Z) (topic : string) (includeRawContent : bool) :
  from_cache cache searchQueries maxResults topic includeRawContent =
    (omap (fun q => cache !! cacheKey q maxResults topic includeRawContent) searchQueries,
     filter (fun q => cache !! cacheKey q maxResults topic includeRawContent = None)
       searchQueries).
Proof.
  unfold from_cache.
  induction searchQueries as [|q qs IH] using rev_ind; [done|].
  rewrite fold_left_app, IH, omap_app, filter_app. simpl.
  destruct (cache !! cacheKey q maxResults topic includeRawContent) as [cached|] eqn:Hq.
  - rewrite filter_cons_False, filter_nil by (rewrite Hq; done). by rewrite app_nil_r.
  - rewrite filter_cons_True, filter_nil by done. by rewrite app_nil_r.
Qed.

Lemma settle_all_requests `{Provider} (maxResults : Z) (topic : string)
  (includeRawContent : bool) (batch : list string) (n : Net) :
  requests (settle_all maxResults topic includeRawContent batch n).1 = requests n ++ batch.
Proof.
  revert n. induction batch as [|q batch IH]; intros n; simpl; [by rewrite app_nil_r|].
  destruct (search_and_cache _ _ _ q n) as [n1 settled] eqn:H1.
  specialize (IH n1).
  destruct (settle_all _ _ _ batch n1) as [n2 others]. simpl in *. rewrite IH.
  assert (requests n1 = requests n ++ [q]) as ->; [|by rewrite <- app_assoc].
  unfold search_and_cache, TavilyClient_search in H1.
  destruct (tavily_api _ _ _ _ _ _) as [r [message|response]];
    injection H1 as <- _; done.
Qed.

Lemma run_batch_requests `{Provider} (maxResults : Z) (topic : string)
  (includeRawContent : bool) (acc : Net * list SearchResponse) (batch : list string) :
  requests (run_batch maxResults topic includeRawContent acc batch).1 =
    requests acc.1 ++ batch.
Proof.
  unfold run_batch. destruct acc as [n results].
  pose proof (settle_all_requests maxResults topic includeRawContent batch n) as Hreq.
  destruct (settle_all _ _ _ batch n) as [n1 settled].
  by destruct (promise_all settled).
Qed.

Lemma batches_concat (l : list string) : concat (batches l) = l.
Proof.
  induction l as [l IH] using (induction_ltof1 _ length); unfold ltof in *.
  destruct l as [|q1 [|q2 l]]; [done|done|].
  simpl. rewrite IH; [done|]. simpl. lia.
Qed.

(** The requests of a call are the queries that were not in the cache when
    it started, in their order. *)
Lemma tavilySearchAsync_requests `{Provider} (searchQueries : list string) (maxResults : Z)
  (topic : string) (includeRawContent : bool) (n : Net) :
  requests (tavilySearchAsync searchQueries maxResults topic includeRawContent n).1 =
    requests n ++
    filter (fun q => searchCache n !! cacheKey q maxResults topic includeRawContent = None)
      searchQueries.
Proof.
  unfold tavilySearchAsync. rewrite from_cache_split.
  set (uncached := filter _ searchQueries).
  set (cached := omap _ searchQueries).
  rewrite <- (batches_concat uncached) at 2.
  generalize (batches uncached). intros bs.
  assert (forall acc,
    requests (fold_left (run_batch maxResults topic includeRawContent) bs acc).1 =
      requests acc.1 ++ concat bs) as Hfold.
  { induction bs as [|b bs IH]; intros acc; simpl; [by rewrite app_nil_r|].
    by rewrite IH, run_batch_requests, <- app_assoc. }
  specialize (Hfold (n, cached)).
  by destruct (fold_left _ bs (n, cached)).
Qed.

(** A query whose answer is in the cache is never sent to the provider,
    whatever the other queries of the call are. *)
Lemma tavilySearchAsync_cached_not_requested `{Provider} (searchQueries : list string)
  (q : string) (maxResults : Z) (topic : string) (includeRawContent : bool) (n : Net) :
  is_Some (searchCache n !! cacheKey q maxResults topic includeRawContent) ->
  exists sent,
    requests (tavilySearchAsync searchQueries maxResults topic includeRawContent n).1 =
      requests n ++ sent /\
    q ∉ sent.
Proof.
  intros [cached Hcached]. eexists. split; [apply tavilySearchAsync_requests|].
  intros [Hq _]%list_elem_of_filter. by rewrite Hcached in Hq.
Qed.

(** The cache starts empty with the process: in a fresh run every query of
    the first call is sent to the provider. *)
Lemma tavilySearchAsync_fresh_run `{Provider} (searchQueries : list string) (maxResults : Z)
  (topic : string) (includeRawContent : bool) (r : Remote) :
  requests (tavilySearchAsync searchQueries maxResults topic includeRawContent
              (initial_net r)).1 = searchQueries.
Proof.
  rewrite tavilySearchAsync_requests. simpl.
  apply filter_all, Forall_forall. intros q _. apply lookup_empty.
Qed.














(** ** Examples, witnesses and counterexamples *)

Lemma refinement_loop_search_passes_witness :
  (search_passes_in
     (executed 20 (@graph (demo 2 fail)) (demo_world 2 fail) "generate-queries" research_state)
   <= 2)%nat.
Proof.
  apply (@refinement_loop_search_passes (demo 2 fail) 20 research_state (demo_world 2 fail) 2);
    reflexivity.
Defined.

(** Three ways to more search passes than [max_search_depth]: with
    [max_search_depth] at 0 one pass is executed; in a whole run with
    [max_search_depth] at 2 the only section that needs research is
    visited twice and searched for four times; and with a
    [max_search_depth] that is no number the passes of one visit go on to
    the end of the run. *)
Lemma refinement_loop_bound_counterexample :
  (max_search_depth (@configuration (demo 0 fail)) = Int 0 /\
   search_passes_in
     (executed 20 (@graph (demo 0 fail)) (demo_world 0 fail) "generate-queries" research_state)
   = 1%nat) /\
  (max_search_depth (@configuration (demo 2 fail)) = Int 2 /\
   filter (fun s => research s = true) demo_plan =
     [mkSection "Body" "Main findings" true None None] /\
   length
     (filter (fun node => node = "search-web")
        (executed 20 (@graph (demo 2 fail)) (demo_world 2 fail) "generate-report-plan"
           (initial_state "Rust")))
   = 4%nat) /\
  (max_search_depth (@configuration (demo NaN fail)) = NaN /\
   search_passes_in
     (executed 20 (@graph (demo NaN fail)) (demo_world NaN fail) "generate-queries"
        research_state)
   = 10%nat).
Proof.
  split; [split; [reflexivity|by vm_compute]|].
  split; [split; [reflexivity|split; by vm_compute]|].
  split; [reflexivity|by vm_compute].
Qed.

(** A whole run with a grader that always fails: the section [Body] is
    sent through the loop a second time, because the completed sections
    are replaced and not accumulated, and is searched for two more times. *)
Example run_visits_section_again :
  executed 20 (@graph (demo 2 fail)) (demo_world 2 fail) "generate-report-plan"
    (initial_state "Rust") =
    ["generate-report-plan"; "human-feedback"; "route-tasks";
     "write-final-sections"; "gather-completed-sections"; "route-tasks";
     "generate-queries"; "search-web"; "write-section"; "search-web";
     "write-section"; "gather-completed-sections"; "route-tasks";
     "write-final-sections"; "gather-completed-sections"; "route-tasks";
     "generate-queries"; "search-web"; "write-section"; "search-web"].
Proof. by vm_compute. Qed.

(** With [max_search_depth] at 2 and a grader that always fails, two
    passes are executed and the section is handed on. *)
Example refinement_loop_reaches_bound :
  executed 6 (@graph (demo 2 fail)) (demo_world 2 fail) "generate-queries" research_state =
    ["generate-queries"; "search-web"; "write-section"; "search-web"; "write-section";
     "gather-completed-sections"].
Proof. by vm_compute. Qed.

Lemma writeSection_directive_witness :
  (@writeSection (demo 2 fail) searching_state (demo_world 2 fail)).2 =
    Ok (RCommand (mkCommand "search-web"
      (Some (mkState None None None None None None (Some 1%nat) None
               (Some [mkQuery "more"]) None)))).
Proof.
  pose proof (@writeSection_directive (demo 2 fail) searching_state (demo_world 2 fail)
                1%nat 0 "Written text" (mkFeedback fail [mkQuery "more"]) 1%nat 2%nat
                eq_refl eq_refl eq_refl eq_refl eq_refl eq_refl) as (_ & Hagain & _).
  rewrite Hagain; [reflexivity|].
  intros [Hpass|Hdepth]; [discriminate Hpass|]. by vm_compute in Hdepth.
Defined.

Lemma run_replaces_completed_sections_witness :
  exists next merged,
    turn (@graph (demo 2 pass)) (demo_world 2 pass) "write-section" searching_state =
      Continue (@writeSection (demo 2 pass) searching_state (demo_world 2 pass)).1 next merged /\
    completed_sections searching_state = Some [0%nat] /\
    completed_sections merged = Some [1%nat].
Proof.
  pose proof (@run_replaces_completed_sections (demo 2 pass) (@graph (demo 2 pass))
                (@writeSection (demo 2 pass)) searching_state (demo_world 2 pass)
                (@writeSection (demo 2 pass) searching_state (demo_world 2 pass)).1 1%nat
                eq_refl eq_refl)
    as (next & merged & Hturn & Hcompleted & _).
  by exists next, merged.
Defined.

Lemma run_returns_state_at_step_bound_witness :
  exists w' finalState,
    @run (demo 2 pass) (@graph (demo 2 pass)) (initial_state "Rust") (demo_world 2 pass)
      = (w', Ok finalState) /\
    final_report finalState = None.
Proof.
  pose (r := @after_turns (demo 2 pass) 20 graph (demo_world 2 pass) "generate-report-plan"
               (initial_state "Rust")).
  destruct r as [[w' finalState]|] eqn:Hr; [|by vm_compute in Hr].
  exists w', finalState. split.
  - by apply (@run_returns_state_at_step_bound (demo 2 pass) graph (initial_state "Rust")
             finalState (demo_world 2 pass) w' "generate-report-plan").
  - vm_compute in Hr. by injection Hr as _ <-.
Defined.

(** A graph that never stops: after twenty turns the run returns the state. *)
Lemma run_step_bound_counterexample :
  @after_turns (demo 2 pass) 20 spin_graph (demo_world 2 pass) "spin" (initial_state "Rust")
    = Some (demo_world 2 pass, initial_state "Rust") /\
  @run (demo 2 pass) spin_graph (initial_state "Rust") (demo_world 2 pass)
    = (demo_world 2 pass, Ok (initial_state "Rust")).
Proof. split; reflexivity. Qed.

Lemma compileFinalReport_report_witness :
  (@compileFinalReport (demo 2 pass) cited_state cited_world).2 =
    Ok (RPartial (mkState None None None None None
      (Some ("Intro text" +:+ nl +:+ nl +:+ "Draft" +:+ nl +:+ nl +:+
             "## 参考文献" +:+ nl +:+ nl +:+
             "1. [A](https://a.example)" +:+ nl +:+
             "2. [B](https://b.example)" +:+ nl +:+
             "3. [C](https://c.example)" +:+ nl))
      None None None None)).
Proof.
  exact (proj1 (@compileFinalReport_report (demo 2 pass) cited_state cited_world
                  [0; 1]%nat [1%nat] eq_refl eq_refl)).
Defined.

(** A section whose name is that of a member that every object inherits,
    and that no completed section carries: the report shows the member in
    the place of its content. *)
Example compileFinalReport_inherited_member :
  (@compileFinalReport (demo 2 pass) constructor_state draft_world).2 =
    Ok (RPartial (mkState None None None None None
      (Some ("function Object() { [native code] }" +:+ nl +:+ nl +:+ "Draft"))
      None None None None)).
Proof. by vm_compute. Qed.

(** The first compilation changes the content of a section of its input:
    the planned section [Body] is given the content of the completed
    object of that name. *)
Lemma compileFinalReport_not_pure_counterexample :
  let first := @compileFinalReport (demo 2 pass) draft_state draft_world in
  content (heap_of draft_world 0%nat) = Some "Outline" /\
  content (heap_of first.1 0%nat) = Some "Draft" /\
  heap_of first.1 0%nat <> heap_of draft_world 0%nat.
Proof. split; [reflexivity|]. split; [by vm_compute|]. by vm_compute. Qed.

Example compileFinalReport_twice :
  let first := @compileFinalReport (demo 2 pass) cited_state cited_world in
  (@compileFinalReport (demo 2 pass) cited_state first.1).2 = first.2.
Proof. by vm_compute. Qed.



(** Two different tuples with one cache key. *)
Example cacheKey_not_injective :
  cacheKey "a:5" 5 "general" true = cacheKey "a" 5 "5:general" true.
Proof. by vm_compute. Qed.

(** A failure does not reach the queries of another batch. *)
Example tavilySearchAsync_failure_stays_in_batch :
  (@tavilySearchAsync (demo_provider failing_b) ["a"; "c"; "b"] 5 "general" true
     (@initial_net (demo_provider failing_b) 0%nat)).2 =
    [demo_response "a"; demo_response "c";
     errorResponse "Request failed with status code 500" "b"].
Proof. by vm_compute. Qed.

(** C6 (tavilySearchAsync).  Two queries in one batch, the request for the
    second fails: both queries are given the error response, also the one
    whose request succeeded. *)
Example tavilySearchAsync_failure_spreads_in_batch :
  (@tavilySearchAsync (demo_provider failing_b) ["a"; "b"] 5 "general" true
     (@initial_net (demo_provider failing_b) 0%nat)).2 =
    [errorResponse "Request failed with status code 500" "a";
     errorResponse "Request failed with status code 500" "b"].
Proof. by vm_compute. Qed.

Lemma searchWeb_sources_stay_unique_witness :
  unique_urls
    (default []
       (sources
          (heap_of
             (@search_passes (demo 2 fail) [searching_state; searching_state]
                (demo_world 2 fail)) 1%nat))).
Proof.
  apply (@searchWeb_sources_stay_unique (demo 2 fail) [searching_state; searching_state]
           (demo_world 2 fail) 1%nat).
  constructor.
Defined.

Example searchWeb_twice :
  sources
    (heap_of (@search_passes (demo 2 fail) [searching_state; searching_state]
                (demo_world 2 fail)) 1%nat) =
    Some [mkSource "https://a.example" "A"; mkSource "https://b.example" "B"].
Proof. by vm_compute. Qed.

(** The cases of the repository's test of [formatSections]
    (tools/utils.test.ts). *)
Example formatSections_empty : formatSections [] = "".
Proof. reflexivity. Qed.

Example formatSections_single_section :
  formatSections
    [mkSection "Introduction" "This is the introduction." false
       (Some "Introduction content goes here.") (Some [])] =
    nl +:+ "============================================================" +:+ nl +:+
    "Section 1: Introduction" +:+ nl +:+
    "============================================================" +:+ nl +:+
    "Description:" +:+ nl +:+
    "This is the introduction." +:+ nl +:+
    "Requires Research:" +:+ nl +:+
    "false" +:+ nl +:+ nl +:+
    "Content:" +:+ nl +:+
    "Introduction content goes here." +:+ nl +:+ nl.
Proof. by vm_compute. Qed.

Example formatSections_not_yet_written :
  formatSections [mkSection "Future Section" "This section is planned." true None (Some [])] =
    nl +:+ "============================================================" +:+ nl +:+
    "Section 1: Future Section" +:+ nl +:+
    "============================================================" +:+ nl +:+
    "Description:" +:+ nl +:+
    "This section is planned." +:+ nl +:+
    "Requires Research:" +:+ nl +:+
    "true" +:+ nl +:+ nl +:+
    "Content:" +:+ nl +:+
    "[Not yet written]" +:+ nl +:+ nl.
Proof. by vm_compute. Qed.

(** * Further properties *)

(** ** The runner on the workflow graph *)

Lemma graph_nodes `{Capabilities} :
  nodes graph =
    <["compile-final-report" := (compileFinalReport : Node)]>
    (<["gather-completed-sections" := (gatherCompletedSections : Node)]>
    (<["write-final-sections" := (writeFinalSections : Node)]>
    (<["write-section" := (writeSection : Node)]>
    (<["search-web" := (searchWeb : Node)]>
    (<["generate-queries" := (generateQueries : Node)]>
    (<["route-tasks" := route]>
    (<["human-feedback" := (humanFeedback : Node)]>
    (<["generate-report-plan" := (generateReportPlan : Node)]> ∅)))))))).
Proof. reflexivity. Qed.

Lemma graph_nodes_cases `{Capabilities} (node : string) (nodeFunc : Node) :
  nodes graph !! node = Some nodeFunc ->
  (node = "generate-report-plan" /\ nodeFunc = generateReportPlan) \/
  (node = "human-feedback" /\ nodeFunc = humanFeedback) \/
  (node = "route-tasks" /\ nodeFunc = route) \/
  (node = "generate-queries" /\ nodeFunc = generateQueries) \/
  (node = "search-web" /\ nodeFunc = searchWeb) \/
  (node = "write-section" /\ nodeFunc = writeSection) \/
  (node = "write-final-sections" /\ nodeFunc = writeFinalSections) \/
  (node = "gather-completed-sections" /\ nodeFunc = gatherCompletedSections) \/
  (node = "compile-final-report" /\ nodeFunc = compileFinalReport).
Proof.
  rewrite graph_nodes, !lookup_insert_Some, lookup_empty.
  intros Hcases. repeat destruct Hcases as [[<- <-]|[_ Hcases]]; [tauto..|done].
Qed.

Lemma graph_registered `{Capabilities} (node : string) :
  node ∈ ["generate-report-plan"; "human-feedback"; "route-tasks"; "generate-queries";
          "search-web"; "write-section"; "write-final-sections";
          "gather-completed-sections"; "compile-final-report"] ->
  is_Some (nodes graph !! node).
Proof.
  rewrite !elem_of_cons, elem_of_nil.
  intros Hnode. repeat destruct Hnode as [->|Hnode]; [by eexists..|done].
Qed.

Ltac goes_on :=
  left; eexists _, _; split; [reflexivity|apply graph_registered; set_solver].

Lemma graph_edges_plan `{Capabilities} :
  edges graph !! "generate-report-plan" = Some ["human-feedback"].
Proof. reflexivity. Qed.

Lemma graph_edges_final `{Capabilities} :
  edges graph !! "write-final-sections" = Some ["gather-completed-sections"].
Proof. reflexivity. Qed.

Lemma graph_edges_gather `{Capabilities} :
  edges graph !! "gather-completed-sections" = Some ["route-tasks"].
Proof. reflexivity. Qed.

Lemma graph_edges_compile `{Capabilities} : edges graph !! "compile-final-report" = None.
Proof. reflexivity. Qed.

Lemma graph_conditional_feedback `{Capabilities} :
  conditionalEdges graph !! "human-feedback" =
    Some [mkConditionalEdge (goto_is "generate-report-plan") "generate-report-plan";
          mkConditionalEdge (goto_is "route-tasks") "route-tasks"].
Proof. reflexivity. Qed.

Lemma graph_conditional_route `{Capabilities} :
  conditionalEdges graph !! "route-tasks" =
    Some [mkConditionalEdge (goto_is "generate-queries") "generate-queries";
          mkConditionalEdge (goto_is "write-final-sections") "write-final-sections";
          mkConditionalEdge (goto_is "compile-final-report") "compile-final-report"].
Proof. reflexivity. Qed.

(** What the other stages can hand back. *)
Lemma alloc_all_result `{Capabilities} (ss : list ReportSection) (w : World) :
  exists ls, (alloc_all ss w).2 = Ok ls.
Proof.
  revert w. induction ss as [|s ss IH]; intros w; simpl; [by eexists|].
  unfold bind, alloc, ret. simpl.
  destruct (IH (mkWorld (heap_set (heap_of w) (next_loc w) s) (S (next_loc w)) (ext_of w)))
    as [ls Hls].
  destruct (alloc_all ss _) as [w' r]. simpl in Hls. subst r. by eexists.
Qed.

Lemma generateReportPlan_result `{Capabilities} (state : State) (w : World) :
  (exists e, (generateReportPlan state w).2 = Throw e) \/
  (exists secs,
     (generateReportPlan state w).2 =
       Ok (RPartial (mkState None None (Some secs) None None None None None None None))).
Proof.
  unfold generateReportPlan, bind, initModel, call, ret, throw.
  case_bool_decide; simpl; eauto.
  destruct (generateQueriesObject _ _ _) as [e1 [queries|err]]; simpl; eauto.
  destruct (selectAndExecuteSearch _ _ _ _) as [e2 [out|err]]; simpl; eauto.
  case_bool_decide; simpl; eauto.
  destruct (generateSectionsObject _ _ _) as [e3 [plan|err]]; simpl; eauto.
  destruct (alloc_all_result plan (mkWorld (heap_of w) (next_loc w) e3)) as [ls Hls].
  destruct (alloc_all plan _) as [w' r]. simpl in Hls. subst r. simpl. eauto.
Qed.

Lemma humanFeedback_result `{Capabilities} (state : State) (w : World) :
  (exists e, (humanFeedback state w).2 = Throw e) \/
  (exists u, (humanFeedback state w) = (w, Ok (RCommand (mkCommand "route-tasks" (Some u)))) /\
     sections u = sections state /\
     completed_sections u = Some (default [] (completed_sections state)) /\
     final_report u = None).
Proof.
  unfold humanFeedback, bind, defined, ret, throw.
  destruct (sections state) as [secs|]; simpl; eauto 10.
Qed.

Lemma routeTasks_goto (h : heap) (state : State) :
  routeTasks h state = to_compile \/
  exists cur, cur ∈ default [] (sections state) /\ routeTasks h state = dispatch h state cur.
Proof.
  unfold routeTasks. destruct (sections state) as [secs|]; [|by left].
  destruct secs as [|s secs]; [by left|]. cbv beta match.
  case_bool_decide; [by left|].
  destruct (find _ (s :: secs)) as [cur|] eqn:Hfind; [|by left].
  right. exists cur. split; [|done].
  apply find_split in Hfind as (pre & post & -> & _). simpl. set_solver.
Qed.

Lemma writeFinalSections_result `{Capabilities} (state : State) (w : World) :
  (exists e, (writeFinalSections state w).2 = Throw e) \/
  (exists l,
     (writeFinalSections state w).2 =
       Ok (RPartial (mkState None None None (Some [l]) None None None None None None))).
Proof.
  unfold writeFinalSections, bind, defined, initModel, call, deref, assign, ret, throw.
  destruct (section state) as [l|]; simpl; eauto.
  case_bool_decide; simpl; eauto.
  destruct (generateText _ _ _) as [e1 [text|err]]; simpl; eauto.
Qed.

Lemma gatherCompletedSections_result `{Capabilities} (state : State) (w : World) :
  (exists e, (gatherCompletedSections state w).2 = Throw e) \/
  (exists text,
     gatherCompletedSections state w =
       (w, Ok (RPartial (mkState None None None None (Some text) None None None None None)))).
Proof.
  unfold gatherCompletedSections, bind, defined, ret, throw.
  destruct (completed_sections state) as [cs|]; simpl; eauto.
Qed.

Lemma compileFinalReport_result `{Capabilities} (state : State) (w : World) :
  (exists e, (compileFinalReport state w).2 = Throw e) \/
  (exists report,
     (compileFinalReport state w).2 =
       Ok (RPartial (mkState None None None None None (Some report) None None None None))).
Proof.
  unfold compileFinalReport, bind, defined, ret, throw.
  destruct (completed_sections state) as [cs|]; simpl; eauto.
  destruct (sections state) as [secs|]; simpl; eauto.
Qed.

Lemma dispatch_goto (h : heap) (state : State) (cur : loc) :
  goto (dispatch h state cur) = "generate-queries" \/
  goto (dispatch h state cur) = "write-final-sections".
Proof. unfold dispatch. destruct (research (h cur)); simpl; auto. Qed.

(** On the graph of the workflow the runner is never at a loss: when a
    stage function returns, the run goes on at a registered node, or it
    ends at "compile-final-report" with a final report. *)
Lemma graph_turn `{Capabilities} (node : string) (nodeFunc : Node) (state : State)
  (w w' : World) (result : NodeResult) :
  nodes graph !! node = Some nodeFunc ->
  nodeFunc state w = (w', Ok result) ->
  (exists next state',
     turn graph w node state = Continue w' next state' /\ is_Some (nodes graph !! next)) \/
  (exists state',
     turn graph w node state = Return w' state' /\
     node = "compile-final-report" /\ is_Some (final_report state')).
Proof.
  intros Hnode Hrun. unfold turn. rewrite Hnode, Hrun.
  apply graph_nodes_cases in Hnode
    as [[-> ->]|[[-> ->]|[[-> ->]|[[-> ->]|[[-> ->]|[[-> ->]|[[-> ->]|[[-> ->]|[-> ->]]]]]]]]].
  - destruct (generateReportPlan_result state w) as [[e He]|[secs Hsecs]];
      rewrite Hrun in *; simpl in *; [done|]. injection Hsecs as ->.
    unfold follow_edge. rewrite graph_edges_plan. goes_on.
  - destruct (humanFeedback_result state w) as [[e He]|(u & Hu & _)];
      rewrite Hrun in *; simpl in *; [done|]. injection Hu as -> ->.
    unfold follow_command. rewrite graph_conditional_feedback. goes_on.
  - unfold route in Hrun. injection Hrun as <- <-.
    unfold follow_command. rewrite graph_conditional_route.
    destruct (routeTasks_goto (heap_of w) state) as [->|(cur & _ & ->)]; [goes_on|].
    unfold dispatch. destruct (research (heap_of w cur)); goes_on.
  - destruct (generateQueries_result state w) as [[e He]|[queries Hq]];
      rewrite Hrun in *; simpl in *; [done|]. injection Hq as ->.
    unfold follow_edge. rewrite graph_edges_queries. goes_on.
  - destruct (searchWeb_result state w) as [[e He]|[output Hout]];
      rewrite Hrun in *; simpl in *; [done|]. injection Hout as ->.
    unfold follow_edge. rewrite graph_edges_search. goes_on.
  - destruct (writeSection_result state w) as [[e He]|[[l Hl]|(queries & l & Hl & _)]];
      rewrite Hrun in *; simpl in *; [done| |]; injection Hl as ->;
      unfold follow_command; rewrite graph_conditional_write; goes_on.
  - destruct (writeFinalSections_result state w) as [[e He]|[l Hl]];
      rewrite Hrun in *; simpl in *; [done|]. injection Hl as ->.
    unfold follow_edge. rewrite graph_edges_final. goes_on.
  - destruct (gatherCompletedSections_result state w) as [[e He]|[text Hl]];
      rewrite Hrun in *; simpl in *; [done|]. injection Hl as _ ->.
    unfold follow_edge. rewrite graph_edges_gather. goes_on.
  - destruct (compileFinalReport_result state w) as [[e He]|[report Hl]];
      rewrite Hrun in *; simpl in *; [done|]. injection Hl as ->.
    right. unfold follow_edge. rewrite graph_edges_compile. simpl. eauto.
Qed.

Lemma loop_graph_outcomes `{Capabilities} (n : nat) (node : string) (state : State)
  (w : World) :
  is_Some (nodes graph !! node) ->
  match loop n graph w node state with
  | (w', Ok finalState) =>
      is_Some (final_report finalState) \/
      after_turns n graph w node state = Some (w', finalState)
  | (w', Throw e) =>
      exists stage nodeFunc state0 w0,
        nodes graph !! stage = Some nodeFunc /\ nodeFunc state0 w0 = (w', Throw e)
  end.
Proof.
  revert node state w. induction n as [|n IH]; intros node state w [nodeFunc Hnode]; simpl.
  - by right.
  - destruct (nodeFunc state w) as [w1 [result|e]] eqn:Hrun.
    + destruct (graph_turn node nodeFunc state w w1 result Hnode Hrun)
        as [(next & state' & -> & Hnext)|(state' & -> & _ & Hreport)].
      * apply IH, Hnext.
      * by left.
    + unfold turn. rewrite Hnode, Hrun. eauto 10.
Qed.

(** X1 (MastraGraph.run on the workflow graph).  A run of the report
    workflow has three ways to end: with a state that holds a final
    report, with the state reached after twenty turns, or with an exception
    thrown by one of the stage functions.  The runner's own errors (no
    entry point, unknown node, no edge to follow, invalid result) do not
    occur on this graph. *)
Theorem run_graph_outcomes `{Capabilities} (initialState : State) (w : World) :
  match run graph initialState w with
  | (w', Ok finalState) =>
      is_Some (final_report finalState) \/
      after_turns 20 graph w "generate-report-plan" initialState = Some (w', finalState)
  | (w', Throw e) =>
      exists stage nodeFunc state0 w0,
        nodes graph !! stage = Some nodeFunc /\ nodeFunc state0 w0 = (w', Throw e)
  end.
Proof.
  unfold run.
  assert (entryPoint graph = Some "generate-report-plan") as -> by reflexivity.
  rewrite bool_decide_eq_false_2 by done.
  apply loop_graph_outcomes, graph_registered. set_solver.
Qed.

(** ** Sections keep what they were planned as *)

Lemma same_plan_refl (s : ReportSection) : same_plan s s.
Proof. done. Qed.

Lemma same_plan_content (c : option string) (s : ReportSection) : same_plan s (set_content c s).
Proof. done. Qed.

Lemma same_plan_sources (srcs : option (list SourceReference)) (s : ReportSection) :
  same_plan s (set_sources srcs s).
Proof. done. Qed.

Lemma same_plan_trans (s1 s2 s3 : ReportSection) :
  same_plan s1 s2 -> same_plan s2 s3 -> same_plan s1 s3.
Proof. unfold same_plan. intros (-> & -> & ->) (-> & -> & ->). done. Qed.

Lemma generateQueries_world `{Capabilities} (state : State) (w : World) :
  heap_of (generateQueries state w).1 = heap_of w /\
  next_loc (generateQueries state w).1 = next_loc w.
Proof.
  unfold generateQueries, query_description, bind, initModel, call, deref, ret, throw.
  destruct (section state) as [l|]; simpl;
    repeat case_bool_decide; simpl; try done;
    destruct (generateQueriesObject _ _ _) as [e [queries|err]]; simpl; done.
Qed.

Lemma writeSection_heap `{Capabilities} (state : State) (w : World) (l : loc) :
  heap_of (writeSection state w).1 l = heap_of w l \/
  exists text,
    section state = Some l /\
    heap_of (writeSection state w).1 l = set_content (Some text) (heap_of w l).
Proof.
  unfold writeSection, bind, defined, initModel, call, deref, assign, ret, throw.
  destruct (section state) as [l'|]; simpl; [|by left].
  case_bool_decide; simpl; [|by left].
  destruct (generateText _ _ _) as [e1 [text|err]]; simpl; [|by left].
  assert (heap_set (heap_of w) l' (set_content (Some text) (heap_of w l')) l = heap_of w l \/
          exists written, Some l' = Some l /\
            heap_set (heap_of w) l' (set_content (Some text) (heap_of w l')) l =
              set_content (Some written) (heap_of w l)) as Hset.
  { unfold heap_set. destruct (decide (l = l')) as [->|]; [right; by exists text|by left]. }
  case_bool_decide; simpl; [|exact Hset].
  destruct (generateFeedbackObject _ _ _) as [e2 [feedback|err]]; simpl; [|exact Hset].
  destruct (_ || _); exact Hset.
Qed.

Lemma writeFinalSections_heap `{Capabilities} (state : State) (w : World) (l : loc) :
  heap_of (writeFinalSections state w).1 l = heap_of w l \/
  exists text,
    section state = Some l /\
    heap_of (writeFinalSections state w).1 l = set_content (Some text) (heap_of w l).
Proof.
  unfold writeFinalSections, bind, defined, initModel, call, deref, assign, ret, throw.
  destruct (section state) as [l'|]; simpl; [|by left].
  case_bool_decide; simpl; [|by left].
  destruct (generateText _ _ _) as [e1 [text|err]]; simpl; [|by left].
  unfold heap_set. destruct (decide (l = l')) as [->|]; [right; by exists text|by left].
Qed.

Lemma compileFinalReport_heap `{Capabilities} (state : State) (w : World) (l : loc) :
  heap_of (compileFinalReport state w).1 l = heap_of w l \/
  exists c, heap_of (compileFinalReport state w).1 l = set_content c (heap_of w l).
Proof.
  unfold compileFinalReport, bind, defined, ret, throw.
  destruct (completed_sections state) as [cs|]; simpl; [|by left].
  destruct (sections state) as [secs|]; simpl; [|by left].
  rewrite merge_contents_at. case_decide; [right; by eexists|by left].
Qed.

Lemma alloc_all_heap `{Capabilities} (ss : list ReportSection) (w : World) (l : loc) :
  (l < next_loc w)%nat ->
  heap_of (alloc_all ss w).1 l = heap_of w l /\ (next_loc w <= next_loc (alloc_all ss w).1)%nat.
Proof.
  revert w. induction ss as [|s ss IH]; intros w Hl; simpl; [done|].
  unfold bind, alloc, ret. simpl.
  set (w1 := mkWorld (heap_set (heap_of w) (next_loc w) s) (S (next_loc w)) (ext_of w)).
  destruct (IH w1) as [Hheap Hnext]; [simpl; lia|].
  destruct (alloc_all ss w1) as [w2 [ls|e]]; simpl in *;
    (split; [|lia]); rewrite Hheap; unfold heap_set; by rewrite decide_False by lia.
Qed.

Lemma generateReportPlan_heap `{Capabilities} (state : State) (w : World) (l : loc) :
  (l < next_loc w)%nat ->
  heap_of (generateReportPlan state w).1 l = heap_of w l.
Proof.
  intros Hl.
  unfold generateReportPlan, bind, initModel, call, ret, throw.
  case_bool_decide; simpl; [|done].
  destruct (generateQueriesObject _ _ _) as [e1 [queries|err]]; simpl; [|done].
  destruct (selectAndExecuteSearch _ _ _ _) as [e2 [out|err]]; simpl; [|done].
  case_bool_decide; simpl; [|done].
  destruct (generateSectionsObject _ _ _) as [e3 [plan|err]]; simpl; [|done].
  destruct (alloc_all_heap plan (mkWorld (heap_of w) (next_loc w) e3) l Hl) as [Hheap _].
  destruct (alloc_all plan _) as [w' [ls|e]]; simpl in *; done.
Qed.

Lemma later_stage_plan `{Capabilities} (node : string) (nodeFunc : Node)
  (state : State) (w : World) (l : loc) :
  nodes graph !! node = Some nodeFunc ->
  node <> "generate-report-plan" ->
  same_plan (heap_of w l) (heap_of (nodeFunc state w).1 l).
Proof.
  intros Hnode Hlater.
  apply graph_nodes_cases in Hnode
    as [[-> ->]|[[-> ->]|[[-> ->]|[[-> ->]|[[-> ->]|[[-> ->]|[[-> ->]|[[-> ->]|[-> ->]]]]]]]]].
  - done.
  - unfold humanFeedback, bind, defined, ret, throw. by destruct (sections state).
  - done.
  - by destruct (generateQueries_world state w) as [-> _].
  - destruct (searchWeb_heap state w l) as [->|(new & _ & ->)]; [done|apply same_plan_sources].
  - destruct (writeSection_heap state w l) as [->|(text & _ & ->)]; [done|apply same_plan_content].
  - destruct (writeFinalSections_heap state w l) as [->|(text & _ & ->)];
      [done|apply same_plan_content].
  - unfold gatherCompletedSections, bind, defined, ret, throw.
    by destruct (completed_sections state).
  - destruct (compileFinalReport_heap state w l) as [->|(c & ->)]; [done|apply same_plan_content].
Qed.

(** X2 (the stage functions).  No node of the workflow changes what a
    section was planned as: the name, the description and the research
    flag of every section object that exists when the node starts are the
    same when it ends, whatever the node returns. *)
Theorem stages_keep_the_plan `{Capabilities} (node : string) (nodeFunc : Node)
  (state : State) (w : World) (l : loc) :
  nodes graph !! node = Some nodeFunc ->
  (l < next_loc w)%nat ->
  same_plan (heap_of w l) (heap_of (nodeFunc state w).1 l).
Proof.
  intros Hnode Hl.
  destruct (decide (node = "generate-report-plan")) as [->|Hlater];
    [|by apply (later_stage_plan node)].
  apply graph_nodes_cases in Hnode as [[_ ->]|Hother].
  - by rewrite generateReportPlan_heap.
  - repeat destruct Hother as [[[=] _]|Hother]. by destruct Hother as [[=] _].
Qed.

Lemma stages_keep_the_plan_witness :
  same_plan (plan_heap 1%nat)
    (heap_of (@searchWeb (demo 2 pass) searching_state (demo_world 2 pass)).1 1%nat).
Proof.
  apply (@stages_keep_the_plan (demo 2 pass) "search-web" searchWeb searching_state
           (demo_world 2 pass) 1%nat).
  - apply graph_nodes_search.
  - simpl. lia.
Defined.

(** ** The workflow with more than one section name *)

Lemma two_names_length (h : heap) (secs : list loc) :
  two_names h secs -> (2 <= length secs)%nat.
Proof.
  intros (a & b & Ha & Hb & Hne).
  assert (a <> b) as Hab by (intros ->; done).
  destruct secs as [|x [|y secs]]; simpl; [by apply elem_of_nil in Ha| |lia].
  apply list_elem_of_singleton in Ha. apply list_elem_of_singleton in Hb. congruence.
Qed.

Lemma two_names_same_plan (h h' : heap) (secs : list loc) :
  (forall l, same_plan (h l) (h' l)) -> two_names h secs -> two_names h' secs.
Proof.
  intros Hsame (a & b & Ha & Hb & Hne). exists a, b. split; [done|]. split; [done|].
  destruct (Hsame a) as [-> _], (Hsame b) as [-> _]. done.
Qed.

(** With two names among the sections and one completed section at most,
    a section is left to dispatch. *)
Lemma routeTasks_dispatches (h : heap) (state : State) (secs : list loc) :
  sections state = Some secs ->
  two_names h secs ->
  (length (default [] (completed_sections state)) <= 1)%nat ->
  exists cur, routeTasks h state = dispatch h state cur.
Proof.
  intros Hsecs Htwo Hone. pose proof (two_names_length h secs Htwo) as Hlen.
  unfold routeTasks. rewrite Hsecs.
  destruct secs as [|s0 secs0] eqn:Hl; [simpl in Hlen; lia|]. rewrite <- Hl in *.
  assert (completedSectionsCount state = length (default [] (completed_sections state)))
    as Hcount by (unfold completedSectionsCount; by destruct (completed_sections state)).
  rewrite bool_decide_eq_false_2 by lia.
  destruct (find _ secs) as [cur|] eqn:Hfind; [by exists cur|].
  apply find_none in Hfind. rewrite Forall_forall in Hfind.
  destruct Htwo as (a & b & Ha & Hb & Hne).
  apply Hfind in Ha, Hb. apply isCompleted_not_names in Ha, Hb.
  unfold completed_names in Ha, Hb.
  destruct (default [] (completed_sections state)) as [|c [|c' cs]];
    simpl in *; [by apply elem_of_nil in Ha| |lia].
  apply list_elem_of_singleton in Ha. apply list_elem_of_singleton in Hb. congruence.
Qed.

Lemma spread_no_update (state : State) : spread state no_update = state.
Proof. by destruct state. Qed.

Lemma section_stage_turn `{Capabilities} (node : string) (state : State) (w : World)
  (secs : list loc) :
  node ∈ section_stages ->
  sections state = Some secs ->
  two_names (heap_of w) secs ->
  (length (default [] (completed_sections state)) <= 1)%nat ->
  match turn graph w node state with
  | Continue w' node' state' =>
      node' ∈ section_stages /\
      final_report state' = final_report state /\
      sections state' = Some secs /\
      two_names (heap_of w') secs /\
      (length (default [] (completed_sections state')) <= 1)%nat
  | Return _ _ => False
  | Raise _ _ => True
  end.
Proof.
  intros Hnode Hsecs Htwo Hone. unfold section_stages in Hnode.
  rewrite !elem_of_cons, elem_of_nil in Hnode.
  destruct Hnode as [->|[->|[->|[->|[->|[->|[]]]]]]]; unfold turn.
  - assert (nodes graph !! "route-tasks" = Some route) as -> by reflexivity.
    unfold route.
    destruct (routeTasks_dispatches (heap_of w) state secs) as [cur ->]; [done..|].
    unfold follow_command. rewrite graph_conditional_route.
    unfold dispatch. destruct (research (heap_of w cur)); simpl; rewrite Hsecs;
      (split; [set_solver|]); (split; [by destruct (final_report state)|]);
      (split; [done|]); (split; [done|]);
      by destruct (completed_sections state).
  - rewrite graph_nodes_queries.
    pose proof (later_stage_plan "generate-queries" generateQueries state w) as Hplan.
    destruct (generateQueries_result state w) as [[e He]|[queries Hq]];
      destruct (generateQueries state w) as [w' r]; simpl in *; subst r; [done|].
    unfold follow_edge. rewrite graph_edges_queries. simpl. rewrite Hsecs.
    split; [set_solver|]. split; [by destruct (final_report state)|]. split; [done|].
    split; [|by destruct (completed_sections state)].
    eapply two_names_same_plan; [|done]. intros l. by apply Hplan.
  - rewrite graph_nodes_search.
    pose proof (later_stage_plan "search-web" searchWeb state w) as Hplan.
    destruct (searchWeb_result state w) as [[e He]|[output Hq]];
      destruct (searchWeb state w) as [w' r]; simpl in *; subst r; [done|].
    unfold follow_edge. rewrite graph_edges_search. simpl. rewrite Hsecs.
    split; [set_solver|]. split; [by destruct (final_report state)|]. split; [done|].
    split; [|by destruct (completed_sections state)].
    eapply two_names_same_plan; [|done]. intros l. by apply Hplan.
  - rewrite graph_nodes_write.
    pose proof (later_stage_plan "write-section" writeSection state w) as Hplan.
    destruct (writeSection_result state w) as [[e He]|[[l Hl]|(queries & l & Hl & _)]];
      destruct (writeSection state w) as [w' r]; simpl in *; subst r; [done| |];
      unfold follow_command; rewrite graph_conditional_write; simpl; rewrite Hsecs;
      (split; [set_solver|]); (split; [by destruct (final_report state)|]);
      (split; [done|]);
      (split; [eapply two_names_same_plan; [|done]; intros l'; by apply Hplan|]);
      [simpl; lia|by destruct (completed_sections state)].
  - assert (nodes graph !! "write-final-sections" = Some (writeFinalSections : Node)) as ->
      by reflexivity.
    pose proof (later_stage_plan "write-final-sections" writeFinalSections state w) as Hplan.
    destruct (writeFinalSections_result state w) as [[e He]|[l Hl]];
      destruct (writeFinalSections state w) as [w' r]; simpl in *; subst r; [done|].
    unfold follow_edge. rewrite graph_edges_final. simpl. rewrite Hsecs.
    split; [set_solver|]. split; [by destruct (final_report state)|]. split; [done|].
    split; [|lia].
    eapply two_names_same_plan; [|done]. intros l'. by apply Hplan.
  - assert (nodes graph !! "gather-completed-sections" = Some (gatherCompletedSections : Node))
      as -> by reflexivity.
    destruct (gatherCompletedSections_result state w) as [[e He]|[text Hl]];
      destruct (gatherCompletedSections state w) as [w' r]; simpl in *;
      [by subst r|]. injection Hl as -> ->.
    unfold follow_edge. rewrite graph_edges_gather. simpl. rewrite Hsecs.
    split; [set_solver|]. split; [by destruct (final_report state)|]. split; [done|].
    split; [done|by destruct (completed_sections state)].
Qed.

Lemma section_stages_executed `{Capabilities} (n : nat) (node : string) (state : State)
  (w : World) (secs : list loc) :
  node ∈ section_stages ->
  sections state = Some secs ->
  two_names (heap_of w) secs ->
  (length (default [] (completed_sections state)) <= 1)%nat ->
  Forall (fun executedNode => executedNode ∈ section_stages) (executed n graph w node state).
Proof.
  revert node state w. induction n as [|n IH]; intros node state w Hnode Hsecs Htwo Hone;
    [constructor|].
  destruct (graph_registered node) as [nodeFunc HnodeFunc];
    [unfold section_stages in Hnode; set_solver|].
  rewrite (executed_step _ _ _ _ _ _ HnodeFunc).
  constructor; [done|].
  pose proof (section_stage_turn node state w secs Hnode Hsecs Htwo Hone) as Hturn.
  destruct (turn graph w node state) as [w' node' state'| |]; [|constructor..].
  destruct Hturn as (Hnode' & _ & Hsecs' & Htwo' & Hone'). by apply IH.
Qed.

(** X3 (routeTasks and MastraGraph.run).  When two of the planned sections
    carry different names and one section at most is completed, as it is
    after every completion, the run that continues at "route-tasks" never
    executes "compile-final-report", however many turns it is given: a
    section is always left to be dispatched. *)
Theorem route_tasks_never_compiles `{Capabilities} (maxSteps : nat) (state : State)
  (w : World) (secs : list loc) (a b : loc) :
  sections state = Some secs ->
  a ∈ secs -> b ∈ secs -> name (heap_of w a) <> name (heap_of w b) ->
  (length (default [] (completed_sections state)) <= 1)%nat ->
  "compile-final-report" ∉ executed maxSteps graph w "route-tasks" state.
Proof.
  intros Hsecs Ha Hb Hne Hone Hin.
  assert ("route-tasks" ∈ section_stages) as Hroute by (unfold section_stages; set_solver).
  assert (two_names (heap_of w) secs) as Htwo by (by exists a, b).
  pose proof (section_stages_executed maxSteps "route-tasks" state w secs Hroute Hsecs Htwo Hone)
    as Hall.
  rewrite Forall_forall in Hall. apply Hall in Hin.
  unfold section_stages in Hin. rewrite !elem_of_cons, elem_of_nil in Hin.
  by repeat destruct Hin as [[=]|Hin].
Qed.

Lemma route_tasks_never_compiles_witness :
  "compile-final-report" ∉
    executed 20 (@graph (demo 2 pass)) (demo_world 2 pass) "route-tasks" plan_state.
Proof.
  apply (@route_tasks_never_compiles (demo 2 pass) 20 plan_state (demo_world 2 pass)
           [0; 1; 2]%nat 0%nat 1%nat eq_refl).
  - set_solver.
  - set_solver.
  - simpl. discriminate.
  - simpl. lia.
Defined.

Lemma section_stages_loop `{Capabilities} (n : nat) (node : string) (state : State)
  (w : World) (secs : list loc) :
  node ∈ section_stages ->
  sections state = Some secs ->
  two_names (heap_of w) secs ->
  (length (default [] (completed_sections state)) <= 1)%nat ->
  match loop n graph w node state with
  | (_, Ok finalState) => final_report finalState = final_report state
  | (_, Throw _) => True
  end.
Proof.
  revert node state w. induction n as [|n IH]; intros node state w Hnode Hsecs Htwo Hone;
    simpl; [done|].
  pose proof (section_stage_turn node state w secs Hnode Hsecs Htwo Hone) as Hturn.
  destruct (turn graph w node state) as [w' node' state'| |]; [|done..].
  destruct Hturn as (Hnode' & <- & Hsecs' & Htwo' & Hone'). by apply IH.
Qed.

(** ** generateReport *)

Lemma loop_S `{Capabilities} (n : nat) (g : MastraGraph) (w : World) (node : string)
  (state : State) :
  loop (S n) g w node state =
    match turn g w node state with
    | Continue w node state => loop n g w node state
    | Return w state => (w, Ok state)
    | Raise w e => (w, Throw e)
    end.
Proof. reflexivity. Qed.

Lemma turn_route_no_sections `{Capabilities} (state : State) (w : World) :
  sections state = Some [] ->
  turn graph w "route-tasks" state = Continue w "compile-final-report" state.
Proof.
  intros Hsecs. unfold turn.
  assert (nodes graph !! "route-tasks" = Some route) as -> by reflexivity.
  unfold route, routeTasks. rewrite Hsecs.
  unfold follow_command. rewrite graph_conditional_route. simpl.
  by rewrite spread_no_update.
Qed.

Lemma turn_compile_no_sections `{Capabilities} (state : State) (w : World)
  (completed : list loc) :
  sections state = Some [] ->
  completed_sections state = Some completed ->
  exists w' finalState,
    turn graph w "compile-final-report" state = Return w' finalState /\
    final_report finalState = Some "".
Proof.
  intros Hsecs Hcompleted. unfold turn.
  assert (nodes graph !! "compile-final-report" = Some (compileFinalReport : Node)) as ->
    by reflexivity.
  unfold compileFinalReport, bind, defined, ret. rewrite Hsecs, Hcompleted. simpl.
  unfold follow_edge. rewrite graph_edges_compile. simpl. eauto.
Qed.

Lemma turn_plan `{Capabilities} (state : State) (w w1 : World) (stateUpdate : State) :
  generateReportPlan state w = (w1, Ok (RPartial stateUpdate)) ->
  turn graph w "generate-report-plan" state =
    Continue w1 "human-feedback" (spread state stateUpdate).
Proof.
  intros Hplan. unfold turn.
  assert (nodes graph !! "generate-report-plan" = Some (generateReportPlan : Node)) as ->
    by reflexivity.
  rewrite Hplan. unfold follow_edge. by rewrite graph_edges_plan.
Qed.

Lemma turn_feedback `{Capabilities} (state : State) (w : World) (secs : list loc) :
  sections state = Some secs ->
  exists state',
    turn graph w "human-feedback" state = Continue w "route-tasks" state' /\
    sections state' = Some secs /\
    completed_sections state' = Some (default [] (completed_sections state)) /\
    final_report state' = final_report state.
Proof.
  intros Hsecs. unfold turn.
  assert (nodes graph !! "human-feedback" = Some (humanFeedback : Node)) as -> by reflexivity.
  destruct (humanFeedback_result state w) as [[e He]|(u & -> & Hu1 & Hu2 & Hu3)].
  { unfold humanFeedback, bind, defined, ret in He. by rewrite Hsecs in He. }
  unfold follow_command. rewrite graph_conditional_feedback. simpl.
  eexists. split; [reflexivity|]. simpl. rewrite Hu1, Hu2, Hu3, Hsecs. done.
Qed.

(** X4 (generateReport).  The graph workflow hands back a report only for
    a plan that has at least one section and in which all sections carry
    the same name: for an empty plan the compiled report is empty and is
    taken for missing, and with two different names the run never reaches
    the compilation.  The report handed back is not empty. *)
Theorem generateReport_needs_one_name `{Capabilities} (topic : string) (w w' : World)
  (report : string) :
  generateReport topic w = (w', inr report) ->
  report <> "" /\
  exists w1 secs,
    generateReportPlan (initial_state topic) w =
      (w1, Ok (RPartial (mkState None None (Some secs) None None None None None None None))) /\
    secs <> [] /\
    forall a b, a ∈ secs -> b ∈ secs -> name (heap_of w1 a) = name (heap_of w1 b).
Proof.
  unfold generateReport, run.
  assert (entryPoint graph = Some "generate-report-plan") as -> by reflexivity.
  rewrite bool_decide_eq_false_2 by done.
  rewrite (loop_S 19).
  destruct (generateReportPlan_result (initial_state topic) w) as [[e He]|[secs Hplan]].
  { unfold turn.
    assert (nodes graph !! "generate-report-plan" = Some (generateReportPlan : Node)) as ->
      by reflexivity.
    destruct (generateReportPlan (initial_state topic) w) as [w1 r]. 
    simpl in He. by subst r. }
  destruct (generateReportPlan (initial_state topic) w) as [w1 r] eqn:Hrun.
  simpl in Hplan. subst r.
  rewrite (turn_plan _ _ _ _ Hrun), (loop_S 18).
  set (state1 := spread (initial_state topic) _).
  destruct (turn_feedback state1 w1 secs eq_refl) as (state2 & -> & Hsecs & Hcompleted & Hnone).
  simpl in Hcompleted, Hnone. clearbody state1.
  intros Hreport.
  assert (forall a b, a ∈ secs -> b ∈ secs -> name (heap_of w1 a) = name (heap_of w1 b))
    as Hsame.
  { intros a b Ha Hb.
    destruct (decide (name (heap_of w1 a) = name (heap_of w1 b))) as [|Hne]; [assumption|exfalso].
    assert (two_names (heap_of w1) secs) as Htwo by (exists a, b; auto).
    assert ("route-tasks" ∈ section_stages) as Hroute by (clear; unfold section_stages; set_solver).
    pose proof (section_stages_loop 18 "route-tasks" state2 w1 secs Hroute Hsecs Htwo) as Hloop.
    rewrite Hcompleted in Hloop. 
    specialize (Hloop (le_S _ _ (le_n 0))).
    destruct (loop 18 graph w1 "route-tasks" state2) as [w2 [finalState|e]]; [|discriminate Hreport].
    rewrite Hloop, Hnone in Hreport. discriminate Hreport. }
  assert (secs <> []) as Hsome.
  { intros ->.
    rewrite (loop_S 17), (turn_route_no_sections state2 w1 Hsecs), (loop_S 16) in Hreport.
    destruct (turn_compile_no_sections state2 w1 [] Hsecs Hcompleted)
      as (w2 & finalState & Hturn & Hempty).
    rewrite Hturn, Hempty in Hreport. discriminate Hreport. }
  split; [|exists w1, secs; auto].
  destruct (loop 18 graph w1 "route-tasks" state2) as [w2 [finalState|e]]; [|discriminate Hreport].
  destruct (final_report finalState) as [text|]; [|discriminate Hreport].
  case_bool_decide; [discriminate Hreport|]. injection Hreport as _ <-. assumption.
Qed.

Lemma generateReport_needs_one_name_witness :
  "Written text" <> "" /\
  exists w1 secs,
    @generateReportPlan (planned solo_plan) (initial_state "Rust") (planned_world solo_plan) =
      (w1, Ok (RPartial (mkState None None (Some secs) None None None None None None None))) /\
    secs <> [] /\
    forall a b, a ∈ secs -> b ∈ secs -> name (heap_of w1 a) = name (heap_of w1 b).
Proof.
  eapply (@generateReport_needs_one_name (planned solo_plan) "Rust" (planned_world solo_plan)).
  vm_compute. reflexivity.
Defined.

(** ** The researcher's tool *)

Lemma search_and_write_ext `{Capabilities} (max_search_depth : Z)
  (again1 again2 : State -> M State) (state : State) (w : World) :
  (forall state' w',
     search_iterations state' = (fun n => n + 1) <$> search_iterations state ->
     again1 state' w' = again2 state' w') ->
  search_and_write max_search_depth again1 state w =
  search_and_write max_search_depth again2 state w.
Proof.
  intros Hagain. unfold search_and_write, bind.
  destruct (searchWeb_result state w) as [[e He]|[output Hout]];
    destruct (searchWeb state w) as [w1 r]; simpl in *; subst r; [done|].
  set (state1 := merge_result state _).
  assert (search_iterations state1 = (fun n => n + 1) <$> search_iterations state) as Hiter
    by (unfold state1; simpl; by destruct (search_iterations state)).
  destruct (writeSection state1 w1) as [w2 [[command| |]|e]]; try done.
  case_bool_decide; [done|]. case_bool_decide; [|done].
  destruct (update command ≫= search_queries) as [queries|]; [|done].
  destruct (below_depth _ _); [|done]. by apply Hagain.
Qed.

Lemma generateQueries_merge `{Capabilities} (state : State) (w : World) :
  match generateQueries state w with
  | (_, Ok result) => search_iterations (merge_result state result) = search_iterations state
  | (_, Throw _) => True
  end.
Proof.
  destruct (generateQueries_result state w) as [[e He]|[queries Hqueries]];
    destruct (generateQueries state w) as [w1 r]; simpl in *; subst r; [done|].
  simpl. by destruct (search_iterations state).
Qed.

Lemma research_loop_S `{Capabilities} (turns : nat) (max_search_depth : Z) (state : State)
  (w : World) (k : Z) :
  search_iterations state = Some k ->
  (Z.to_nat (max_search_depth - k) <= turns)%nat ->
  research_loop (S turns) max_search_depth state w =
  research_loop turns max_search_depth state w.
Proof.
  revert state w k. induction turns as [|turns IH]; intros state w k Hk Hturns.
  - simpl. unfold below_depth. rewrite Hk.
    rewrite bool_decide_eq_false_2 by lia. done.
  - change (research_loop (S (S turns)) max_search_depth state w) with
      ((if below_depth state max_search_depth then
          if no_queries state then
            do queryStateUpdate <- generateQueries state;
            let currentSectionState := merge_result state queryStateUpdate in
            if no_queries currentSectionState then ret currentSectionState
            else
              search_and_write max_search_depth (research_loop (S turns) max_search_depth)
                currentSectionState
          else
            search_and_write max_search_depth (research_loop (S turns) max_search_depth) state
        else ret state) w).
    change (research_loop (S turns) max_search_depth state w) with
      ((if below_depth state max_search_depth then
          if no_queries state then
            do queryStateUpdate <- generateQueries state;
            let currentSectionState := merge_result state queryStateUpdate in
            if no_queries currentSectionState then ret currentSectionState
            else
              search_and_write max_search_depth (research_loop turns max_search_depth)
                currentSectionState
          else
            search_and_write max_search_depth (research_loop turns max_search_depth) state
        else ret state) w).
    destruct (below_depth state max_search_depth) eqn:Hbelow; [|done].
    assert (k < max_search_depth) as Hlt.
    { unfold below_depth in Hbelow. rewrite Hk in Hbelow. by apply bool_decide_eq_true in Hbelow. }
    assert (forall state1,
              search_iterations state1 = Some k ->
              forall state' w',
                search_iterations state' = (fun n => n + 1) <$> search_iterations state1 ->
                research_loop (S turns) max_search_depth state' w' =
                research_loop turns max_search_depth state' w') as Hnext.
    { intros state1 Hk1 state' w' Hk'. rewrite Hk1 in Hk'. simpl in Hk'.
      apply (IH state' w' (k + 1) Hk'). lia. }
    destruct (no_queries state).
    + unfold bind. pose proof (generateQueries_merge state w) as Hmerge.
      destruct (generateQueries state w) as [w1 [result|e]]; [|done].
      cbv zeta. destruct (no_queries (merge_result state result)); [done|].
      apply search_and_write_ext, Hnext. by rewrite Hmerge.
    + by apply search_and_write_ext, Hnext.
Qed.

(** X5 (researchAndWriteSectionTool).  The loop of the tool ends within
    [max_search_depth || 2] turns: every turn that is followed by another
    one has raised [search_iterations] by one, so that the loop given more
    turns does the same as the loop given that many. *)
Theorem research_loop_turns `{Capabilities} (topic : string)
  (section_to_research : ReportSection) (l : loc) (more : nat) (w : World) :
  research_loop (Z.to_nat researcher_depth + more) researcher_depth
    (research_start topic section_to_research l) w =
  research_loop (Z.to_nat researcher_depth) researcher_depth
    (research_start topic section_to_research l) w.
Proof.
  induction more as [|more IH]; [by rewrite Nat.add_0_r|].
  rewrite Nat.add_succ_r, <- IH.
  apply (research_loop_S _ _ _ _ 0); [done|]. rewrite Z.sub_0_r. lia.
Qed.





(** ** tavilySearch *)

Lemma remember_keys (uniqueResults : list (string * SearchResult)) (result : SearchResult) :
  NoDup uniqueResults.*1 ->
  NoDup (remember uniqueResults result).*1.
Proof.
  intros Hnodup. unfold remember.
  destruct (_ || _) eqn:Hskip; [done|].
  apply orb_false_iff in Hskip as [_ Hown%bool_decide_eq_false].
  rewrite fmap_app. apply NoDup_app. split; [done|]. split.
  - simpl. intros u Hu ->%list_elem_of_singleton. done.
  - simpl. apply NoDup_singleton.
Qed.

Lemma remember_entries (found : list SearchResult)
  (uniqueResults : list (string * SearchResult)) (result : SearchResult) :
  result ∈ found ->
  Forall (entry_ok found) uniqueResults ->
  Forall (entry_ok found) (remember uniqueResults result).
Proof.
  intros Hin Hall. unfold remember.
  destruct (_ || _) eqn:Hskip; [done|].
  apply orb_false_iff in Hskip as [Hskip _].
  apply orb_false_iff in Hskip as [Hurl%bool_decide_eq_false _].
  apply Forall_app. split; [done|]. by repeat constructor.
Qed.

Lemma fold_remember (found results : list SearchResult)
  (uniqueResults : list (string * SearchResult)) :
  results ⊆ found ->
  NoDup uniqueResults.*1 /\ Forall (entry_ok found) uniqueResults ->
  NoDup (fold_left remember results uniqueResults).*1 /\
  Forall (entry_ok found) (fold_left remember results uniqueResults).
Proof.
  revert uniqueResults. induction results as [|r results IH]; intros acc Hsub [Hnodup Hall];
    simpl; [done|].
  apply IH; [set_solver|]. split; [by apply remember_keys|].
  apply remember_entries; [set_solver|done].
Qed.

Lemma unique_results_ok (responses : list SearchResponse) :
  NoDup (unique_results responses).*1 /\
  Forall (entry_ok (concat (results <$> responses))) (unique_results responses).
Proof.
  unfold unique_results.
  assert (forall acc found,
            concat (results <$> responses) ⊆ found ->
            NoDup acc.*1 /\ Forall (entry_ok found) acc ->
            NoDup (fold_left (fun acc response => fold_left remember (results response) acc)
                     responses acc).*1 /\
            Forall (entry_ok found)
              (fold_left (fun acc response => fold_left remember (results response) acc)
                 responses acc)) as Hfold.
  { induction responses as [|response responses IH]; intros acc found Hsub Hacc; simpl; [done|].
    simpl in Hsub. apply IH; [set_solver|]. apply fold_remember; [set_solver|done]. }
  apply Hfold; [done|]. split; constructor.
Qed.

Lemma Object_entries_Permutation {V} (own : list (string * V)) : Object_entries own ≡ₚ own.
Proof.
  unfold Object_entries. rewrite merge_sort_Permutation.
  induction own as [|kv own IH]; [done|]. simpl.
  destruct (array_index kv.1) as [i|] eqn:Hindex; simpl.
  - rewrite filter_cons_False by (rewrite Hindex; done). by rewrite IH.
  - rewrite filter_cons_True by done. rewrite <- Permutation_middle. by rewrite IH.
Qed.

Lemma remember_keys_iff (uniqueResults : list (string * SearchResult))
  (result : SearchResult) (u : string) :
  u ∈ (remember uniqueResults result).*1 <->
  u ∈ uniqueResults.*1 \/
  (u = result_url result /\ u <> "" /\ (u ∉ Object_prototype_members)).
Proof.
  unfold remember.
  destruct (bool_decide (result_url result = "")) eqn:Hempty; simpl.
  { apply bool_decide_eq_true in Hempty. split; [by left|]. intros [?|(-> & ? & _)]; done. }
  destruct (bool_decide (result_url result ∈ Object_prototype_members)) eqn:Hmember; simpl.
  { apply bool_decide_eq_true in Hmember. split; [by left|]. intros [?|(-> & _ & ?)]; done. }
  destruct (bool_decide (result_url result ∈ uniqueResults.*1)) eqn:Hown.
  { apply bool_decide_eq_true in Hown. split; [by left|]. by intros [?|(-> & _ & _)]. }
  apply bool_decide_eq_false in Hempty. apply bool_decide_eq_false in Hmember.
  rewrite fmap_app, elem_of_app. simpl. rewrite list_elem_of_singleton.
  split.
  - intros [Hu|Hu]; [by left|right; by subst u].
  - intros [Hu|[Hu _]]; [by left|by right].
Qed.

Lemma fold_remember_keys (results : list SearchResult)
  (uniqueResults : list (string * SearchResult)) (u : string) :
  u ∈ (fold_left remember results uniqueResults).*1 <->
  u ∈ uniqueResults.*1 \/
  (u <> "" /\ (u ∉ Object_prototype_members) /\ u ∈ result_url <$> results).
Proof.
  revert uniqueResults. induction results as [|r results IH]; intros acc; simpl.
  { split; [by left|]. intros [?|(_ & _ & ?%elem_of_nil)]; done. }
  rewrite IH, remember_keys_iff, elem_of_cons. naive_solver.
Qed.

Lemma unique_results_keys (responses : list SearchResponse) (u : string) :
  u ∈ (unique_results responses).*1 <->
  u <> "" /\ (u ∉ Object_prototype_members) /\ u ∈ result_url <$> concat (results <$> responses).
Proof.
  unfold unique_results.
  assert (forall acc,
            u ∈ (fold_left (fun acc response => fold_left remember (results response) acc)
                   responses acc).*1 <->
            u ∈ acc.*1 \/
            (u <> "" /\ (u ∉ Object_prototype_members) /\
             u ∈ result_url <$> concat (results <$> responses))) as Hfold.
  { induction responses as [|response responses IH]; intros acc; simpl.
    { split; [by left|]. intros [?|(_ & _ & ?%elem_of_nil)]; done. }
    rewrite IH, fold_remember_keys, fmap_app, elem_of_app. naive_solver. }
  rewrite Hfold. simpl. split; [intros [?%elem_of_nil|?]; done|by right].
Qed.

Lemma tavilySearch_unique `{Provider} (queries : list string) (options : SearchApiConfig)
  (n : Net) :
  unique_urls (found_sources (tavilySearch queries options n).2).
Proof.
  unfold tavilySearch. cbv zeta.
  destruct (tavilySearchAsync queries _ _ _ n) as [n1 responses].
  destruct (unique_results_ok responses) as [Hnodup _].
  case_bool_decide as Hnone.
  - destruct (error_lines _ responses); apply NoDup_nil_2.
  - simpl. unfold unique_urls. rewrite <- list_fmap_compose.
    by rewrite (Object_entries_Permutation (unique_results responses)).
Qed.

(** X7 (tavilySearch).  The sources that [tavilySearch] returns are taken
    from the results of the responses of [tavilySearchAsync]: their URLs
    are exactly the URLs of these results that are not empty and that name
    no member of [Object.prototype], each of them once, and a source has
    the title of a result of its URL, or "No Title". *)
Theorem tavilySearch_sources `{Provider} (queries : list string) (options : SearchApiConfig)
  (n : Net) :
  exists maxResults topic includeRawContent,
    let answered := tavilySearchAsync queries maxResults topic includeRawContent n in
    let found := concat (results <$> answered.2) in
    let sources := found_sources (tavilySearch queries options n).2 in
    (tavilySearch queries options n).1 = answered.1 /\
    unique_urls sources /\
    (forall u,
       u ∈ url <$> sources <->
       u <> "" /\ (u ∉ Object_prototype_members) /\ u ∈ result_url <$> found) /\
    (forall s,
       s ∈ sources ->
       exists r, r ∈ found /\ url s = result_url r /\
                 title s = or_else (result_title r) "No Title").
Proof.
  unfold tavilySearch.
  exists (match max_results options with
          | Some m => if bool_decide (m = 0) then 8 else m
          | None => 8
          end),
    (or_else (default "" (search_topic options)) "general"),
    (default true (include_raw_content options)).
  cbv zeta.
  destruct (tavilySearchAsync queries _ _ _ n) as [n1 responses]. simpl.
  destruct (unique_results_ok responses) as [Hnodup Hall].
  pose proof (unique_results_keys responses) as Hkeys.
  case_bool_decide as Hnone.
  - assert (forall u,
              u ∈ url <$> [] <->
              u <> "" /\ (u ∉ Object_prototype_members) /\
              u ∈ result_url <$> concat (results <$> responses)) as Hempty
      by (intros u; rewrite <- Hkeys, Hnone; done).
    destruct (error_lines _ responses); simpl;
      (split; [reflexivity|]); (split; [apply NoDup_nil_2|]); (split; [exact Hempty|]);
      by intros src ?%elem_of_nil.
  - simpl. split; [reflexivity|].
    assert (url <$> (source_of <$> Object_entries (unique_results responses)) ≡ₚ
            (unique_results responses).*1) as Hperm.
    { rewrite <- list_fmap_compose. rewrite <- (Object_entries_Permutation (unique_results responses)) at 2.
      done. }
    split; [unfold unique_urls; by rewrite Hperm|]. split.
    + intros u. by rewrite Hperm.
    + intros src (entry & -> & Hentry)%list_elem_of_fmap.
      rewrite Object_entries_Permutation in Hentry.
      rewrite Forall_forall in Hall. destruct (Hall entry Hentry) as (Hurl & _ & Hfound).
      exists entry.2. done.
Qed.

(** ** selectAndExecuteSearch *)

Lemma isValidUrl_protocol `{Web} (address : string) (n : Net) :
  (isValidUrl address n).2 = true ->
  URL_protocol address = Some "http:" \/ URL_protocol address = Some "https:".
Proof.
  unfold isValidUrl. destruct (URL_protocol address) as [protocol|]; [|done].
  destruct (decide (protocol = "http:")) as [->|Hhttp]; [by left|].
  destruct (decide (protocol = "https:")) as [->|Hhttps]; [by right|].
  rewrite !bool_decide_true by done. done.
Qed.

(** The loop over the sources: it keeps, in their order, the sources
    whose URL [isValidUrl] accepts at their turn, that is after the sources
    before them have been checked. *)
Lemma fold_validate `{Web} (sources : list SourceReference) (n : Net) :
  NoDup sources ->
  let kept := (fold_left validate sources (n, [])).2 in
  kept `sublist_of` sources /\
  forall i source,
    sources !! i = Some source ->
    (source ∈ kept <->
     (isValidUrl (url source) (fold_left validate (take i sources) (n, [])).1).2 = true).
Proof.
  induction sources as [|last sources IH] using rev_ind; intros Hdistinct; simpl.
  { split; [done|]. intros i source Hi. by rewrite lookup_nil in Hi. }
  apply NoDup_app in Hdistinct as (Hsources & Hlast & _).
  destruct (IH Hsources) as [Hsub Hturn]. clear IH.
  rewrite fold_left_app. simpl.
  assert (last ∉ (fold_left validate sources (n, [])).2) as Hfresh.
  { intros Hin. apply (Hlast last); [|by apply list_elem_of_singleton].
    eapply elem_of_sublist; [exact Hin|exact Hsub]. }
  assert ((validate (fold_left validate sources (n, [])) last).2 =
          (fold_left validate sources (n, [])).2 ++
          (if (isValidUrl (url last) (fold_left validate sources (n, [])).1).2
           then [last] else [])) as Hstep.
  { destruct (fold_left validate sources (n, [])) as [n1 kept]. unfold validate. simpl.
    destruct (isValidUrl (url last) n1) as [n2 [|]]; simpl; by rewrite ?app_nil_r. }
  rewrite Hstep. split.
  { apply sublist_app; [done|]. destruct (isValidUrl _ _).2; [done|by apply sublist_nil_l]. }
  intros i source Hi.
  destruct (decide (i < length sources)%nat) as [Hbefore|Hafter].
  - rewrite lookup_app_l in Hi by done.
    rewrite take_app_le by lia. rewrite <- (Hturn i source Hi).
    assert (source <> last) as Hother.
    { intros ->. apply (Hlast last); [|by apply list_elem_of_singleton].
      by eapply list_elem_of_lookup_2. }
    rewrite elem_of_app. split; [|by left].
    intros [Hin|Hin]; [done|]. destruct (isValidUrl _ _).2.
    + by apply list_elem_of_singleton in Hin.
    + by apply elem_of_nil in Hin.
  - assert (i = length sources) as ->.
    { apply lookup_lt_Some in Hi. rewrite length_app in Hi. simpl in Hi. lia. }
    rewrite list_lookup_middle in Hi by done. injection Hi as <-.
    rewrite take_app_length. rewrite elem_of_app.
    destruct (isValidUrl _ _).2; split.
    + done.
    + intros _. right. by apply list_elem_of_singleton.
    + intros [Hin|Hin]; [done|by apply elem_of_nil in Hin].
    + done.
Qed.

(** X8 (selectAndExecuteSearch).  For a search API other than "tavily"
    and "duckduckgo" the call throws and no request is made.  Otherwise it
    returns: with "duckduckgo" the text of [duckduckgoSearch] and no
    sources at all; with "tavily" the text of [tavilySearch] as it is, also
    for sources that were not kept, and of its sources, in their order,
    exactly those whose URL [isValidUrl] accepts when their turn comes,
    after the sources before them have been checked.  A source returned
    has a URL of protocol http: or https:, and no two sources returned
    have the same URL. *)
Theorem selectAndExecuteSearch_sources `{Web} (searchApi : string) (queryList : list string)
  (paramsToPass : SearchApiConfig) (n : Net) :
  match utils.selectAndExecuteSearch searchApi queryList paramsToPass n with
  | (n', Ok output) =>
      unique_urls (found_sources output) /\
      ((searchApi = "duckduckgo" /\
        formattedOutput output = (duckduckgoSearch queryList n).2 /\
        found_sources output = []) \/
       (searchApi = "tavily" /\
        let searched := tavilySearch queryList paramsToPass n in
        formattedOutput output = formattedOutput searched.2 /\
        found_sources output `sublist_of` found_sources searched.2 /\
        (forall i source,
           found_sources searched.2 !! i = Some source ->
           (source ∈ found_sources output <->
            (isValidUrl (url source)
               (fold_left validate (take i (found_sources searched.2)) (searched.1, [])).1).2
            = true)) /\
        Forall (fun source => URL_protocol (url source) = Some "http:" \/
                              URL_protocol (url source) = Some "https:")
          (found_sources output)))
  | (n', Throw e) =>
      searchApi <> "tavily" /\ searchApi <> "duckduckgo" /\
      e = UnsupportedSearchAPI searchApi /\ n' = n
  end.
Proof.
  unfold utils.selectAndExecuteSearch.
  case_bool_decide as Htavily.
  - pose proof (tavilySearch_unique queryList paramsToPass n) as Hunique.
    destruct (tavilySearch queryList paramsToPass n) as [n1 result]. simpl in *.
    assert (NoDup (found_sources result)) as Hdistinct.
    { unfold unique_urls in Hunique. by eapply NoDup_fmap_1. }
    destruct (fold_validate (found_sources result) n1 Hdistinct) as [Hsub Hturn].
    destruct (fold_left validate (found_sources result) (n1, [])) as [n2 validatedSources].
    simpl in *. split.
    + unfold unique_urls in *. eapply sublist_NoDup; [exact Hunique|]. by apply fmap_sublist.
    + right. split; [done|]. split; [done|]. split; [done|]. split; [done|].
      apply Forall_forall. intros source Hin.
      destruct (proj1 (list_elem_of_lookup validatedSources source) Hin) as [j Hj].
      assert (source ∈ found_sources result) as Hfound
        by (eapply elem_of_sublist; [exact Hin|exact Hsub]).
      apply list_elem_of_lookup in Hfound as [i Hi].
      eapply isValidUrl_protocol. by apply (Hturn i source Hi).
  - case_bool_decide as Hduck.
    + destruct (duckduckgoSearch queryList n) as [n1 result]. simpl.
      split; [apply NoDup_nil_2|]. by left.
    + done.
Qed.

(** ** When every request fails *)

Lemma settle_all_fail `{Provider} (message : string) (maxResults : Z) (topic : string)
  (includeRawContent : bool) (batch : list string) (n : Net) :
  (forall q depth m raw t r, (tavily_api q depth m raw t r).2 = inl message) ->
  (settle_all maxResults topic includeRawContent batch n).2 = (fun _ => inl message) <$> batch /\
  searchCache (settle_all maxResults topic includeRawContent batch n).1 = searchCache n.
Proof.
  intros Hfail. revert n. induction batch as [|q batch IH]; intros n; simpl; [done|].
  unfold search_and_cache, TavilyClient_search.
  specialize (Hfail q (if bool_decide ("advanced" = "") then "advanced" else "advanced")
                (if bool_decide (maxResults = 0) then 5 else maxResults) true
                (if bool_decide (topic = "") then "general" else topic) (remote n)).
  destruct (tavily_api _ _ _ _ _ _) as [r answer]. simpl in Hfail. subst answer.
  set (n1 := mkNet (searchCache n) r (requests n ++ [q])).
  destruct (IH n1) as [Hsettled Hcache].
  destruct (settle_all _ _ _ batch n1) as [n2 others]. simpl in *. by subst others.
Qed.

Lemma promise_all_fail (message : string) (batch : list string) :
  batch <> [] ->
  promise_all ((fun _ => inl message) <$> batch) = inl message.
Proof. by destruct batch. Qed.

Lemma batches_nonempty (l : list string) : Forall (fun batch => batch <> []) (batches l).
Proof.
  induction l as [l IH] using (induction_ltof1 _ length); unfold ltof in *.
  destruct l as [|q1 [|q2 l]]; simpl; [constructor|by repeat constructor|].
  constructor; [done|]. apply IH. simpl. lia.
Qed.

Lemma run_batches_fail `{Provider} (message : string) (maxResults : Z) (topic : string)
  (includeRawContent : bool) (bs : list (list string)) (acc : Net * list SearchResponse) :
  (forall q depth m raw t r, (tavily_api q depth m raw t r).2 = inl message) ->
  Forall (fun batch => batch <> []) bs ->
  (fold_left (run_batch maxResults topic includeRawContent) bs acc).2 =
    acc.2 ++ (errorResponse message <$> concat bs).
Proof.
  intros Hfail Hbs. revert acc. induction Hbs as [|batch bs Hbatch _ IH]; intros [n results];
    simpl; [by rewrite app_nil_r|].
  rewrite IH. unfold run_batch.
  destruct (settle_all_fail message maxResults topic includeRawContent batch n Hfail)
    as [Hsettled _].
  destruct (settle_all _ _ _ batch n) as [n1 settled]. simpl in Hsettled. subst settled.
  rewrite promise_all_fail by done. simpl. by rewrite fmap_app, app_assoc.
Qed.

Lemma in_query_order_errors (message : string) (searchQueries : list string) :
  in_query_order searchQueries (errorResponse message <$> searchQueries) =
    errorResponse message <$> searchQueries.
Proof.
  unfold in_query_order.
  assert (forall q qs, q ∈ qs ->
            find (fun r => bool_decide (query r = q)) (errorResponse message <$> qs) =
              Some (errorResponse message q)) as Hfind.
  { intros q qs. induction qs as [|q' qs IH]; [by intros ?%elem_of_nil|].
    intros Hq. simpl. case_bool_decide as Heq; [by rewrite Heq|].
    apply IH. apply elem_of_cons in Hq as [->|Hq]; done. }
  assert (forall all qs, qs ⊆ all ->
            omap (fun q => find (fun r => bool_decide (query r = q))
                             (errorResponse message <$> all)) qs =
              errorResponse message <$> qs) as Homap.
  { intros all qs. induction qs as [|q qs IH]; intros Hsub; simpl; [done|].
    rewrite Hfind by set_solver. simpl. f_equal. apply IH. set_solver. }
  by apply Homap.
Qed.

Lemma tavilySearchAsync_fail `{Provider} (message : string) (searchQueries : list string)
  (maxResults : Z) (topic : string) (includeRawContent : bool) (n : Net) :
  (forall q depth m raw t r, (tavily_api q depth m raw t r).2 = inl message) ->
  searchCache n = ∅ ->
  (tavilySearchAsync searchQueries maxResults topic includeRawContent n).2 =
    errorResponse message <$> searchQueries.
Proof.
  intros Hfail Hcache. unfold tavilySearchAsync.
  rewrite from_cache_split, Hcache.
  assert (omap (fun q => (∅ : gmap string SearchResponse) !!
                           cacheKey q maxResults topic includeRawContent) searchQueries = [])
    as -> by (induction searchQueries as [|q qs IH]; simpl; [done|by rewrite lookup_empty]).
  rewrite (filter_all (fun q => (∅ : gmap string SearchResponse) !!
                                  cacheKey q maxResults topic includeRawContent = None))
    by (apply Forall_forall; intros q _; apply lookup_empty).
  pose proof (run_batches_fail message maxResults topic includeRawContent
                (batches searchQueries) (n, []) Hfail (batches_nonempty searchQueries)) as Hrun.
  destruct (fold_left _ (batches searchQueries) (n, [])) as [n1 results].
  simpl in *. subst results. rewrite batches_concat. apply in_query_order_errors.
Qed.

Lemma unique_results_errors (message : string) (searchQueries : list string) :
  unique_results (errorResponse message <$> searchQueries) = [].
Proof.
  unfold unique_results.
  assert (forall acc : list (string * SearchResult),
            fold_left (fun uniqueResults response =>
                         fold_left remember (results response) uniqueResults)
              (errorResponse message <$> searchQueries) acc = acc) as Hfold
    by (induction searchQueries as [|q qs IH]; intros acc; simpl; [done|apply IH]).
  apply Hfold.
Qed.

Lemma error_lines_errors (shown : SearchResponse -> string) (message : string)
  (searchQueries : list string) :
  message <> "" ->
  error_lines shown (errorResponse message <$> searchQueries) =
    (fun q => "Query '" +:+ shown (errorResponse message q) +:+ "': " +:+ message)
      <$> searchQueries.
Proof.
  intros Hmessage. unfold error_lines.
  induction searchQueries as [|q qs IH]; simpl; [done|].
  rewrite bool_decide_eq_false_2 by done. simpl. f_equal. exact IH.
Qed.

(** X9 (selectAndExecuteSearch with "tavily").  When the cache is empty
    and every request to the provider fails, with a message that is not
    empty, the call does not throw: it returns no sources and a text that
    names, for every query in the order given, the query and the message;
    for no query at all it is the text for no results. *)
Theorem selectAndExecuteSearch_every_request_fails `{Web} (message : string)
  (queryList : list string) (paramsToPass : SearchApiConfig) (n : Net) :
  (forall q depth m raw t r, (tavily_api q depth m raw t r).2 = inl message) ->
  message <> "" ->
  searchCache n = ∅ ->
  (utils.selectAndExecuteSearch "tavily" queryList paramsToPass n).2 =
    Ok (mkSearchOutput
          (match queryList with
           | [] =>
               "No valid search results found from Tavily. Please try different search queries."
           | _ =>
               "Tavily search encountered errors:" +:+ nl +:+
               js_join nl
                 ((fun q => "Query '" +:+ or_else q "Unknown" +:+ "': " +:+ message)
                    <$> queryList)
           end)
          []).
Proof.
  intros Hfail Hmessage Hcache.
  unfold utils.selectAndExecuteSearch, tavilySearch. simpl. cbv zeta.
  pose proof (tavilySearchAsync_fail message queryList
                (match max_results paramsToPass with
                 | Some m => if bool_decide (m = 0) then 8 else m
                 | None => 8
                 end)
                (or_else (default "" (search_topic paramsToPass)) "general")
                (default true (include_raw_content paramsToPass)) n Hfail Hcache) as Hanswered.
  destruct (tavilySearchAsync queryList _ _ _ n) as [n1 responses].
  simpl in Hanswered. subst responses.
  rewrite unique_results_errors, bool_decide_eq_true_2 by done.
  rewrite error_lines_errors by done.
  destruct queryList as [|q qs]; done.
Qed.

Lemma selectAndExecuteSearch_every_request_fails_witness :
  (@utils.selectAndExecuteSearch (demo_provider (fun _ => false))
     (@demo_web (demo_provider (fun _ => false))) "tavily" ["rust"; ""]
     (mkSearchApiConfig None None None)
     (@initial_net (demo_provider (fun _ => false)) 0%nat)).2 =
    Ok (mkSearchOutput
          ("Tavily search encountered errors:" +:+ nl +:+
           "Query 'rust': Request failed with status code 500" +:+ nl +:+
           "Query 'Unknown': Request failed with status code 500")
          []).
Proof.
  apply (@selectAndExecuteSearch_every_request_fails (demo_provider (fun _ => false))
           (@demo_web (demo_provider (fun _ => false)))
           "Request failed with status code 500" ["rust"; ""]
           (mkSearchApiConfig None None None)
           (@initial_net (demo_provider (fun _ => false)) 0%nat)).
  - reflexivity.
  - discriminate.
  - reflexivity.
Defined.

(** ** duckduckgoSearch *)

Lemma random_requests `{Web} (n : Net) :
  requests (random n).1 = requests n /\ searchCache (random n).1 = searchCache n.
Proof. unfold random. by destruct (Math_random (remote n)). Qed.

Lemma DuckDuckGoClient_search_requests `{Web} (query : string) (maxResults : nat) (n : Net) :
  requests (DuckDuckGoClient_search query maxResults n).1 = requests n ++ [query].
Proof. unfold DuckDuckGoClient_search. by destruct (duckduckgo_api query (remote n)). Qed.

Lemma modifier_drawn `{Web} (x : Random) :
  exists word,
    word ∈ modifiers /\
    default "undefined" (modifiers !! Math_floor_times x (length modifiers)) = word.
Proof.
  destruct (lookup_lt_is_Some_2 modifiers (Math_floor_times x (length modifiers)))
    as [word Hword].
  { apply Math_floor_times_lt. simpl. lia. }
  exists word. rewrite Hword. split; [|done]. by eapply list_elem_of_lookup_2.
Qed.

Lemma attempt_requests `{Web} (retryCount : nat) (asked : string) (n : Net) :
  exists q,
    requests (attempt retryCount asked n).1 = requests n ++ [q] /\
    match retryCount with
    | O => q = asked
    | S _ => exists word, word ∈ modifiers /\ q = asked +:+ " " +:+ word
    end.
Proof.
  unfold attempt. destruct retryCount as [|retryCount].
  - exists asked. by rewrite DuckDuckGoClient_search_requests.
  - destruct (random_requests n) as [Hr1 _]. destruct (random n) as [n0 x0].
    destruct (random_requests n0) as [Hr2 _]. destruct (random n0) as [n1 x].
    destruct (modifier_drawn x) as (word & Hin & Hword). rewrite Hword.
    simpl in Hr1, Hr2. eexists. rewrite DuckDuckGoClient_search_requests, Hr2, Hr1.
    split; [reflexivity|]. by exists word.
Qed.

Lemma performSearch_from_requests `{Web} (attempts retryCount : nat) (asked : string)
  (lastError : option string) (n : Net) :
  let searched := performSearch_from attempts retryCount asked lastError n in
  let retry := fun q => exists word, word ∈ modifiers /\ q = asked +:+ " " +:+ word in
  query (searched.2) = asked /\
  (results searched.2 = [] \/ error searched.2 = None) /\
  exists sent,
    requests searched.1 = requests n ++ sent /\
    (length sent <= attempts)%nat /\
    match retryCount with
    | O => attempts <> 0%nat -> exists retries, sent = asked :: retries /\ Forall retry retries
    | S _ => Forall retry sent
    end.
Proof.
  revert retryCount lastError n.
  induction attempts as [|attempts IH]; intros retryCount lastError n; simpl.
  { split; [done|]. split; [by left|]. exists []. rewrite app_nil_r.
    split; [done|]. split; [done|]. by destruct retryCount. }
  destruct (attempt_requests retryCount asked n) as (q & Hq & Hform).
  assert (forall sent,
            Forall (fun q => exists word, word ∈ modifiers /\ q = asked +:+ " " +:+ word) sent ->
            match retryCount with
            | O => S attempts <> 0%nat ->
                   exists retries, q :: sent = asked :: retries /\
                     Forall (fun q => exists word, word ∈ modifiers /\ q = asked +:+ " " +:+ word)
                       retries
            | S _ => Forall (fun q => exists word, word ∈ modifiers /\ q = asked +:+ " " +:+ word)
                       (q :: sent)
            end) as Hsent.
  { intros sent Hall. destruct retryCount.
    - intros _. exists sent. by subst q.
    - by constructor. }
  destruct (attempt retryCount asked n) as [n1 [message|ddgResults]]; simpl in Hq.
  - destruct (includes message "Ratelimit"); simpl.
    + destruct (IH (S retryCount) (Some message) n1) as (Hquery & Hempty & sent & Hreq & Hlen & Hall).
      split; [done|]. split; [done|]. exists (q :: sent).
      rewrite Hreq, Hq, <- app_assoc. simpl.
      split; [done|]. split; [lia|]. by apply Hsent.
    + split; [done|]. split; [by left|]. exists [q]. simpl.
      split; [done|]. split; [lia|]. by apply Hsent.
  - split; [done|]. split; [by right|]. exists [q]. simpl.
    split; [done|]. split; [lia|]. by apply Hsent.
Qed.

(** X10 (duckduckgoSearch, performSearch).  For one query the DuckDuckGo
    client is asked first for the query itself and then, at most three
    times more, for a retry; every retry is the query followed by a blank
    and one of the six words of [modifiers].  The response carries the
    query as it was given, and when it carries an error it has no
    results. *)
Theorem performSearch_attempts `{Web} (asked : string) (n : Net) :
  let searched := performSearch asked n in
  query (searched.2) = asked /\
  (results searched.2 = [] \/ error searched.2 = None) /\
  exists retries,
    requests searched.1 = requests n ++ asked :: retries /\
    (length retries <= 3)%nat /\
    Forall (fun q => exists word, word ∈ modifiers /\ q = asked +:+ " " +:+ word) retries.
Proof.
  destruct (performSearch_from_requests 4 0 asked None n)
    as (Hquery & Hempty & sent & Hsent & Hlen & Hretries).
  destruct Hretries as (retries & -> & Hall); [done|].
  split; [done|]. split; [done|]. exists retries.
  split; [done|]. split; [simpl in Hlen; lia|done].
Qed.

Lemma performSearch_fail `{Web} (message : string) (asked : string) (n : Net) :
  (forall r, (duckduckgo_api asked r).2 = inl message) ->
  includes message "Ratelimit" = false ->
  (performSearch asked n).2 = errorResponse message asked /\
  requests (performSearch asked n).1 = requests n ++ [asked].
Proof.
  intros Hfail Hother. unfold performSearch. simpl. unfold DuckDuckGoClient_search.
  specialize (Hfail (remote n)).
  destruct (duckduckgo_api asked (remote n)) as [r answer]. simpl in Hfail. subst answer.
  by rewrite Hother.
Qed.

Lemma search_each_fail `{Web} (message : string) (searchQueries : list (nat * string))
  (acc : Net * list SearchResponse) :
  (forall q r, q ∈ searchQueries.*2 -> (duckduckgo_api q r).2 = inl message) ->
  includes message "Ratelimit" = false ->
  (fold_left search_each searchQueries acc).2 =
    acc.2 ++ (errorResponse message <$> searchQueries.*2) /\
  requests (fold_left search_each searchQueries acc).1 = requests acc.1 ++ searchQueries.*2.
Proof.
  intros Hfail Hother. revert acc.
  induction searchQueries as [|[i q] qs IH]; intros [n responses]; simpl;
    [by rewrite !app_nil_r|].
  set (n0 := match i with O => n | S _ => (random n).1 end).
  assert (requests n0 = requests n) as Hn0
    by (unfold n0; destruct i; [done|apply random_requests]).
  destruct (performSearch_fail message q n0) as [Hresult Hrequests];
    [intros r; apply Hfail; simpl; set_solver|done|].
  destruct (performSearch q n0) as [n1 result]. simpl in *. subst result.
  destruct (IH (fun q r Hq => Hfail q r (list_elem_of_further _ _ _ Hq))
              (n1, responses ++ [errorResponse message q])) as [-> ->]. simpl.
  rewrite Hrequests, Hn0, <- !app_assoc. done.
Qed.

Lemma imap_pair_snd {A} (l : list A) : (imap pair l).*2 = l.
Proof.
  assert (forall k, (imap (fun i => pair (k + i)%nat) l).*2 = l) as Hk.
  { induction l as [|x l IH]; intros k; simpl; [done|]. f_equal.
    rewrite <- (IH (S k)) at 2. f_equal. apply imap_ext. intros i y _. simpl. f_equal. lia. }
  apply (Hk 0%nat).
Qed.

Lemma scrapable_errors (message : string) (searchQueries : list string) :
  scrapable (errorResponse message <$> searchQueries) = [].
Proof.
  unfold scrapable.
  assert (concat (results <$> (errorResponse message <$> searchQueries)) = []) as ->
    by (induction searchQueries as [|q qs IH]; simpl; done).
  done.
Qed.

(** X11 (duckduckgoSearch).  When every request to DuckDuckGo fails with
    the same message, which is not empty and does not speak of a rate
    limit, every query is sent once, in order and as it is, and the text
    returned names every query with the message; nothing is thrown.  For
    no query at all the text is the one for results that cannot be
    scraped. *)
Theorem duckduckgoSearch_every_request_fails `{Web} (message : string)
  (searchQueries : list string) (n : Net) :
  (forall q r, q ∈ searchQueries -> (duckduckgo_api q r).2 = inl message) ->
  includes message "Ratelimit" = false ->
  message <> "" ->
  requests (duckduckgoSearch searchQueries n).1 = requests n ++ searchQueries /\
  (duckduckgoSearch searchQueries n).2 =
    match searchQueries with
    | [] =>
        "No valid search results found to scrape from DuckDuckGo. Please try different search queries or check for errors."
    | _ =>
        "DuckDuckGo search encountered errors:" +:+ nl +:+
        js_join nl ((fun q => "Query '" +:+ q +:+ "': " +:+ message) <$> searchQueries)
    end.
Proof.
  intros Hfail Hother Hmessage. unfold duckduckgoSearch.
  destruct (search_each_fail message (imap pair searchQueries) (n, [])) as [Hresponses Hrequests];
    [by rewrite imap_pair_snd|done|].
  destruct (fold_left search_each _ _) as [n1 responses]. simpl in *.
  rewrite imap_pair_snd in Hresponses, Hrequests. subst responses.
  rewrite scrapable_errors.
  assert (forallb
            (fun resp => bool_decide (results resp = []) &&
                         negb (bool_decide (default "" (error resp) = "")))
            (errorResponse message <$> searchQueries) = true) as ->.
  { apply forallb_forall. intros resp (q & -> & _)%list_elem_of_In%list_elem_of_fmap. simpl.
    by rewrite bool_decide_eq_false_2. }
  rewrite (error_lines_errors query) by done.
  destruct searchQueries as [|q qs]; done.
Qed.

Lemma duckduckgoSearch_every_request_fails_witness :
  requests
    (@duckduckgoSearch (demo_provider (fun _ => true)) demo_web ["rust"; "coq"]
       (@initial_net (demo_provider (fun _ => true)) 0%nat)).1 = ["rust"; "coq"] /\
  (@duckduckgoSearch (demo_provider (fun _ => true)) demo_web ["rust"; "coq"]
     (@initial_net (demo_provider (fun _ => true)) 0%nat)).2 =
    "DuckDuckGo search encountered errors:" +:+ nl +:+
    "Query 'rust': timeout of 30000ms exceeded" +:+ nl +:+
    "Query 'coq': timeout of 30000ms exceeded".
Proof.
  apply (@duckduckgoSearch_every_request_fails (demo_provider (fun _ => true)) demo_web
           "timeout of 30000ms exceeded" ["rust"; "coq"]
           (@initial_net (demo_provider (fun _ => true)) 0%nat)).
  - intros q r Hq. apply elem_of_cons in Hq as [->|Hq]; [reflexivity|].
    apply list_elem_of_singleton in Hq as ->. reflexivity.
  - reflexivity.
  - discriminate.
Defined.

(** ** More on tavilySearchAsync *)

Lemma in_query_order_sublist (searchQueries : list string) (found : list SearchResponse) :
  query <$> in_query_order searchQueries found `sublist_of` searchQueries.
Proof.
  unfold in_query_order. induction searchQueries as [|q qs IH]; simpl; [done|].
  destruct (find _ found) as [r|] eqn:Hfind; simpl.
  - apply find_split in Hfind as (_ & _ & _ & _ & ->%bool_decide_eq_true).
    by apply sublist_skip.
  - by apply sublist_cons.
Qed.

(** X12 (tavilySearchAsync).  The responses come back in the order of the
    queries, one for a query at most, each under the query it answers:
    the queries of the responses, read in order, are the queries given
    with some of them left out. *)
Theorem tavilySearchAsync_in_query_order `{Provider} (searchQueries : list string)
  (maxResults : Z) (topic : string) (includeRawContent : bool) (n : Net) :
  query <$> (tavilySearchAsync searchQueries maxResults topic includeRawContent n).2
    `sublist_of` searchQueries.
Proof.
  unfold tavilySearchAsync.
  destruct (from_cache _ _ _ _ _) as [results uncachedQueries].
  destruct (fold_left _ _ _) as [n1 found]. apply in_query_order_sublist.
Qed.




Lemma includes_colon_cons (c : Ascii.ascii) (s : string) :
  includes (String c s) ":" = false <-> String c "" <> ":" /\ includes s ":" = false.
Proof.
  cbn -[Ascii.ascii_dec]. destruct (Ascii.ascii_dec _ c) as [<-|Hne].
  - split; [|by intros [? _]]. by destruct s.
  - simpl. split; [|by intros [_ ?]].
    intros Hs. split; [|done]. intros [= Hc]. by destruct Hne.
Qed.

Lemma includes_colon_app (b d : string) : includes (b +:+ ":" +:+ d) ":" = true.
Proof.
  induction b as [|y b IH].
  - simpl. by destruct d.
  - change (includes (String y (b +:+ ":" +:+ d)) ":" = true).
    destruct (includes (String y (b +:+ ":" +:+ d)) ":") eqn:Hno; [done|].
    apply includes_colon_cons in Hno as [_ Hno]. congruence.
Qed.

(** No key of the cache names a member of [Object.prototype]: a lookup in
    the cache finds what was written there and nothing else. *)
Lemma cacheKey_no_member (query : string) (maxResults : Z) (topic : string)
  (includeRawContent : bool) :
  cacheKey query maxResults topic includeRawContent ∉ Object_prototype_members.
Proof.
  intros Hin.
  assert (Forall (fun member => includes member ":" = false) Object_prototype_members)
    as Hmembers by (repeat constructor).
  rewrite Forall_forall in Hmembers. specialize (Hmembers _ Hin).
  unfold cacheKey in Hmembers. by rewrite includes_colon_app in Hmembers.
Qed.

(** A text is cut at its last colon in one way only. *)
Lemma split_at_last_colon (a b c d : string) :
  includes c ":" = false -> includes d ":" = false ->
  a +:+ ":" +:+ c = b +:+ ":" +:+ d -> a = b /\ c = d.
Proof.
  intros Hc Hd. revert b. induction a as [|x a IH]; intros [|y b] Heq; cbn in Heq.
  - injection Heq as Heq. by cbv in Heq.
  - injection Heq as _ Heq. change (c = b +:+ ":" +:+ d) in Heq.
    rewrite Heq in Hc. by rewrite includes_colon_app in Hc.
  - injection Heq as _ Heq. change (a +:+ ":" +:+ c = d) in Heq.
    rewrite <- Heq in Hd. by rewrite includes_colon_app in Hd.
  - injection Heq as -> Heq. by destruct (IH b Heq) as [-> ->].
Qed.

Lemma pretty_N_go_no_colon (x : N) (s : string) :
  includes s ":" = false -> includes (pretty_N_go x s) ":" = false.
Proof.
  revert s. induction (N.lt_wf_0 x) as [x _ IH]; intros s Hs.
  assert (x = 0 \/ 0 < x)%N as [->|Hpos] by lia.
  - by rewrite pretty_N_go_0.
  - rewrite pretty_N_go_step by done. apply IH.
    { by apply N.div_lt. }
    apply includes_colon_cons. split; [|done].
    unfold pretty_N_char. by repeat case_match.
Qed.

Lemma pretty_Z_no_colon (z : Z) : includes (pretty z) ":" = false.
Proof.
  assert (forall p : positive, includes (pretty p) ":" = false) as Hpos.
  { intros p. unfold pretty, pretty_positive, pretty, pretty_N.
    case_decide; [done|]. by apply pretty_N_go_no_colon. }
  destruct z as [|p|p]; [done|apply Hpos|].
  apply (proj2 (includes_colon_cons (Ascii.ascii_of_nat 45) (pretty p))).
  split; [done|apply Hpos].
Qed.

Lemma regroup_at_colon (a b c : string) :
  a +:+ ":" +:+ b +:+ ":" +:+ c = (a +:+ ":" +:+ b) +:+ ":" +:+ c.
Proof. by rewrite !append_assoc. Qed.

(** X14 (tavilySearchAsync, the cache key).  For topics that contain no
    colon, as "general" and "news", the cache key tells the calls apart:
    two calls with the same key have the same query, the same number of
    results, the same topic and the same flag for raw content, so that an
    entry of the cache is never taken for the answer to another call. *)
Theorem cacheKey_inj (query1 query2 : string) (maxResults1 maxResults2 : Z)
  (topic1 topic2 : string) (includeRawContent1 includeRawContent2 : bool) :
  includes topic1 ":" = false ->
  includes topic2 ":" = false ->
  cacheKey query1 maxResults1 topic1 includeRawContent1 =
  cacheKey query2 maxResults2 topic2 includeRawContent2 ->
  query1 = query2 /\ maxResults1 = maxResults2 /\ topic1 = topic2 /\
  includeRawContent1 = includeRawContent2.
Proof.
  intros Htopic1 Htopic2. unfold cacheKey. rewrite !regroup_at_colon. intros Hkey.
  apply split_at_last_colon in Hkey as [Hkey Hraw];
    [|by destruct includeRawContent1|by destruct includeRawContent2].
  apply split_at_last_colon in Hkey as [Hkey ->]; [|done..].
  apply split_at_last_colon in Hkey as [-> Hresults]; [|apply pretty_Z_no_colon..].
  apply (inj pretty) in Hresults as ->.
  by destruct includeRawContent1, includeRawContent2.
Qed.

Lemma cacheKey_inj_witness : "rust" = "rust" /\ 5 = 5 /\ "general" = "general" /\ true = true.
Proof.
  exact (cacheKey_inj "rust" "rust" 5 5 "general" "general" true true
           eq_refl eq_refl eq_refl).
Defined.

(** ** MastraGraph: direct edges *)

Lemma addEdge_turn `{Capabilities} (g : MastraGraph) (from to first : string)
  (rest : list string) (w : World) (node : string) (state : State) :
  edges g !! from = Some (first :: rest) ->
  turn (addEdge from to g) w node state = turn g w node state.
Proof.
  intros Hfirst. unfold turn. simpl.
  destruct (nodes g !! node) as [nodeFunc|]; [|done].
  destruct (nodeFunc state w) as [w' [[command|result|]|e]]; try done.
  unfold follow_edge. simpl.
  destruct (decide (node = from)) as [->|Hother].
  - by rewrite lookup_insert_eq, Hfirst.
  - by rewrite lookup_insert_ne.
Qed.

Lemma addEdge_loop `{Capabilities} (g : MastraGraph) (from to first : string)
  (rest : list string) (maxSteps : nat) (w : World) (node : string) (state : State) :
  edges g !! from = Some (first :: rest) ->
  loop maxSteps (addEdge from to g) w node state = loop maxSteps g w node state.
Proof.
  intros Hfirst. revert w node state.
  induction maxSteps as [|maxSteps IH]; intros w node state; simpl; [done|].
  rewrite (addEdge_turn g from to first rest w node state Hfirst).
  destruct (turn g w node state) as [w' node' state'| |]; [apply IH|done..].
Qed.

(** X15 (MastraGraph.addEdge and run).  Of the direct edges that leave a
    node only the one added first is ever followed: adding another edge
    from a node that has one changes no run. *)
Theorem addEdge_second_edge_is_never_followed `{Capabilities} (g : MastraGraph)
  (from to first : string) (rest : list string) (initialState : State) (w : World) :
  edges g !! from = Some (first :: rest) ->
  run (addEdge from to g) initialState w = run g initialState w.
Proof.
  intros Hfirst. unfold run.
  change (entryPoint (addEdge from to g)) with (entryPoint g).
  destruct (entryPoint g) as [entry|]; [|done]. case_bool_decide; [done|].
  by apply (addEdge_loop g from to first rest).
Qed.

Lemma addEdge_second_edge_is_never_followed_witness :
  @run (demo 2 pass) (addEdge "search-web" "compile-final-report" graph)
    (initial_state "Rust") (demo_world 2 pass) =
  @run (demo 2 pass) graph (initial_state "Rust") (demo_world 2 pass).
Proof.
  exact (@addEdge_second_edge_is_never_followed (demo 2 pass) graph "search-web"
           "compile-final-report" "write-section" [] (initial_state "Rust")
           (demo_world 2 pass) eq_refl).
Defined.

(** ** searchWeb and the search tool *)


(** X17 (searchWebTool).  The search tool of the agent refuses a call that
    gives 0 for the number of searches made, before any search; and a call
    it accepts changes no section object: the state handed to [searchWeb]
    names no section, so that the sources found are recorded nowhere. *)
Theorem searchWebTool_records_no_source `{Capabilities} (context : option SearchWebContext)
  (w : World) :
  (forall l, heap_of (searchWebTool_execute context w).1 l = heap_of w l) /\
  (context ≫= searchIterations = Some 0 ->
   searchWebTool_execute context w =
     (w, Throw (ExternalError "検索クエリまたは検索回数が指定されていません"))).
Proof.
  split.
  - intros l. unfold searchWebTool_execute.
    destruct context as [[[queries|] [iterations|]]|]; try done.
    case_bool_decide; [done|].
    by destruct (searchWeb_heap (mkState None None None None None None None (Some iterations)
                                   (Some queries) None) w l) as [->|(new & [=] & _)].
  - unfold searchWebTool_execute.
    destruct context as [[[queries|] [iterations|]]|]; try done.
    simpl. intros [= ->]. done.
Qed.

Lemma searchWebTool_records_no_source_witness :
  @searchWebTool_execute (demo 2 pass)
    (Some (mkSearchWebContext (Some [mkQuery "first"]) (Some 0))) (demo_world 2 pass) =
    (demo_world 2 pass, Throw (ExternalError "検索クエリまたは検索回数が指定されていません")).
Proof.
  exact (proj2 (@searchWebTool_records_no_source (demo 2 pass)
                  (Some (mkSearchWebContext (Some [mkQuery "first"]) (Some 0)))
                  (demo_world 2 pass)) eq_refl).
Defined.

(** ** compileFinalReport: contents by name *)

(** X18 (compileFinalReport).  Compiling gives every section of
    [state.sections] the content of the last completed section that
    carries its name, unless that content is missing or empty: then the
    section keeps its content.  When no completed section carries the
    name, the section keeps its content, unless the name is that of a
    member that every object inherits ([constructor], [toString], ...):
    then the member takes the place of the content, and for the name
    [__proto__] it does so whatever is completed.  A section object
    outside [state.sections] keeps its content. *)
Theorem compileFinalReport_merges_by_name `{Capabilities} (state : State) (w : World)
  (secs completed : list loc) (l : loc) :
  sections state = Some secs ->
  completed_sections state = Some completed ->
  let own := content (heap_of w l) in
  let inherited := Some (member_text (name (heap_of w l))) in
  content (heap_of (compileFinalReport state w).1 l) =
    if decide (l ∈ secs) then
      if decide (name (heap_of w l) = "__proto__") then inherited
      else
        match last (filter (fun c => name (heap_of w c) = name (heap_of w l)) completed) with
        | Some c => js_or (content (heap_of w c)) own
        | None =>
            if decide (name (heap_of w l) ∈ Object_prototype_members) then inherited
            else own
        end
    else own.
Proof.
  intros Hsecs Hcompleted own inherited. subst own inherited.
  unfold compileFinalReport, bind, defined, ret. rewrite Hsecs, Hcompleted. simpl.
  rewrite merge_contents_at. case_decide; [|done].
  unfold remerge. simpl. rewrite merged_content_last. unfold found_content.
  assert (forall n c, js_or (Some (member_text n)) c = Some (member_text n)) as Hmember.
  { intros n c. unfold js_or. rewrite bool_decide_false; [done|].
    unfold member_text. repeat case_bool_decide; done. }
  destruct (decide (name (heap_of w l) = "__proto__")) as [Hproto|Hproto].
  - rewrite (bool_decide_true (name (heap_of w l) = "__proto__")) by done.
    rewrite Hproto, proto_is_member. destruct (last _); apply Hmember.
  - rewrite (bool_decide_false (name (heap_of w l) = "__proto__")) by done.
    destruct (last _); [done|].
    case_bool_decide; [rewrite decide_True by done; apply Hmember|].
    by rewrite decide_False.
Qed.

Lemma compileFinalReport_merges_by_name_witness :
  content (heap_of (@compileFinalReport (demo 2 pass) constructor_state draft_world).1 2%nat) =
    Some "function Object() { [native code] }" /\
  content (heap_of (@compileFinalReport (demo 2 pass) constructor_state draft_world).1 0%nat) =
    Some "Draft".
Proof.
  split.
  - exact (@compileFinalReport_merges_by_name (demo 2 pass) constructor_state draft_world
             [2; 0]%nat [1%nat] 2%nat eq_refl eq_refl).
  - exact (@compileFinalReport_merges_by_name (demo 2 pass) constructor_state draft_world
             [2; 0]%nat [1%nat] 0%nat eq_refl eq_refl).
Defined.

(** ** The section that the researcher's tool returns *)

Lemma grown_refl (s : ReportSection) : grown s s.
Proof. split; [done|]. exists []. by rewrite app_nil_r. Qed.

Lemma grown_trans (s1 s2 s3 : ReportSection) : grown s1 s2 -> grown s2 s3 -> grown s1 s3.
Proof.
  intros [Hplan1 (added1 & Hadd1 & Huniq1)] [Hplan2 (added2 & Hadd2 & Huniq2)].
  split; [by eapply same_plan_trans|].
  exists (added1 ++ added2). split; [by rewrite Hadd2, Hadd1, app_assoc|]. auto.
Qed.

Lemma searchWeb_grown `{Capabilities} (state : State) (w : World) (l : loc) :
  grown (heap_of w l) (heap_of (searchWeb state w).1 l).
Proof.
  destruct (searchWeb_heap state w l) as [->|(new & _ & ->)]; [apply grown_refl|].
  split; [done|]. simpl. rewrite add_sources_first. eexists. split; [done|].
  intros Hunique. rewrite <- add_sources_first. by apply add_sources_unique.
Qed.

Lemma writeSection_grown `{Capabilities} (state : State) (w : World) (l : loc) :
  grown (heap_of w l) (heap_of (writeSection state w).1 l).
Proof.
  destruct (writeSection_heap state w l) as [->|(text & _ & ->)]; [apply grown_refl|].
  split; [done|]. exists []. by rewrite app_nil_r.
Qed.

Lemma search_and_write_keeps `{Capabilities} (max_search_depth : Z)
  (again : State -> M State) (state : State) (w : World) :
  (forall state' w', loop_keeps state' w' (again state' w')) ->
  loop_keeps state w (search_and_write max_search_depth again state w).
Proof.
  intros Hagain. unfold search_and_write, bind, loop_keeps.
  pose proof (searchWeb_grown state w) as Hsearch.
  destruct (searchWeb_result state w) as [[e He]|[output Hout]];
    destruct (searchWeb state w) as [w1 r]; simpl in *; subst r; [done|].
  set (state1 := merge_result state _).
  assert (section state1 = section state) as Hsection
    by (unfold state1; simpl; by destruct (section state)).
  clearbody state1.
  pose proof (writeSection_grown state1 w1) as Hwrite.
  assert (forall l, grown (heap_of w l) (heap_of (writeSection state1 w1).1 l)) as Hboth
    by (intros l; by eapply grown_trans).
  destruct (writeSection state1 w1) as [w2 [[command| |]|e]]; simpl in *; try done.
  case_bool_decide; [done|]. case_bool_decide; [|done].
  destruct (update command ≫= search_queries) as [queries|]; [|done].
  destruct (below_depth _ _); [|done].
  destruct (Hagain (with_queries queries state1) w2) as [Hheap Hstate].
  split; [intros l; exact (grown_trans _ _ _ (Hboth l) (Hheap l))|].
  destruct (again _ _).2; [|done]. by rewrite Hstate.
Qed.

Lemma research_loop_keeps `{Capabilities} (turns : nat) (max_search_depth : Z)
  (state : State) (w : World) :
  loop_keeps state w (research_loop turns max_search_depth state w).
Proof.
  revert state w. induction turns as [|turns IH]; intros state w; simpl.
  { split; [intros l; apply grown_refl|done]. }
  destruct (below_depth state max_search_depth); [|split; [intros l; apply grown_refl|done]].
  destruct (no_queries state); [|by apply search_and_write_keeps].
  unfold bind.
  destruct (generateQueries_world state w) as [Hheap _].
  destruct (generateQueries_result state w) as [[e He]|[queries Hqueries]];
    destruct (generateQueries state w) as [w1 r]; simpl in *; subst r.
  { split; [intros l; simpl; rewrite Hheap; apply grown_refl|done]. }
  set (state1 := merge_result state _).
  assert (section state1 = section state) as Hsection
    by (unfold state1; simpl; by destruct (section state)).
  clearbody state1.
  destruct (no_queries state1).
  { split; [intros l; simpl; rewrite Hheap; apply grown_refl|done]. }
  destruct (search_and_write_keeps max_search_depth (research_loop turns max_search_depth)
              state1 w1 IH) as [Hgrown Hstate].
  split; [intros l; specialize (Hgrown l); by rewrite Hheap in Hgrown|].
  destruct (search_and_write _ _ _ _).2; [|done]. by rewrite Hstate.
Qed.

(** X19 (researchAndWriteSectionTool).  The section that the tool returns
    is the one it was given, worked on: it has the same name, description
    and research flag, the sources given are the first of its sources, and
    when the sources given had no URL twice, its sources have none
    twice. *)
Theorem researchAndWriteSection_returns_the_section `{Capabilities} (topic : string)
  (section_to_research completed_section : ReportSection) (w w' : World) :
  researchAndWriteSection topic section_to_research w = (w', Ok completed_section) ->
  grown section_to_research completed_section.
Proof.
  unfold researchAndWriteSection, bind, alloc, defined, deref. simpl.
  set (w0 := mkWorld _ _ _).
  set (start := research_start _ _ _).
  destruct (research_loop_keeps (Z.to_nat researcher_depth) researcher_depth start w0)
    as [Hgrown Hstate].
  destruct (research_loop _ _ start w0) as [w1 [state'|e]]; simpl in *; [|done].
  rewrite Hstate. simpl. intros [= <- <-].
  specialize (Hgrown (next_loc w)). unfold w0 in Hgrown. simpl in Hgrown.
  by rewrite heap_set_same in Hgrown.
Qed.

Lemma researchAndWriteSection_returns_the_section_witness :
  grown (mkSection "Body" "Main findings" true None None)
    (mkSection "Body" "Main findings" true (Some "Written text")
       (Some [mkSource "https://a.example" "A"; mkSource "https://b.example" "B"])).
Proof.
  eapply (@researchAndWriteSection_returns_the_section (demo 2 pass) "Rust"
            (mkSection "Body" "Main findings" true None None) _ (demo_world 2 pass)).
  vm_compute. reflexivity.
Defined.

(** ** The report of the supervisor's tool *)

Lemma completedSectionsMap_lookup (sections : list ReportSection) (n : string) :
  completedSectionsMap sections !! n =
    if bool_decide (n = "__proto__") then None
    else content_or_empty <$> last (filter (fun s => name s = n) sections).
Proof.
  unfold completedSectionsMap.
  induction sections as [|s sections IH] using rev_ind.
  { simpl. by case_bool_decide. }
  rewrite fold_left_app, filter_app. simpl. unfold write_content at 1.
  destruct (decide (name s = n)) as [<-|Hne].
  - rewrite filter_cons_True, filter_nil by done. rewrite last_snoc.
    case_bool_decide as Hname.
    + rewrite IH. by rewrite ?bool_decide_true.
    + by rewrite lookup_insert_eq.
  - rewrite filter_cons_False, filter_nil, app_nil_r by done.
    rewrite <- IH. clear IH. case_bool_decide as Hname; [done|].
    by rewrite lookup_insert_ne.
Qed.

Lemma fold_push_unseen_url (new : list SourceReference)
  (acc : list SourceReference * gset string) :
  fold_left push_unseen_url new acc =
  fold_left push_unseen (filter (fun src => url src <> "") new) acc.
Proof.
  revert acc. induction new as [|x new IH]; intros acc; [done|].
  simpl. unfold push_unseen_url at 2. case_bool_decide.
  - by rewrite filter_cons_False by (by intros ?).
  - by rewrite filter_cons_True by done.
Qed.

Lemma collect_url_sources_first (sections : list ReportSection) :
  collect_url_sources sections =
    first_by_url
      (filter (fun src => url src <> "")
         (concat ((fun s => default [] (sources s)) <$> sections))).
Proof.
  unfold collect_url_sources.
  assert (forall acc,
            fold_left
              (fun acc s => fold_left push_unseen_url (default [] (sources s)) acc)
              sections acc =
            fold_left push_unseen_url
              (concat ((fun s => default [] (sources s)) <$> sections)) acc) as ->.
  { induction sections as [|s sections IH]; intros acc; [done|].
    simpl. by rewrite fold_left_app, IH. }
  rewrite fold_push_unseen_url, fold_push_unseen. simpl.
  f_equal. apply filter_all, Forall_forall. intros y _. apply not_elem_of_empty.
Qed.

Lemma titled_references_lines (allSources : list SourceReference) :
  titled_references allSources =
    match allSources with
    | [] => ""
    | _ =>
        references_heading +:+
          foldr String.append "" (imap titled_reference_line allSources)
    end.
Proof. unfold titled_references. destruct allSources; [done|]. apply fold_left_append. Qed.

Lemma shown_content_text (sections : list ReportSection) (s : ReportSection) :
  s ∈ sections ->
  to_text (shown_content (completedSectionsMap sections) s) =
    if bool_decide (name s = "__proto__") then "[object Object]"
    else
      match last (filter (fun c => name c = name s) sections) with
      | Some c => or_else (content_or_empty c) (content_or_empty s)
      | None => content_or_empty s
      end.
Proof.
  intros Hin. unfold shown_content, get_property.
  rewrite completedSectionsMap_lookup.
  case_bool_decide as Hname.
  - rewrite Hname. by vm_compute.
  - assert (is_Some (last (filter (fun c => name c = name s) sections))) as [c ->].
    { apply last_is_Some. intros Hnone.
      assert (s ∈ filter (fun c => name c = name s) sections) as Hs
        by (by apply list_elem_of_filter).
      rewrite Hnone in Hs. by apply elem_of_nil in Hs. }
    done.
Qed.

(** X20 (compileReportTool).  The report of the supervisor's tool is the
    contents of the sections in their order, joined by blank lines, where
    a section shows the content of the last section of its name, or its
    own content when that one is empty, and a section named [__proto__]
    shows [[object Object]] whatever its content.  The references follow
    when some source has a URL: the sources with a URL, each URL once at
    its first occurrence, numbered from 1, with the title [Untitled] for a
    source without title. *)
Theorem compileReportTool_report (sections : list ReportSection) :
  let shown s :=
    if bool_decide (name s = "__proto__") then "[object Object]"
    else
      match last (filter (fun c => name c = name s) sections) with
      | Some c => or_else (content_or_empty c) (content_or_empty s)
      | None => content_or_empty s
      end in
  let flat := concat ((fun s => default [] (sources s)) <$> sections) in
  let allSources := first_by_url (filter (fun src => url src <> "") flat) in
  let entries :=
    imap (fun i src =>
            pretty (i + 1)%nat +:+ ". [" +:+
              (if bool_decide (title src = "") then "Untitled" else title src) +:+
              "](" +:+ url src +:+ ")" +:+ nl)
      allSources in
  compileReportTool_execute sections =
    js_join (nl +:+ nl) (shown <$> sections) +:+
    match allSources with
    | [] => ""
    | _ => nl +:+ nl +:+ "## 参考文献" +:+ nl +:+ nl +:+ foldr String.append "" entries
    end.
Proof.
  intros shown flat allSources entries. unfold compileReportTool_execute.
  rewrite collect_url_sources_first, titled_references_lines. fold flat allSources.
  f_equal. f_equal. apply list_fmap_ext. intros i s Hs.
  apply shown_content_text. by eapply list_elem_of_lookup_2.
Qed.

Lemma filter_fmap {A B} (f : A -> B) (P : B -> Prop) `{!forall y, Decision (P y)}
  (l : list A) :
  filter P (f <$> l) = f <$> filter (fun x => P (f x)) l.
Proof.
  induction l as [|x l IH]; [done|]. rewrite fmap_cons.
  destruct (decide (P (f x))).
  - rewrite !filter_cons_True by done. by rewrite fmap_cons, IH.
  - rewrite !filter_cons_False by done. apply IH.
Qed.

Lemma elem_of_concat {A} (x : A) (ls : list (list A)) :
  x ∈ concat ls -> exists l, x ∈ l /\ l ∈ ls.
Proof.
  induction ls as [|l ls IH]; simpl; [by intros ?%elem_of_nil|].
  intros [Hx|Hx]%elem_of_app.
  - exists l. split; [done|left].
  - destruct (IH Hx) as (l' & ? & ?). exists l'. split; [done|by right].
Qed.

Lemma js_or_or_else (a b : option string) :
  default "" (js_or a b) =
    or_else (default "" (js_or a (Some ""))) (default "" (js_or b (Some ""))).
Proof.
  unfold js_or, or_else.
  destruct a as [a|], b as [b|]; simpl; repeat (case_bool_decide; simpl); done.
Qed.

Lemma titled_reference_line_titled (i : nat) (src : SourceReference) :
  title src <> "" -> titled_reference_line i src = reference_line i src.
Proof.
  intros Htitle. unfold titled_reference_line, reference_line, or_else.
  by rewrite bool_decide_false.
Qed.

(** X21 (compileReportTool, compileFinalReport).  The supervisor's tool
    and the last stage of the graph write the same report: for sections
    that are all completed, none of them named [__proto__], whose sources
    all have a URL and a title, [compileFinalReport] returns as
    [final_report] the text that [compileReportTool] makes of these
    sections. *)
Theorem compileFinalReport_agrees_with_compileReportTool `{Capabilities}
  (state : State) (w : World) (secs : list loc) :
  sections state = Some secs ->
  completed_sections state = Some secs ->
  (forall l, l ∈ secs -> name (heap_of w l) <> "__proto__") ->
  (forall l src, l ∈ secs -> src ∈ default [] (sources (heap_of w l)) ->
     url src <> "" /\ title src <> "") ->
  (compileFinalReport state w).2 =
    Ok (RPartial (mkState None None None None None
          (Some (compileReportTool_execute (heap_of w <$> secs))) None None None None)).
Proof.
  intros Hsections Hcompleted Hnames Hsources.
  unfold compileFinalReport, bind, defined, ret. rewrite Hsections, Hcompleted. simpl.
  apply (f_equal (fun report =>
           Ok (RPartial (mkState None None None None None (Some report)
                           None None None None)))).
  unfold compileReportTool_execute.
  set (m := completed_contents (heap_of w) secs).
  apply (f_equal2 String.append).
  - apply (f_equal (js_join (nl +:+ nl))).
    rewrite <- list_fmap_compose. apply list_fmap_ext. intros i l Hl. simpl.
    apply list_elem_of_lookup_2 in Hl.
    rewrite shown_content_text by (by apply list_elem_of_fmap_2).
    rewrite bool_decide_false by auto.
    rewrite merge_contents_at, decide_True by done. simpl.
    unfold m. rewrite merged_content_last. unfold found_content.
    rewrite (bool_decide_false (name (heap_of w l) = "__proto__")) by auto.
    rewrite filter_fmap, fmap_last.
    destruct (last _) as [c|] eqn:Hlast; simpl; [apply js_or_or_else|].
    apply last_None in Hlast.
    assert (l ∈ filter (fun c => name (heap_of w c) = name (heap_of w l)) secs) as Hin
      by (by apply list_elem_of_filter).
    rewrite Hlast in Hin. by apply elem_of_nil in Hin.
  - rewrite collect_sources_first, collect_url_sources_first, <- !list_fmap_compose.
    set (flat := concat _).
    assert (concat ((fun s => default [] (sources s)) ∘ heap_of w <$> secs) = flat) as ->.
    { unfold flat. f_equal. apply list_fmap_ext. intros i l _. simpl.
      by rewrite merge_contents_sources. }
    assert (Forall (fun src => url src <> "" /\ title src <> "") flat) as Hflat.
    { apply Forall_forall. intros src Hsrc. unfold flat in Hsrc.
      apply elem_of_concat in Hsrc as (srcs & Hsrc & Hsrcs).
      apply list_elem_of_fmap in Hsrcs as (l & -> & Hl). simpl in Hsrc.
      rewrite merge_contents_sources in Hsrc. by eapply Hsources. }
    rewrite (filter_all (fun src => url src <> "") flat)
      by (eapply Forall_impl; [exact Hflat|]; by intros src [? ?]).
    unfold references, titled_references.
    destruct (first_by_url flat) eqn:Hfirst; [done|]. rewrite <- Hfirst. f_equal.
    apply imap_ext. intros i src Hsrc. symmetry. apply titled_reference_line_titled.
    apply list_elem_of_lookup_2, first_by_url_sublist_elem in Hsrc.
    rewrite Forall_forall in Hflat. by apply Hflat.
Qed.

Lemma compileFinalReport_agrees_with_compileReportTool_witness :
  (compileFinalReport
     (mkState (Some "Rust") None (Some [0; 1]%nat) (Some [0; 1]%nat)
        None None None None None None) cited_world).2 =
    Ok (RPartial (mkState None None None None None
          (Some (compileReportTool_execute (cited_heap <$> [0; 1]%nat)))
          None None None None)).
Proof.
  apply (@compileFinalReport_agrees_with_compileReportTool (demo 2 pass)
           (mkState (Some "Rust") None (Some [0; 1]%nat) (Some [0; 1]%nat)
              None None None None None None) cited_world [0; 1]%nat).
  - reflexivity.
  - reflexivity.
  - intros l Hl. apply elem_of_cons in Hl as [->|Hl]; [discriminate|].
    apply list_elem_of_singleton in Hl as ->. discriminate.
  - intros l src Hl Hsrc. apply elem_of_cons in Hl as [->|Hl].
    + simpl in Hsrc. apply elem_of_cons in Hsrc as [->|Hsrc]; [split; discriminate|].
      apply list_elem_of_singleton in Hsrc as ->. split; discriminate.
    + apply list_elem_of_singleton in Hl as ->.
      simpl in Hsrc. apply elem_of_cons in Hsrc as [->|Hsrc]; [split; discriminate|].
      apply list_elem_of_singleton in Hsrc as ->. split; discriminate.
Defined.
